(** * The priority crawler of [scraper_v3.py], embedded and verified

    The development follows the Python module [scraper_v3.py]
    (class [IntelligentScraper]).  Pure helpers ([normalize_url],
    [is_valid_url], [score_url_priority]) are Rocq functions over ASCII
    strings; the orchestrator [crawl_website] is written in a small
    state-and-exception monad over an abstract outside world (network,
    clock, language detector, HTML parser, regular expressions), whose
    answers are the fields of a [Library] record.  The frame of a run
    carries two ghost logs, of the URLs requested and of the clock
    readings, so that statements can speak about what was fetched and
    when.  [print] calls are left out.

    Conventions.
    - A Python [str] is a [list ascii]; only ASCII text is modelled, so
      [str.lower] is the ASCII lower-casing.
    - A Python [int] is a [Z].
    - A raised exception is the [Raise] case of [result]; [try/except] is
      [try_except].
    - [urllib.parse.urlparse] follows CPython's [urllib/parse.py]
      ([urlsplit] with the strip of leading control characters and spaces,
      the removal of tab/CR/LF, the scheme test, the bracket test of the
      netloc, and the [;params] split of [urlparse]).  The NFKC check of
      [_checknetloc] concerns non-ASCII netlocs only and is the identity
      here.  The validation of a host written between square brackets,
      which recent releases add, is not modelled: with it [urlparse]
      raises [ValueError] on more of the netlocs that contain both
      brackets.
    - Time is counted in milliseconds. *)

From Stdlib Require Import ZArith Lia Ascii String.
From stdpp Require Import base list gmap strings sorting.

Local Open Scope Z_scope.

(** ** Python strings *)

Module PyStr.

Abbreviation str := (list ascii).

(** String literals. *)
Definition s (lit : string) : str := list_ascii_of_string lit.

Definition code (c : ascii) : Z := Z.of_nat (nat_of_ascii c).

Definition chr_eqb (c d : ascii) : bool := Ascii.eqb c d.

Definition is_upper (c : ascii) : bool := (65 <=? code c) && (code c <=? 90).
Definition is_lower (c : ascii) : bool := (97 <=? code c) && (code c <=? 122).
Definition is_digit (c : ascii) : bool := (48 <=? code c) && (code c <=? 57).
Definition is_alpha (c : ascii) : bool := is_upper c || is_lower c.

(** [c.lower()] *)
Definition lower_char (c : ascii) : ascii :=
  if is_upper c then ascii_of_nat (nat_of_ascii c + 32) else c.

(** [s.lower()] *)
Definition lower (x : str) : str := map lower_char x.

(** [len(s)] *)
Definition len (x : str) : Z := Z.of_nat (length x).

(** [s.startswith(p)] *)
Fixpoint startswith (x p : str) {struct p} : bool :=
  match p with
  | [] => true
  | c :: p' =>
      match x with
      | [] => false
      | d :: x' => chr_eqb c d && startswith x' p'
      end
  end.

(** [p in s] (substring test) *)
Fixpoint contains (x p : str) : bool :=
  startswith x p ||
  match x with
  | [] => false
  | _ :: x' => contains x' p
  end.

(** [s.endswith(p)] *)
Definition endswith (x p : str) : bool := startswith (rev x) (rev p).

(** [s.count(c)] for a one-character needle *)
Definition count_char (c : ascii) (x : str) : Z :=
  len (filter (fun d => chr_eqb c d = true) x).

(** [s.lstrip(chars)] and [s.rstrip(chars)] with the character set given as
    a predicate *)
Fixpoint lstrip (p : ascii -> bool) (x : str) : str :=
  match x with
  | [] => []
  | c :: x' => if p c then lstrip p x' else x
  end.

Definition rstrip (p : ascii -> bool) (x : str) : str :=
  rev (lstrip p (rev x)).

(** Python's [str.isspace] on ASCII: TAB, LF, VT, FF, CR, FS..US, space. *)
Definition is_space (c : ascii) : bool :=
  ((9 <=? code c) && (code c <=? 13)) ||
  ((28 <=? code c) && (code c <=? 32)).

(** [s.strip()] *)
Definition strip (x : str) : str := rstrip is_space (lstrip is_space x).

(** [s.find(c)] for a one-character needle: index of the first occurrence *)
Fixpoint find_char (c : ascii) (x : str) : option nat :=
  match x with
  | [] => None
  | d :: x' => if chr_eqb c d then Some O else S <$> find_char c x'
  end.

(** [s.rfind(c)]: index of the last occurrence *)
Fixpoint rfind_char (c : ascii) (x : str) : option nat :=
  match x with
  | [] => None
  | d :: x' =>
      match rfind_char c x' with
      | Some i => Some (S i)
      | None => if chr_eqb c d then Some O else None
      end
  end.

(** [s[:n]] for an [int] bound, with Python's treatment of a negative
    bound (counted from the end, clamped at 0) *)
Definition slice_to {A} (n : Z) (l : list A) : list A :=
  if 0 <=? n then take (Z.to_nat n) l
  else take (Z.to_nat (Z.of_nat (length l) + n)) l.

(** [c.upper()] *)
Definition upper_char (c : ascii) : ascii :=
  if is_lower c then ascii_of_nat (nat_of_ascii c - 32) else c.

(** [s.capitalize()]: the first character in upper case, the rest in lower
    case *)
Definition capitalize (x : str) : str :=
  match x with
  | [] => []
  | c :: x' => upper_char c :: lower x'
  end.

(** [s.split(c)[0]] for a one-character separator: the text before the
    first [c], all of [s] when there is none *)
Fixpoint split_first (c : ascii) (x : str) : str :=
  match x with
  | [] => []
  | d :: x' => if chr_eqb c d then [] else d :: split_first c x'
  end.

(** [s.replace(old, '')]: the occurrences of [old] are removed from left to
    right, without overlap; [skip] characters of the occurrence found last
    are still to be dropped.  With an empty [old] nothing is removed. *)
Fixpoint remove_from (skip : nat) (old x : str) : str :=
  match x with
  | [] => []
  | c :: x' =>
      match skip with
      | S k => remove_from k old x'
      | O =>
          if startswith x old then remove_from (length old - 1) old x'
          else c :: remove_from O old x'
      end
  end.

Definition remove_all (old x : str) : str :=
  match old with
  | [] => x
  | _ :: _ => remove_from O old x
  end.

End PyStr.

Import PyStr.

(** ** Exceptions *)

Inductive exn : Type :=
  | ValueError (msg : str)
  | LangDetectException (msg : str)
  | RequestException (msg : str)
  | HTTPError (msg : str)
  | OtherException (msg : str).

(** [str(e)] *)
Definition exn_str (e : exn) : str :=
  match e with
  | ValueError m | LangDetectException m | RequestException m
  | HTTPError m | OtherException m => m
  end.

Inductive result (A : Type) : Type :=
  | Ok (a : A)
  | Raise (e : exn).
Arguments Ok {A} a.
Arguments Raise {A} e.

Definition rbind {A B} (r : result A) (k : A -> result B) : result B :=
  match r with
  | Ok a => k a
  | Raise e => Raise e
  end.

(** [try: body  except: handler] (a bare [except] catches everything) *)
Definition try_except {A} (body : result A) (handler : exn -> result A) : result A :=
  match body with
  | Ok a => Ok a
  | Raise e => handler e
  end.

(** ** [urllib.parse] *)

Module UrlParse.

Record ParseResult := {
  scheme : str;
  netloc : str;
  path : str;
  params : str;
  query : str;
  fragment : str
}.

(** [scheme_chars]: letters, digits and [+-.] *)
Definition is_scheme_char (c : ascii) : bool :=
  is_alpha c || is_digit c ||
  chr_eqb c "+" || chr_eqb c "-" || chr_eqb c ".".

(** [_WHATWG_C0_CONTROL_OR_SPACE]: code points 0..32 *)
Definition is_c0_or_space (c : ascii) : bool := code c <=? 32.

(** [_UNSAFE_URL_BYTES_TO_REMOVE = ['\t', '\r', '\n']] *)
Definition is_unsafe_byte (c : ascii) : bool :=
  (code c =? 9) || (code c =? 13) || (code c =? 10).

Definition remove_unsafe (x : str) : str :=
  filter (fun c => is_unsafe_byte c = false) x.

(** The scheme test of [urlsplit]:
    [i = url.find(':'); if i > 0 and url[0].isascii() and url[0].isalpha():
       for c in url[:i]: if c not in scheme_chars: break
       else: scheme, url = url[:i].lower(), url[i+1:]] *)
Definition split_scheme (url : str) : str * str :=
  match find_char ":" url with
  | Some i =>
      if (0 <? i)%nat
         && match url with c :: _ => is_alpha c | [] => false end
         && forallb is_scheme_char (take i url)
      then (lower (take i url), drop (S i) url)
      else ([], url)
  | None => ([], url)
  end.

Definition is_netloc_delim (c : ascii) : bool :=
  chr_eqb c "/" || chr_eqb c "?" || chr_eqb c "#".

(** Position of the first character satisfying [p], or the length. *)
Fixpoint find_first (p : ascii -> bool) (x : str) : nat :=
  match x with
  | [] => O
  | c :: x' => if p c then O else S (find_first p x')
  end.

(** [_splitnetloc(url, 2)]: the netloc runs from index 2 to the earliest of
    [/], [?], [#] (or to the end). *)
Definition splitnetloc (url : str) : str * str :=
  let delim := (2 + find_first is_netloc_delim (drop 2 url))%nat in
  (drop 2 (take delim url), drop delim url).

(** [url.split(c, 1)] when [c in url]: text before and after the first [c] *)
Definition split_once (c : ascii) (url : str) : option (str * str) :=
  match find_char c url with
  | Some i => Some (take i url, drop (S i) url)
  | None => None
  end.

Definition has_char (c : ascii) (x : str) : bool :=
  existsb (chr_eqb c) x.

Definition invalid_ipv6 : exn := ValueError (s "Invalid IPv6 URL").

Definition urlsplit (url0 : str) : result ParseResult :=
  let url := remove_unsafe (lstrip is_c0_or_space url0) in
  let '(sch, url) := split_scheme url in
  rbind
    (if startswith url (s "//") then
       let '(nl, rest) := splitnetloc url in
       if (has_char "[" nl && negb (has_char "]" nl))
          || (has_char "]" nl && negb (has_char "[" nl))
       then Raise invalid_ipv6
       else Ok (nl, rest)
     else Ok ([], url))
    (fun '(nl, url) =>
       let '(url, frag) :=
         match split_once "#" url with
         | Some (u, f) => (u, f)
         | None => (url, [])
         end in
       let '(url, qry) :=
         match split_once "?" url with
         | Some (u, q) => (u, q)
         | None => (url, [])
         end in
       Ok {| scheme := sch; netloc := nl; path := url; params := [];
             query := qry; fragment := frag |}).

Definition uses_params : list str :=
  map s ["" ; "ftp"; "hdl"; "prospero"; "http"; "imap"; "https"; "shttp";
         "rtsp"; "rtspu"; "sip"; "sips"; "mms"; "sftp"; "tel"]%string.

(** [_splitparams(url)] *)
Definition splitparams (url : str) : str * str :=
  if has_char "/" url then
    match rfind_char "/" url with
    | Some j =>
        match find_char ";" (drop j url) with
        | Some k => (take (j + k) url, drop (S (j + k)) url)
        | None => (url, [])
        end
    | None => (url, [])
    end
  else
    match find_char ";" url with
    | Some i => (take i url, drop (S i) url)
    | None =>
        (* [i = -1]: [url[:-1], url[0:]]; unreachable from [urlparse],
           which calls [_splitparams] only when [';' in url] *)
        (slice_to (-1) url, url)
    end.

Definition str_in (x : str) (l : list str) : bool :=
  bool_decide (x ∈ l).

Definition urlparse (url : str) : result ParseResult :=
  rbind (urlsplit url) (fun r =>
    if str_in (scheme r) uses_params && has_char ";" (path r) then
      let '(p, prm) := splitparams (path r) in
      Ok {| scheme := scheme r; netloc := netloc r; path := p; params := prm;
            query := query r; fragment := fragment r |}
    else Ok r).

End UrlParse.

Import UrlParse.

(** ** The scraper's pure helpers *)

(** [normalize_url]: [f"{parsed.scheme}://{parsed.netloc}{path}"] with
    [path = parsed.path.rstrip('/')] *)
Definition normalize_url (url : str) : result str :=
  rbind (urlparse url) (fun parsed =>
    let path := rstrip (chr_eqb "/") (path parsed) in
    Ok (scheme parsed ++ s "://" ++ netloc parsed ++ path)).

Definition skip_extensions : list str :=
  map s [".pdf"; ".jpg"; ".jpeg"; ".png"; ".gif"; ".svg"; ".ico";
         ".zip"; ".tar"; ".gz"; ".rar";
         ".doc"; ".docx"; ".xls"; ".xlsx"; ".ppt"; ".pptx";
         ".mp4"; ".mp3"; ".avi"; ".mov"; ".wav";
         ".css"; ".js"; ".xml"; ".json"]%string.

Definition skip_patterns : list str :=
  map s ["login"; "signin"; "sign-in"; "signup"; "sign-up"; "register";
         "cart"; "checkout"; "payment"; "account"; "profile";
         "search"; "filter"; "sort";
         "privacy"; "terms"; "cookie"; "legal"; "disclaimer";
         "wp-admin"; "wp-content"; "wp-includes";
         "feed"; "rss"; "atom";
         "#"; "javascript:"; "mailto:"; "tel:"]%string.

(** The body of the [try] block of [is_valid_url]. *)
Definition is_valid_url_body (url base_domain : str) : result bool :=
  rbind (urlparse url) (fun parsed =>
    if negb (contains (netloc parsed) base_domain) then Ok false
    else if existsb (fun ext => endswith (lower (path parsed)) ext) skip_extensions
    then Ok false
    else
      let url_lower := lower url in
      if existsb (fun pattern => contains url_lower pattern) skip_patterns
      then Ok false
      else Ok true).

(** [is_valid_url]: the body under [try: ... except: return False] *)
Definition is_valid_url (url base_domain : str) : result bool :=
  try_except (is_valid_url_body url base_domain) (fun _ => Ok false).

Definition priority_keywords : list str :=
  map s ["about"; "company"; "who-we-are"; "our-story"; "overview"; "about-us";
         "services"; "solutions"; "products"; "what-we-do"; "offerings"; "capabilities";
         "technology"; "innovation"; "ai"; "artificial-intelligence"; "digital"; "ml";
         "machine-learning"; "data"; "analytics"; "automation";
         "case-studies"; "portfolio"; "work"; "projects"; "success"; "clients";
         "testimonials"; "success-stories"; "customers"; "case-study";
         "team"; "leadership"; "people"; "executives"; "our-team";
         "careers"; "jobs"; "join-us"; "work-with-us";
         "news"; "blog"; "insights"; "resources"; "press"]%string.

Definition priority_link_texts : list str :=
  map s ["about us"; "about"; "company"; "who we are"; "our company"; "company info";
         "about the company"; "learn more"; "our story";
         "products"; "our products"; "services"; "our services"; "solutions";
         "what we do"; "offerings"; "capabilities";
         "technology"; "innovation"; "ai"; "artificial intelligence";
         "machine learning"; "data analytics"; "automation";
         "case studies"; "portfolio"; "our work"; "projects"; "success stories";
         "client stories"; "customer success";
         "team"; "leadership"; "our team"; "people"; "meet the team";
         "careers"; "join us"; "work with us"; "jobs"]%string.

Definition high_value_combos : list (str * str) :=
  map (fun p => (s (fst p), s (snd p)))
    [("about", "company"); ("our", "services"); ("what", "do");
     ("case", "stud"); ("success", "stor"); ("our", "team");
     ("artificial", "intelligence"); ("machine", "learning")]%string.

(** [for keyword in priority_keywords: if keyword in url_lower: score += 10] *)
Fixpoint score_url_keywords (keywords : list str) (url_lower : str) (score : Z) : Z :=
  match keywords with
  | [] => score
  | keyword :: rest =>
      score_url_keywords rest url_lower
        (if contains url_lower keyword then score + 10 else score)
  end.

(** [for pattern in candidates: if pattern in text: score += bonus; break] *)
Fixpoint score_first_match (candidates : list str) (text : str) (bonus score : Z) : Z :=
  match candidates with
  | [] => score
  | pattern :: rest =>
      if contains text pattern then score + bonus
      else score_first_match rest text bonus score
  end.

(** [if path_depth > 3: score -= (path_depth - 3) * 2] *)
Definition score_depth (url_lower : str) (score : Z) : Z :=
  let path_depth := count_char "/" url_lower in
  if 3 <? path_depth then score - (path_depth - 3) * 2 else score.

(** [for word1, word2 in combos: if word1 in combined and word2 in combined:
       score += 25] *)
Fixpoint score_combos (combos : list (str * str)) (combined : str) (score : Z) : Z :=
  match combos with
  | [] => score
  | (word1, word2) :: rest =>
      score_combos rest combined
        (if contains combined word1 && contains combined word2
         then score + 25 else score)
  end.

(** The score just before the final [if score == 0 ...] of
    [score_url_priority]. *)
Definition score_before_floor (url link_text anchor_context : str) : Z :=
  let url_lower := lower url in
  let text_lower := strip (lower link_text) in
  let context_lower := strip (lower anchor_context) in
  let score := 0 in
  let score := score_url_keywords priority_keywords url_lower score in
  let score := score_first_match priority_link_texts text_lower 20 score in
  let score := score_first_match priority_keywords context_lower 5 score in
  let score := score_depth url_lower score in
  let combined := url_lower ++ s " " ++ text_lower ++ s " " ++ context_lower in
  score_combos high_value_combos combined score.

Definition score_url_priority (url link_text anchor_context : str) : Z :=
  let url_lower := lower url in
  let score := score_before_floor url link_text anchor_context in
  if (score =? 0) && (0 <? len url_lower) then 1 else score.

(** ** Data of the crawl *)

(** The map from signal name to matched snippets. *)
Abbreviation Signals := (gmap str (list str)).

(** One entry of [links_data]. *)
Record Link := {
  link_url : str;
  link_text : str;
  link_context : str
}.

(** The dict returned by [scrape_page]; the keys [error] and
    [enterprise_signals] are present in some of the returns only. *)
Record Page (Soup : Type) := {
  page_url : str;
  page_text : str;
  page_links : list Link;
  page_soup : option Soup;
  page_success : bool;
  page_error : option str;
  page_signals : option Signals
}.
Arguments page_url {Soup}.
Arguments page_text {Soup}.
Arguments page_links {Soup}.
Arguments page_soup {Soup}.
Arguments page_success {Soup}.
Arguments page_error {Soup}.
Arguments page_signals {Soup}.

(** One entry of [results['pages_scraped']]. *)
Record PageRecord := {
  rec_url : str;
  rec_title : str;
  rec_text_length : Z
}.

(** The [results] dict of [crawl_website]; [error] is [None] while the key
    is absent. *)
Record Results := {
  company_name : str;
  base_url : str;
  pages_scraped : list PageRecord;
  total_text : str;
  page_count : Z;
  enterprise_signals : Signals;
  error : option str
}.

(** A [requests] response, as far as [scrape_page] looks at it. *)
Record Response := {
  status_code : Z;
  reason : str;
  content : str
}.

(** An anchor found by [soup.find_all('a', href=True)]: its [href], its
    stripped text, and the stripped text of its parent if it has one. *)
Record Anchor := {
  anchor_href : str;
  anchor_text : str;
  anchor_parent_text : option str
}.

(** The libraries and the outside world the scraper talks to.  [W] is the
    state of the world; an action returns the new state. *)
Record Library (W Soup : Type) := {
  (** [self.session.get(url, timeout=7, allow_redirects=True)] *)
  session_get : str -> W -> result Response * W;
  (** text of the [HTTPError] of [raise_for_status] *)
  http_error_msg : Response -> str;
  (** [BeautifulSoup(content, 'lxml')] *)
  BeautifulSoup : str -> result Soup;
  (** [for element in soup([...]): element.decompose()]: the tree without
      script, style, nav, footer, header, aside and iframe elements *)
  decompose_unwanted : Soup -> Soup;
  (** [soup.get_text(separator=' ', strip=True)] *)
  get_text : Soup -> str;
  (** [soup.find_all('a', href=True)] *)
  find_all_anchors : Soup -> list Anchor;
  (** [urllib.parse.urljoin] *)
  urljoin : str -> str -> result str;
  (** [langdetect.detect] *)
  detect : str -> W -> result str * W;
  (** [re.findall(pattern, text, re.IGNORECASE)] *)
  re_findall : str -> str -> list str;
  (** [extract_company_name(soup, url)] *)
  extract_company_name : Soup -> str -> result str;
  (** [time.time()], in milliseconds *)
  time_time : W -> Z * W;
  (** [time.sleep(0.1)] *)
  time_sleep : W -> W
}.
Arguments session_get {W Soup}.
Arguments http_error_msg {W Soup}.
Arguments BeautifulSoup {W Soup}.
Arguments decompose_unwanted {W Soup}.
Arguments get_text {W Soup}.
Arguments find_all_anchors {W Soup}.
Arguments urljoin {W Soup}.
Arguments detect {W Soup}.
Arguments re_findall {W Soup}.
Arguments extract_company_name {W Soup}.
Arguments time_time {W Soup}.
Arguments time_sleep {W Soup}.

(** What persists between the statements of [crawl_website]:
    [self.visited_urls], the world, the locals [results] and [all_signals],
    and two ghost logs, oldest entry first: the URLs handed to
    [session.get] and the values read from [time.time()]. *)
Record Frame (W : Type) := {
  visited_urls : gset str;
  world : W;
  fetched : list str;
  clock_reads : list Z;
  results : Results;
  all_signals : Signals
}.
Arguments visited_urls {W}.
Arguments world {W}.
Arguments fetched {W}.
Arguments clock_reads {W}.
Arguments results {W}.
Arguments all_signals {W}.

(** ** The state-and-exception monad *)

Definition M (W A : Type) : Type := Frame W -> result A * Frame W.

Definition ret {W A} (a : A) : M W A := fun f => (Ok a, f).

Definition bind {W A B} (m : M W A) (k : A -> M W B) : M W B :=
  fun f =>
    match m f with
    | (Ok a, f') => k a f'
    | (Raise e, f') => (Raise e, f')
    end.

Definition raise {W A} (e : exn) : M W A := fun f => (Raise e, f).

Definition lift {W A} (r : result A) : M W A := fun f => (r, f).

(** [try: body  except Exception as e: handler(e)]; the state reached when
    the exception was raised is kept. *)
Definition try_catch {W A} (body : M W A) (handler : exn -> M W A) : M W A :=
  fun f =>
    match body f with
    | (Ok a, f') => (Ok a, f')
    | (Raise e, f') => handler e f'
    end.

Definition gets {W A} (proj : Frame W -> A) : M W A := fun f => (Ok (proj f), f).

Definition modify {W} (upd : Frame W -> Frame W) : M W unit :=
  fun f => (Ok tt, upd f).

Declare Scope crawl_scope.
Delimit Scope crawl_scope with crawl.
Notation "x <- m ;; k" := (bind m (fun x => k))
  (at level 100, m at next level, right associativity) : crawl_scope.
Notation "m ;;; k" := (bind m (fun _ => k))
  (at level 100, right associativity) : crawl_scope.

(** ** [IntelligentScraper] *)

Section Scraper.

Context {W Soup : Type}.
Variable lib : Library W Soup.

Local Open Scope crawl_scope.

Definition set_world (w : W) (f : Frame W) : Frame W :=
  {| visited_urls := visited_urls f; world := w; fetched := fetched f;
     clock_reads := clock_reads f;
     results := results f; all_signals := all_signals f |}.

Definition log_request (url : str) (f : Frame W) : Frame W :=
  {| visited_urls := visited_urls f; world := world f;
     fetched := fetched f ++ [url];
     clock_reads := clock_reads f;
     results := results f; all_signals := all_signals f |}.

Definition log_clock (t : Z) (f : Frame W) : Frame W :=
  {| visited_urls := visited_urls f; world := world f; fetched := fetched f;
     clock_reads := clock_reads f ++ [t];
     results := results f; all_signals := all_signals f |}.

Definition set_visited_urls (v : gset str) (f : Frame W) : Frame W :=
  {| visited_urls := v; world := world f; fetched := fetched f;
     clock_reads := clock_reads f;
     results := results f; all_signals := all_signals f |}.

Definition set_results (r : Results) (f : Frame W) : Frame W :=
  {| visited_urls := visited_urls f; world := world f; fetched := fetched f;
     clock_reads := clock_reads f;
     results := r; all_signals := all_signals f |}.

Definition set_all_signals (sg : Signals) (f : Frame W) : Frame W :=
  {| visited_urls := visited_urls f; world := world f; fetched := fetched f;
     clock_reads := clock_reads f;
     results := results f; all_signals := sg |}.

(** A world action that may raise. *)
Definition io {A} (act : W -> result A * W) : M W A :=
  fun f => let '(r, w) := act (world f) in (r, set_world w f).

(** [time.time()], recorded in the clock log. *)
Definition read_clock : M W Z :=
  fun f => let '(t, w) := time_time lib (world f) in
           (Ok t, log_clock t (set_world w f)).

(** [self.session.get(url, ...)], recorded in the request log. *)
Definition do_session_get (url : str) : M W Response :=
  modify (log_request url) ;;; io (session_get lib url).

(** [response.raise_for_status()] of [requests]: an [HTTPError] for the
    client-error and server-error statuses 400..599. *)
Definition raise_for_status (response : Response) : result unit :=
  if ((400 <=? status_code response) && (status_code response <? 500))
     || ((500 <=? status_code response) && (status_code response <? 600))
  then Raise (HTTPError (http_error_msg lib response))
  else Ok tt.

Definition enterprise_patterns : list (str * str) :=
  map (fun p => (s (fst p), s (snd p)))
    [("fortune", "fortune\s+(?:500|100)");
     ("publicly_traded", "(?:publicly traded|publicly-traded|public company|traded on)");
     ("stock_exchange", "(?:nasdaq|nyse|dow jones|s&p 500)");
     ("large_valuation", "\$\d+(?:\.\d+)?\s*(?:billion|B)\s+(?:market cap|valuation)");
     ("large_workforce", "(?:\d{2,3},000\+|10,000\+|20,000\+)\s+employees");
     ("multinational", "multinational\s+corporation");
     ("global_offices", "offices in \d{2,}\+?\s+countries");
     ("large_revenue", "\$\d+(?:\.\d+)?\s*(?:billion|B)\s+in revenue")]%string.

Fixpoint detect_signals_loop (patterns : list (str * str)) (text_lower : str)
    (detected : Signals) : Signals :=
  match patterns with
  | [] => detected
  | (signal_name, pattern) :: rest =>
      let matches := re_findall lib pattern text_lower in
      detect_signals_loop rest text_lower
        (match matches with
         | [] => detected
         | _ :: _ => <[signal_name := matches]> detected
         end)
  end.

Definition detect_enterprise_signals (text : str) : Signals :=
  detect_signals_loop enterprise_patterns (lower text) ∅.

(** [is_english]; only [LangDetectException] is caught. *)
Definition is_english (text : str) : M W bool :=
  if (len text =? 0) || (len (strip text) <? 50) then ret true
  else
    try_catch
      (let sample := strip (slice_to 200 text) in
       lang <- io (detect lib sample) ;;
       ret (bool_decide (lang = s "en")))
      (fun e =>
         match e with
         | LangDetectException _ => ret true
         | _ => raise e
         end).

(** [re.sub(r'\s+', ' ', text)]: every maximal run of whitespace becomes one
    space; [in_run] tells that the previous character was whitespace. *)
Fixpoint collapse_whitespace (in_run : bool) (text : str) : str :=
  match text with
  | [] => []
  | c :: rest =>
      if is_space c then
        if in_run then collapse_whitespace true rest
        else " "%char :: collapse_whitespace true rest
      else c :: collapse_whitespace false rest
  end.

(** [extract_text_from_html]: returns the text and the soup as the
    [decompose] calls left it (the caller keeps using that object). *)
Definition extract_text_from_html (soup : Soup) : str * Soup :=
  let soup := decompose_unwanted lib soup in
  let text := get_text lib soup in
  let text := collapse_whitespace false text in
  (strip text, soup).

(** The link loop of [scrape_page]. *)
Fixpoint collect_links (url : str) (anchors : list Anchor) (links_data : list Link)
    : result (list Link) :=
  match anchors with
  | [] => Ok links_data
  | link :: rest =>
      let href := anchor_href link in
      if len href =? 0 then collect_links url rest links_data
      else
        rbind (urljoin lib url href) (fun absolute_url =>
          let context :=
            match anchor_parent_text link with
            | Some t => slice_to 100 t
            | None => []
            end in
          collect_links url rest
            (links_data ++ [{| link_url := absolute_url;
                               link_text := anchor_text link;
                               link_context := context |}]))
  end.

Definition failed_page (url error : str) : Page Soup :=
  {| page_url := url; page_text := []; page_links := []; page_soup := None;
     page_success := false; page_error := Some error; page_signals := None |}.

Definition scrape_page (url : str) : M W (Page Soup) :=
  try_catch
    (response <- do_session_get url ;;
     lift (raise_for_status response) ;;;
     soup <- lift (BeautifulSoup lib (content response)) ;;
     let '(text, soup) := extract_text_from_html soup in
     english <- is_english text ;;
     if negb english then ret (failed_page url (s "Non-English content"))
     else
       let enterprise_signals := detect_enterprise_signals text in
       links_data <- lift (collect_links url (find_all_anchors lib soup) []) ;;
       ret {| page_url := url; page_text := text; page_links := links_data;
              page_soup := Some soup; page_success := true;
              page_error := None;
              page_signals := Some enterprise_signals |})
    (fun e => ret (failed_page url (exn_str e))).

(** *** Ranking *)

(** An entry [(score, link_url, link_text)] of [scored_links]. *)
Definition Scored : Type := Z * str * str.

Definition sc_score (c : Scored) : Z := c.1.1.
Definition sc_url (c : Scored) : str := c.1.2.
(** The scoring loop over [homepage['links']]. *)
Fixpoint score_links (visited : gset str) (base_domain : str)
    (links : list Link) (scored_links : list Scored) : result (list Scored) :=
  match links with
  | [] => Ok scored_links
  | link_data :: rest =>
      let link_url := link_url link_data in
      rbind (normalize_url link_url) (fun normalized =>
        if bool_decide (normalized ∈ visited)
        then score_links visited base_domain rest scored_links
        else
          rbind (is_valid_url link_url base_domain) (fun valid =>
            if negb valid
            then score_links visited base_domain rest scored_links
            else
              let score :=
                score_url_priority link_url (link_text link_data)
                  (link_context link_data) in
              if 0 <? score
              then score_links visited base_domain rest
                     (scored_links ++ [(score, link_url, link_text link_data)])
              else score_links visited base_domain rest scored_links))
  end.

(** [list.sort(reverse=True, key=lambda x: x[0])]: descending in the key,
    entries with equal keys keep their order.  Insertion from the right:
    an entry goes in front of the first entry whose key is not larger. *)
Fixpoint insert_scored (x : Scored) (l : list Scored) : list Scored :=
  match l with
  | [] => [x]
  | y :: l' =>
      if sc_score y <=? sc_score x then x :: y :: l'
      else y :: insert_scored x l'
  end.

Definition sort_scored (l : list Scored) : list Scored :=
  foldr insert_scored [] l.

(** *** [crawl_website] *)

Definition nl : str := ["010"%char].

Definition init_results (start_url : str) : Results :=
  {| company_name := []; base_url := start_url; pages_scraped := [];
     total_text := []; page_count := 0; enterprise_signals := ∅;
     error := None |}.

Definition set_error (msg : str) (r : Results) : Results :=
  {| company_name := company_name r; base_url := base_url r;
     pages_scraped := pages_scraped r; total_text := total_text r;
     page_count := page_count r; enterprise_signals := enterprise_signals r;
     error := Some msg |}.

Definition set_company_name (name : str) (r : Results) : Results :=
  {| company_name := name; base_url := base_url r;
     pages_scraped := pages_scraped r; total_text := total_text r;
     page_count := page_count r; enterprise_signals := enterprise_signals r;
     error := error r |}.

Definition set_enterprise_signals (sg : Signals) (r : Results) : Results :=
  {| company_name := company_name r; base_url := base_url r;
     pages_scraped := pages_scraped r; total_text := total_text r;
     page_count := page_count r; enterprise_signals := sg;
     error := error r |}.

(** [results['pages_scraped'].append(record)] *)
Definition append_page (record : PageRecord) (r : Results) : Results :=
  {| company_name := company_name r; base_url := base_url r;
     pages_scraped := pages_scraped r ++ [record];
     total_text := total_text r;
     page_count := page_count r; enterprise_signals := enterprise_signals r;
     error := error r |}.

(** [results['total_text'] += text] *)
Definition append_text (text : str) (r : Results) : Results :=
  {| company_name := company_name r; base_url := base_url r;
     pages_scraped := pages_scraped r; total_text := total_text r ++ text;
     page_count := page_count r; enterprise_signals := enterprise_signals r;
     error := error r |}.

Definition set_page_count (n : Z) (r : Results) : Results :=
  {| company_name := company_name r; base_url := base_url r;
     pages_scraped := pages_scraped r; total_text := total_text r;
     page_count := n; enterprise_signals := enterprise_signals r;
     error := error r |}.

Definition update_results (upd : Results -> Results) : M W unit :=
  modify (fun f => set_results (upd (results f)) f).

(** [for signal_type, matches in page_signals.items():
       if signal_type not in all_signals: all_signals[signal_type] = []
       all_signals[signal_type].extend(matches)] *)
Definition merge_signals (all page : Signals) : Signals :=
  union_with (fun old new => Some (old ++ new)) all page.

Definition collect_signals (page : Page Soup) : M W unit :=
  match page_signals page with
  | Some sg => modify (fun f => set_all_signals (merge_signals (all_signals f) sg) f)
  | None => ret tt
  end.

(** [link_text[:50] if link_text else 'Page'] *)
Definition page_title (link_text : str) : str :=
  match link_text with
  | [] => s "Page"
  | _ :: _ => slice_to 50 link_text
  end.

(** The loop [for score, url, link_text in priority_links]. *)
Fixpoint crawl_pages (self_timeout start_time : Z) (priority_links : list Scored)
    : M W unit :=
  match priority_links with
  | [] => ret tt
  | (_, url, link_text) :: rest =>
      now <- read_clock ;;
      if self_timeout * 1000 <? now - start_time then ret tt
      else
        normalized <- lift (normalize_url url) ;;
        visited <- gets visited_urls ;;
        if bool_decide (normalized ∈ visited)
        then crawl_pages self_timeout start_time rest
        else
          page <- scrape_page url ;;
          (if page_success page then
             modify (fun f => set_visited_urls ({[normalized]} ∪ visited_urls f) f) ;;;
             collect_signals page ;;;
             let title := page_title link_text in
             update_results (append_page
               {| rec_url := url; rec_title := title;
                  rec_text_length := len (page_text page) |}) ;;;
             update_results (append_text
               (nl ++ nl ++ s "=== " ++ title ++ s " ===" ++ nl ++ nl
                ++ page_text page)) ;;;
             update_results (fun r => set_page_count (page_count r + 1) r)
           else ret tt) ;;;
          modify (fun f => set_world (time_sleep lib (world f)) f) ;;;
          crawl_pages self_timeout start_time rest
  end.

(** The block under [# Extract company name], [# Collect enterprise signals
    from homepage] and [# Store homepage]. *)
Definition store_homepage (start_url : str) (homepage : Page Soup) : M W unit :=
  name <- lift (match page_soup homepage with
                | Some soup => extract_company_name lib soup start_url
                | None =>
                    Raise (OtherException
                             (s "'NoneType' object has no attribute 'find'"))
                end) ;;
  update_results (set_company_name name) ;;;
  collect_signals homepage ;;;
  normalized <- lift (normalize_url start_url) ;;
  modify (fun f => set_visited_urls ({[normalized]} ∪ visited_urls f) f) ;;;
  update_results (append_page
    {| rec_url := start_url; rec_title := s "Homepage";
       rec_text_length := len (page_text homepage) |}) ;;;
  update_results (append_text (page_text homepage ++ nl ++ nl)) ;;;
  update_results (set_page_count 1).

(** The block under [# Score and sort links] and [# Take top priority
    links]. *)
Definition rank_links (self_max_pages : Z) (base_domain : str)
    (homepage : Page Soup) : M W (list Scored) :=
  visited <- gets visited_urls ;;
  scored_links <- lift (score_links visited base_domain (page_links homepage) []) ;;
  let scored_links := sort_scored scored_links in
  let priority_links := slice_to (self_max_pages - 1) scored_links in
  ret priority_links.

(** The [try] block of [crawl_website]; the value tells whether the block
    left through its [return results]. *)
Definition crawl_body (self_max_pages self_timeout start_time : Z)
    (start_url base_domain : str) : M W bool :=
  homepage <- scrape_page start_url ;;
  if negb (page_success homepage) then
    update_results (set_error
      (s "Failed to scrape: " ++
       match page_error homepage with Some e => e | None => s "None" end)) ;;;
    ret true
  else
    store_homepage start_url homepage ;;;
    priority_links <- rank_links self_max_pages base_domain homepage ;;
    crawl_pages self_timeout start_time priority_links ;;;
    ret false.

Definition crawl_website (self_max_pages self_timeout : Z) (start_url : str)
    : M W Results :=
  start_time <- read_clock ;;
  let start_url :=
    if negb (startswith start_url (s "http")) then s "https://" ++ start_url
    else start_url in
  parsed <- lift (urlparse start_url) ;;
  let base_domain := netloc parsed in
  modify (set_results (init_results start_url)) ;;;
  modify (set_all_signals ∅) ;;;
  returned <-
    try_catch
      (crawl_body self_max_pages self_timeout start_time start_url base_domain)
      (fun e => update_results (set_error (exn_str e)) ;;; ret false) ;;
  if returned : bool then gets results
  else
    sg <- gets all_signals ;;
    update_results (set_enterprise_signals sg) ;;;
    gets results.

End Scraper.

Arguments crawl_website {W Soup} lib self_max_pages self_timeout start_url.
Arguments crawl_body {W Soup} lib self_max_pages self_timeout start_time
  start_url base_domain.
Arguments crawl_pages {W Soup} lib self_timeout start_time priority_links.
Arguments store_homepage {W Soup} lib start_url homepage.
Arguments rank_links {W Soup} self_max_pages base_domain homepage.
Arguments scrape_page {W Soup} lib url.
Arguments is_english {W Soup} lib text.
Arguments raise_for_status {W Soup} lib response.

(** ** The entry point *)

Section EntryPoint.

Context {W Soup : Type}.
Variable lib : Library W Soup.

(** The state of a new [IntelligentScraper] in the world [w]: nothing
    visited, and empty logs. *)
Definition new_scraper (w : W) : Frame W :=
  {| visited_urls := ∅; world := w; fetched := []; clock_reads := [];
     results := init_results []; all_signals := ∅ |}.

(** [scrape_company_website(url, max_pages)]: a new scraper, with the
    default [timeout] of 30 seconds, crawls [url]. *)
Definition scrape_company_website (url : str) (max_pages : Z) (w : W)
    : result Results * Frame W :=
  crawl_website lib max_pages 30 url (new_scraper w).

End EntryPoint.

(** The loop over [page['enterprise_signals'].items()] of [crawl_website],
    statement by statement:
    [if signal_type not in all_signals: all_signals[signal_type] = []] and
    [all_signals[signal_type].extend(matches)]. *)
Fixpoint extend_signals (all_signals : Signals) (items : list (str * list str))
    : Signals :=
  match items with
  | [] => all_signals
  | (signal_type, matches) :: rest =>
      let all_signals :=
        if bool_decide (is_Some (all_signals !! signal_type)) then all_signals
        else <[signal_type := []]> all_signals in
      let all_signals :=
        <[signal_type := default [] (all_signals !! signal_type) ++ matches]>
          all_signals in
      extend_signals all_signals rest
  end.

(** ** [extract_company_name] *)

Module CompanyName.

(** The separators tried on the title, in the order of the source's list
    ['|', '-', '–', ':', '—'].  The en dash and the em dash are not ASCII:
    no modelled title contains them, so their rounds of the loop do
    nothing and are left out. *)
Definition separators : list ascii := ["|"; "-"; ":"]%char.

(** [for sep in separators: if sep in title_text: ...]; [Some name] when
    the loop returns [name]. *)
Fixpoint name_before_separator (seps : list ascii) (title_text : str) : option str :=
  match seps with
  | [] => None
  | sep :: rest =>
      if has_char sep title_text then
        let name := strip (split_first sep title_text) in
        if (3 <? len name) && (len name <? 50) then Some name
        else name_before_separator rest title_text
      else name_before_separator rest title_text
  end.

(** The block under [# Try title tag]; [Some name] when it returns. *)
Definition name_from_title (title : option str) : option str :=
  match title with
  | Some text =>
      let title_text := strip text in
      match name_before_separator separators title_text with
      | Some name => Some name
      | None =>
          if (3 <? len title_text) && (len title_text <? 50) then Some title_text
          else None
      end
  | None => None
  end.

(** The block under [# Fallback to domain]. *)
Definition name_from_domain (url : str) : result str :=
  rbind (urlparse url) (fun parsed =>
    let domain := split_first "." (remove_all (s "www.") (netloc parsed)) in
    Ok (capitalize domain)).

(** [extract_company_name(soup, url)] on what the two [soup.find] calls
    give: [og_content] is [og_site.get('content')] when the [meta] tag with
    [property='og:site_name'] exists ([None] when the tag or the attribute
    is missing), [title] is [title.get_text()] when there is a [title]
    tag. *)
Definition extract_company_name (og_content title : option str) (url : str)
    : result str :=
  match og_content with
  | Some (c :: content') => Ok (strip (c :: content'))
  | _ =>
      match name_from_title title with
      | Some name => Ok name
      | None => name_from_domain url
      end
  end.

End CompanyName.

(** The two [soup.find] calls of [extract_company_name]. *)
Record SoupFind (Soup : Type) := {
  find_og_content : Soup -> option str;
  find_title_text : Soup -> option str
}.
Arguments find_og_content {Soup}.
Arguments find_title_text {Soup}.

(** ** [validate_url] ([utils_v4.py], and the same text in [utils.py])

    The validation of a URL typed by a user; what it returns on acceptance
    is a start URL for [scrape_company_website]. *)

(** The character class [[a-zA-Z0-9-_.]] *)
Definition is_domain_char (c : ascii) : bool :=
  is_alpha c || is_digit c || chr_eqb c "-" || chr_eqb c "_" || chr_eqb c ".".

(** [re.match(domain_pattern, x) is not None] for
    [domain_pattern = r'^[a-zA-Z0-9][a-zA-Z0-9-_.]*\.[a-zA-Z]{2,}$']: a
    letter or digit, characters of the class, a dot, and two or more
    letters up to the end.  The letters after the dot hold no dot, so the
    dot is the last one of the string; [$] also matches in front of one
    newline at the end. *)
Definition match_domain_pattern (x : str) : bool :=
  let x := match rev x with
           | c :: r => if chr_eqb c "010" then rev r else x
           | [] => x
           end in
  match x with
  | [] => false
  | c :: rest =>
      (is_alpha c || is_digit c)
      && match rfind_char "." rest with
         | Some i =>
             forallb is_domain_char (take i rest)
             && forallb is_alpha (drop (S i) rest)
             && (2 <=? len (drop (S i) rest))
         | None => false
         end
  end.

(** [validate_url(url)]: the pair [(is_valid, normalized_url or
    error_message)]. *)
Definition validate_url (url : str) : result (bool * str) :=
  let url := strip url in
  let url :=
    if negb (startswith url (s "http://") || startswith url (s "https://"))
    then s "https://" ++ url else url in
  try_except
    (rbind (urlparse url) (fun result =>
       if len (netloc result) =? 0 then Ok (false, s "Invalid URL format")
       else if negb (match_domain_pattern (remove_all (s "www.") (netloc result)))
       then Ok (false, s "Invalid domain name")
       else Ok (true, url)))
    (fun e => Ok (false, s "Invalid URL: " ++ exn_str e)).

(** ** A small static web for concrete runs *)

Module Demo.

(** A document of the static web: what the server answers for a URL and
    what the parser makes of the body. *)
Record Doc := {
  doc_url : str;
  doc_status : Z;
  doc_text : str;
  doc_anchors : list Anchor;
  doc_lang : str
}.

(** The world is the clock, in milliseconds. *)
Definition World : Type := Z.

Fixpoint lookup_doc (site : list Doc) (key : str) : option Doc :=
  match site with
  | [] => None
  | d :: rest => if bool_decide (doc_url d = key) then Some d else lookup_doc rest key
  end.

Fixpoint lookup_text (site : list Doc) (text : str) : option Doc :=
  match site with
  | [] => None
  | d :: rest =>
      if bool_decide (strip (slice_to 200 (doc_text d)) = text) then Some d
      else lookup_text rest text
  end.

(** The library over a site: a request takes [latency] milliseconds and
    answers with the document stored for the URL (the body is the URL
    itself, which the parser resolves back to the document); an unknown
    URL is a connection error; hrefs are absolute already. *)
Definition library (site : list Doc) (latency : Z) : Library World Doc :=
  {| session_get := fun url w =>
       match lookup_doc site url with
       | Some d => (Ok {| status_code := doc_status d; reason := []; content := url |},
                    w + latency)
       | None => (Raise (RequestException (s "Connection refused")), w + latency)
       end;
     http_error_msg := fun _ => s "Client Error";
     BeautifulSoup := fun body =>
       match lookup_doc site body with
       | Some d => Ok d
       | None => Raise (OtherException (s "no document"))
       end;
     decompose_unwanted := fun d => d;
     get_text := doc_text;
     find_all_anchors := doc_anchors;
     urljoin := fun _ href => Ok href;
     detect := fun sample w =>
       match lookup_text site sample with
       | Some d => (Ok (doc_lang d), w)
       | None => (Raise (LangDetectException (s "No features in text.")), w)
       end;
     re_findall := fun _ _ => [];
     extract_company_name := fun _ _ => Ok (s "Example");
     time_time := fun w => (w, w);
     time_sleep := fun w => w + 100 |}.

Definition anchor (href text : string) : Anchor :=
  {| anchor_href := s href; anchor_text := s text; anchor_parent_text := None |}.

Definition doc (url : string) (status : Z) (text : string)
    (anchors : list Anchor) : Doc :=
  {| doc_url := s url; doc_status := status; doc_text := s text;
     doc_anchors := anchors; doc_lang := s "en" |}.

(** The seed of the runs and its homepage URL. *)
Definition seed : str := s "example.com".
Definition home : str := s "https://example.com".

(** A fresh scraper at time 0: nothing visited, nothing requested. *)
Definition fresh : Frame World :=
  {| visited_urls := ∅; world := 0; fetched := []; clock_reads := [];
     results := init_results []; all_signals := ∅ |}.

Definition site1 : list Doc :=
  [ doc "https://example.com" 200 "Welcome"
      [anchor "https://example.com/about" "About Us";
       anchor "https://example.com/down" "Our Team";
       anchor "https://example.com/x/y" "Deep";
       anchor "https://example.com/blog" "Blog";
       anchor "https://example.com/login" "Login"];
    doc "https://example.com/about" 200 "About the company" [];
    doc "https://example.com/down" 404 "" [];
    doc "https://example.com/blog" 200 "Blog posts" [] ].

(** A homepage that answers 404. *)
Definition site_404 : list Doc :=
  [ doc "https://example.com" 404 "Not Found" [] ].

(** A homepage that answers 300 (Multiple Choices) with a body; [requests]
    follows no redirect here and [raise_for_status] does not raise. *)
Definition site_300 : list Doc :=
  [ doc "https://example.com" 300 "Welcome"
      [anchor "https://example.com/about" "About Us"];
    doc "https://example.com/about" 200 "About the company" [] ].

(** A homepage whose text the detector classifies as French. *)
Definition site_french : list Doc :=
  [ {| doc_url := s "https://example.com"; doc_status := 200;
       doc_text := s "Bienvenue sur le site de notre entreprise, votre partenaire numerique.";
       doc_anchors := [anchor "https://example.com/about" "About Us"];
       doc_lang := s "fr" |};
    doc "https://example.com/about" 200 "About the company" [] ].

Definition ten_pages : list Doc :=
  [ doc "https://example.com/about" 200 "About" [];
    doc "https://example.com/services" 200 "Services" [];
    doc "https://example.com/team" 200 "Team" [];
    doc "https://example.com/blog" 200 "Blog" [];
    doc "https://example.com/news" 200 "News" [];
    doc "https://example.com/careers" 200 "Careers" [];
    doc "https://example.com/products" 200 "Products" [];
    doc "https://example.com/contact" 200 "Contact" [];
    doc "https://example.com/portfolio" 200 "Portfolio" [];
    doc "https://example.com/clients" 200 "Clients" [] ].

(** A homepage with ten valid links to ten different pages. *)
Definition site_ten : list Doc :=
  doc "https://example.com" 200 "Welcome"
    [anchor "https://example.com/blog" "Blog";
     anchor "https://example.com/about" "About Us";
     anchor "https://example.com/contact" "Contact";
     anchor "https://example.com/team" "Our Team";
     anchor "https://example.com/services" "Services";
     anchor "https://example.com/news" "News";
     anchor "https://example.com/careers" "Careers";
     anchor "https://example.com/products" "Products";
     anchor "https://example.com/portfolio" "Portfolio";
     anchor "https://example.com/clients" "Clients"]
  :: ten_pages.

(** A homepage with ten valid links, two of which lead to the team page. *)
Definition site_ten_dup : list Doc :=
  doc "https://example.com" 200 "Welcome"
    [anchor "https://example.com/blog" "Blog";
     anchor "https://example.com/team" "Our Team";
     anchor "https://example.com/contact" "Contact";
     anchor "https://example.com/team" "Our Team";
     anchor "https://example.com/services" "Services";
     anchor "https://example.com/news" "News";
     anchor "https://example.com/careers" "Careers";
     anchor "https://example.com/products" "Products";
     anchor "https://example.com/portfolio" "Portfolio";
     anchor "https://example.com/about" "About Us"]
  :: ten_pages.

(** [re.findall] for the runs: the word [nasdaq], once, when the pattern
    lists it and the text contains it. *)
Definition find_nasdaq (pattern text : str) : list str :=
  if contains pattern (s "nasdaq") && contains text (s "nasdaq")
  then [s "nasdaq"] else [].

(** The library over a site, closer to the real ones: [urljoin] raises on
    an href that [urlparse] refuses, [re.findall] finds the word [nasdaq],
    and the company name is what the source computes for a page without
    [og:site_name] and without title. *)
Definition strict_library (site : list Doc) (latency : Z) : Library World Doc :=
  let lib := library site latency in
  {| session_get := session_get lib;
     http_error_msg := http_error_msg lib;
     BeautifulSoup := BeautifulSoup lib;
     decompose_unwanted := decompose_unwanted lib;
     get_text := get_text lib;
     find_all_anchors := find_all_anchors lib;
     urljoin := fun _ href => rbind (urlparse href) (fun _ => Ok href);
     detect := detect lib;
     re_findall := find_nasdaq;
     extract_company_name := fun _ url =>
       CompanyName.extract_company_name None None url;
     time_time := time_time lib;
     time_sleep := time_sleep lib |}.

(** The two [soup.find] calls on a page without [og:site_name] and without
    title. *)
Definition no_name : SoupFind Doc :=
  {| find_og_content := fun _ => None; find_title_text := fun _ => None |}.

(** A homepage one of whose links has an unbalanced bracket in its host. *)
Definition site_bad_href : list Doc :=
  [ doc "https://example.com" 200 "Welcome"
      [anchor "https://example.com/about" "About Us";
       anchor "https://[example.com/team" "Our Team"];
    doc "https://example.com/about" 200 "About the company" [] ].

(** Two pages that mention a stock exchange. *)
Definition site_listed : list Doc :=
  [ doc "https://example.com" 200 "Listed on NASDAQ since 1999"
      [anchor "https://example.com/about" "About Us"];
    doc "https://example.com/about" 200 "About us: a NASDAQ company" [] ].

End Demo.

(** * Vocabulary of the statements *)

(** ** Strings and parses *)

Section StringVocabulary.

Implicit Types (x y p u w : str) (c d : ascii) (q : ascii -> bool).

Definition no_char q x : Prop := Forall (fun c => q c = false) x.

(** [p] occurs in [x] as a contiguous block. *)
Definition infix_of p x : Prop := ∃ a b, x = a ++ p ++ b.

(** Text before and after the first [c] (everything and nothing when there
    is no [c]). *)
Definition before c x : str := take (find_first (chr_eqb c) x) x.
Definition after c x : str := drop (S (find_first (chr_eqb c) x)) x.

(** The bracket test of [urlsplit]. *)
Definition bracket_bad (nl : str) : bool :=
  (has_char "[" nl && negb (has_char "]" nl))
  || (has_char "]" nl && negb (has_char "[" nl)).

Definition netloc_of w : str := take (find_first is_netloc_delim w) w.
Definition rest_of w : str := drop (find_first is_netloc_delim w) w.

Definition clean u : str := remove_unsafe (lstrip is_c0_or_space u).

(** [urlsplit] once the scheme is cut off. *)
Definition urlsplit_form (sch url2 : str) : result ParseResult :=
  let has_netloc := startswith url2 (s "//") in
  let nl := if has_netloc then netloc_of (drop 2 url2) else [] in
  let rest := if has_netloc then rest_of (drop 2 url2) else url2 in
  if has_netloc && bracket_bad nl then Raise invalid_ipv6
  else Ok {| scheme := sch; netloc := nl;
             path := before "?" (before "#" rest); params := [];
             query := after "?" (before "#" rest);
             fragment := after "#" rest |}.

(** [split_scheme] through [find_first]. *)
Definition scheme_ok x : bool :=
  has_char ":" x
  && (0 <? find_first (chr_eqb ":") x)%nat
  && match x with c :: _ => is_alpha c | [] => false end
  && forallb is_scheme_char (before ":" x).

(** A non-empty lower-case scheme starting with a letter. *)
Definition scheme_wf (sch : str) : Prop :=
  match sch with c :: _ => is_alpha c = true | [] => False end
  ∧ Forall (fun c => is_scheme_char c = true) sch
  ∧ lower sch = sch.

(** [] or a string that begins with a slash. *)
Definition rooted (pth : str) : Prop :=
  match pth with [] => True | c :: _ => c = "/"%char end.

(** Results under a function. *)
Definition rmap {A B} (g : A → B) (r : result A) : result B :=
  rbind r (fun a => Ok (g a)).

(** The string [normalize_url] builds from a parse. *)
Definition normal_form (r : ParseResult) : str :=
  scheme r ++ s "://" ++ netloc r ++ rstrip (chr_eqb "/") (path r).

(** The scheme, the netloc and the path of a parse. *)
Definition core (r : ParseResult) : str * str * str := (scheme r, netloc r, path r).

End StringVocabulary.

(** ** Scores *)

Section ScoreVocabulary.

Implicit Types (u x text ctx : str) (k : str).

(** The listed keywords that occur in [u], in list order. *)
Definition keywords_in u : list str :=
  filter (fun k => contains u k = true) priority_keywords.

(** The listed combinations both halves of which occur in [x]. *)
Definition combos_in x : list (str * str) :=
  filter (fun p => contains x p.1 && contains x p.2 = true) high_value_combos.

(** What the link-text loop and the context loop add. *)
Definition first_match_bonus (candidates : list str) (text : str) (bonus : Z) : Z :=
  if existsb (contains text) candidates then bonus else 0.

(** What the depth rule subtracts. *)
Definition depth_penalty u : Z :=
  let path_depth := count_char "/" u in
  if 3 <? path_depth then (path_depth - 3) * 2 else 0.

(** [combined] of [score_url_priority]. *)
Definition combined_text url text ctx : str :=
  lower url ++ s " " ++ strip (lower text) ++ s " " ++ strip (lower ctx).

(** Number of positions of [x] at which [p] starts. *)
Fixpoint occurrences (x p : str) : nat :=
  (if startswith x p then 1 else 0)
  + match x with [] => 0 | _ :: x' => occurrences x' p end.

(** No keyword, phrase, context keyword or combination matches. *)
Definition no_matches url text ctx : bool :=
  forallb (fun k => negb (contains (lower url) k)) priority_keywords
  && forallb (fun p => negb (contains (strip (lower text)) p)) priority_link_texts
  && forallb (fun k => negb (contains (strip (lower ctx)) k)) priority_keywords
  && forallb (fun p => negb (contains (combined_text url text ctx) p.1
                             && contains (combined_text url text ctx) p.2))
       high_value_combos.

End ScoreVocabulary.

(** ** Rankings *)

Section RankVocabulary.

Implicit Types (x y : Scored) (l : list Scored).

(** [priority_links] of [crawl_website] for the scored candidates [l]. *)
Definition priority_links (self_max_pages : Z) l : list Scored :=
  slice_to (self_max_pages - 1) (sort_scored l).

(** [x] may stand in front of [y] in a ranking. *)
Definition ranks_before x y : Prop := sc_score y <= sc_score x.

(** The entries whose score is [k], in order. *)
Definition with_score (k : Z) l : list Scored :=
  filter (fun c => sc_score c = k) l.

End RankVocabulary.

(** ** Frames of a crawl *)

Section CrawlVocabulary.

Context {W Soup : Type}.
Variable lib : Library W Soup.

Implicit Types (f : Frame W) (url : str) (page : Page Soup).

(** The frame after a request for [url] that left the world in [w]. *)
Definition after_request url (w : W) f : Frame W :=
  {| visited_urls := visited_urls f; world := w;
     fetched := fetched f ++ [url];
     clock_reads := clock_reads f;
     results := results f; all_signals := all_signals f |}.

(** The frame after a reading [t] of the clock that left the world in [w]. *)
Definition after_clock (t : Z) (w : W) f : Frame W :=
  {| visited_urls := visited_urls f; world := w;
     fetched := fetched f;
     clock_reads := clock_reads f ++ [t];
     results := results f; all_signals := all_signals f |}.

(** The frame after the bookkeeping of a successfully scraped candidate
    and the pause that follows. *)
Definition record_success (normalized url link_text : str) page f : Frame W :=
  {| visited_urls := {[normalized]} ∪ visited_urls f;
     world := time_sleep lib (world f);
     fetched := fetched f;
     clock_reads := clock_reads f;
     results :=
       set_page_count (page_count (results f) + 1)
         (append_text
            (nl ++ nl ++ s "=== " ++ page_title link_text ++ s " ===" ++ nl ++ nl
             ++ page_text page)
            (append_page
               {| rec_url := url; rec_title := page_title link_text;
                  rec_text_length := len (page_text page) |}
               (results f)));
     all_signals :=
       match page_signals page with
       | Some sg => merge_signals (all_signals f) sg
       | None => all_signals f
       end |}.

(** The frame after a failed candidate and the pause that follows. *)
Definition skip_failed f : Frame W := set_world (time_sleep lib (world f)) f.

(** A reading [now] of the clock at which the loop goes on: not more than
    [self_timeout] seconds after [start_time]. *)
Definition in_time (self_timeout start_time now : Z) : Prop :=
  now - start_time <= self_timeout * 1000.

(** What the loop over the kept candidates requests, candidate by
    candidate.  [loop_requests to st visited kept reads reqs recorded]:
    from the visited set [visited], with the readings [reads] of the
    clock, one for each candidate that is reached, the loop requests the
    URLs [reqs], in this order, and records a page for the URLs
    [recorded].  A candidate is reached when every reading before its own
    was in time; a late reading ends the loop.  A candidate reached in
    time is passed over when its normalized URL is in the visited set,
    and requested otherwise; the normalized URL of a requested candidate
    joins the visited set exactly when its page is recorded. *)
Inductive loop_requests (to st : Z)
    : gset str → list Scored → list Z → list str → list str → Prop :=
  | NoCandidateLeft visited :
      loop_requests to st visited [] [] [] []
  | ReachedLate visited c rest now :
      ¬ in_time to st now →
      loop_requests to st visited (c :: rest) [now] [] []
  | PassedOver visited c rest now k reads reqs recorded :
      in_time to st now →
      normalize_url (sc_url c) = Ok k →
      k ∈ visited →
      loop_requests to st visited rest reads reqs recorded →
      loop_requests to st visited (c :: rest) (now :: reads) reqs recorded
  | RequestedAndRecorded visited c rest now k reads reqs recorded :
      in_time to st now →
      normalize_url (sc_url c) = Ok k →
      k ∉ visited →
      loop_requests to st ({[k]} ∪ visited) rest reads reqs recorded →
      loop_requests to st visited (c :: rest) (now :: reads)
        (sc_url c :: reqs) (sc_url c :: recorded)
  | RequestedAndFailed visited c rest now k reads reqs recorded :
      in_time to st now →
      normalize_url (sc_url c) = Ok k →
      k ∉ visited →
      loop_requests to st visited rest reads reqs recorded →
      loop_requests to st visited (c :: rest) (now :: reads)
        (sc_url c :: reqs) recorded.

(** A reading of the clock past the deadline. *)
Definition late (self_timeout start_time now : Z) : Prop :=
  ¬ in_time self_timeout start_time now.

(** [ns] lists the normalized URLs of the page records, in order. *)
Definition pages_keys (r : Results) (ns : list str) : Prop :=
  Forall2 (fun rec n => normalize_url (rec_url rec) = Ok n) (pages_scraped r) ns.

(** The counter matches the record list, the records have pairwise
    different normalized URLs, and all of them are in the visited set. *)
Definition consistent f : Prop :=
  page_count (results f) = Z.of_nat (length (pages_scraped (results f))) ∧
  ∃ ns, pages_keys (results f) ns ∧ NoDup ns ∧ ∀ n, n ∈ ns → n ∈ visited_urls f.

(** [start_url] after the scheme has been supplied. *)
Definition with_scheme (start_url : str) : str :=
  if negb (startswith start_url (s "http")) then s "https://" ++ start_url
  else start_url.

(** The frame when the [try] block is entered. *)
Definition entry_frame (start : str) (t0 : Z) (w0 : W) f : Frame W :=
  set_all_signals ∅ (set_results (init_results start) (after_clock t0 w0 f)).

(** The frame once the homepage has been stored. *)
Definition home_stored (n name start : str) page f : Frame W :=
  {| visited_urls := {[n]} ∪ visited_urls f;
     world := world f;
     fetched := fetched f;
     clock_reads := clock_reads f;
     results :=
       set_page_count 1
         (append_text (page_text page ++ nl ++ nl)
            (append_page
               {| rec_url := start; rec_title := s "Homepage";
                  rec_text_length := len (page_text page) |}
               (set_company_name name (results f))));
     all_signals :=
       match page_signals page with
       | Some sg => merge_signals (all_signals f) sg
       | None => all_signals f
       end |}.

(** [results['error'] = msg] *)
Definition with_error (msg : str) f : Frame W :=
  set_results (set_error msg (results f)) f.

(** [results['enterprise_signals'] = all_signals] *)
Definition finalize f : Frame W :=
  set_results (set_enterprise_signals (all_signals f) (results f)) f.

Definition home_failed_msg page : str :=
  s "Failed to scrape: " ++
  match page_error page with Some e => e | None => s "None" end.

(** The ways a crawl that got past the parse of the seed can go. *)
Inductive crawl_outcome (mp to t0 : Z) (start base : str) (f1 : Frame W)
    : Page Soup → Frame W → Prop :=
  | HomeFailed page w1 :
      page_success page = false →
      crawl_outcome mp to t0 start base f1 page
        (with_error (home_failed_msg page) (after_request start w1 f1))
  | StoreRaised page w1 e f2 :
      page_success page = true →
      store_homepage lib start page (after_request start w1 f1) = (Raise e, f2) →
      crawl_outcome mp to t0 start base f1 page (finalize (with_error (exn_str e) f2))
  | RankRaised page w1 n name e :
      page_success page = true →
      normalize_url start = Ok n →
      score_links ({[n]} ∪ visited_urls f1) base (page_links page) [] = Raise e →
      crawl_outcome mp to t0 start base f1 page
        (finalize (with_error (exn_str e)
           (home_stored n name start page (after_request start w1 f1))))
  | LoopDone page w1 n name cands r f3 :
      page_success page = true →
      normalize_url start = Ok n →
      score_links ({[n]} ∪ visited_urls f1) base (page_links page) [] = Ok cands →
      crawl_pages lib to t0 (slice_to (mp - 1) (sort_scored cands))
        (home_stored n name start page (after_request start w1 f1)) = (r, f3) →
      crawl_outcome mp to t0 start base f1 page
        (finalize match r with Ok _ => f3 | Raise e => with_error (exn_str e) f3 end).

(** The homepage request fails in transport, or is answered with a client
    or server error status, or its text is rejected by the language
    filter. *)
Definition homepage_rejected url f : Prop :=
  (∃ e w, session_get lib url (world f) = (Raise e, w))
  ∨ (∃ response w,
       session_get lib url (world f) = (Ok response, w) ∧
       400 <= status_code response < 600)
  ∨ (∃ response w soup f2,
       session_get lib url (world f) = (Ok response, w) ∧
       raise_for_status lib response = Ok tt ∧
       BeautifulSoup lib (content response) = Ok soup ∧
       is_english lib (extract_text_from_html lib soup).1
         (set_world w (log_request url f)) = (Ok false, f2)).

End CrawlVocabulary.

(** ** Texts, pages and results *)

Section PageVocabulary.

Context {W Soup : Type}.
Variable lib : Library W Soup.

Implicit Types (f g : Frame W) (url : str) (page : Page Soup).

(** A character that is not white space. *)
Definition not_space (c : ascii) : Prop := is_space c = false.

(** The anchor has a non-empty [href]. *)
Definition has_href (a : Anchor) : Prop := anchor_href a ≠ [].

(** [l] is the entry of [links_data] made from the anchor [a] of the page
    at [url]. *)
Definition link_of url (a : Anchor) (l : Link) : Prop :=
  urljoin lib url (anchor_href a) = Ok (link_url l) ∧
  link_text l = anchor_text a ∧
  link_context l = match anchor_parent_text a with
                   | Some t => slice_to 100 t
                   | None => []
                   end.

(** The dict [scrape_page] returns on success, the parsed document and the
    links given. *)
Definition scraped url (soup : Soup) (links : list Link) : Page Soup :=
  let text := (extract_text_from_html lib soup).1 in
  {| page_url := url; page_text := text; page_links := links;
     page_soup := Some (extract_text_from_html lib soup).2;
     page_success := true; page_error := None;
     page_signals := Some (detect_enterprise_signals lib text) |}.

(** [g] has the visited set, the results and the signals of [f]. *)
Definition same_data f g : Prop :=
  visited_urls g = visited_urls f ∧ results g = results f
  ∧ all_signals g = all_signals f.

(** The paths through the [try] block of [crawl_website], from the frame
    [f2] reached by the homepage request to the frame at the final
    [return]; [n] is the normalized start URL. *)
Inductive crawl_path (mp to t0 : Z) (start base n : str) (f2 : Frame W)
    : Page Soup → Frame W → Prop :=
  | HomepageFailed err :
      crawl_path mp to t0 start base n f2 (failed_page start err)
        (with_error (s "Failed to scrape: " ++ err) f2)
  | NameRaised soup ls e :
      extract_company_name lib (extract_text_from_html lib soup).2 start = Raise e →
      crawl_path mp to t0 start base n f2 (scraped start soup ls)
        (finalize (with_error (exn_str e) f2))
  | LinkRaised soup ls name e :
      extract_company_name lib (extract_text_from_html lib soup).2 start = Ok name →
      score_links ({[n]} ∪ visited_urls f2) base ls [] = Raise e →
      crawl_path mp to t0 start base n f2 (scraped start soup ls)
        (finalize (with_error (exn_str e)
           (home_stored n name start (scraped start soup ls) f2)))
  | Crawled soup ls name cands f3 :
      extract_company_name lib (extract_text_from_html lib soup).2 start = Ok name →
      score_links ({[n]} ∪ visited_urls f2) base ls [] = Ok cands →
      crawl_pages lib to t0 (priority_links mp cands)
        (home_stored n name start (scraped start soup ls) f2) = (Ok tt, f3) →
      crawl_path mp to t0 start base n f2 (scraped start soup ls) (finalize f3).

(** [f] with [results['error']] set when there is a message. *)
Definition with_error_opt (err : option str) f : Frame W :=
  match err with
  | Some msg => with_error msg f
  | None => f
  end.

(** What [crawl_website] appends to [total_text] for a page after the
    homepage. *)
Definition page_block (title text : str) : str :=
  nl ++ nl ++ s "=== " ++ title ++ s " ===" ++ nl ++ nl ++ text.

(** The corpus made of the titles and texts of the pages, homepage
    first. *)
Definition corpus (pages : list (str * str)) : str :=
  match pages with
  | [] => []
  | (_, homepage_text) :: rest =>
      homepage_text ++ nl ++ nl ++ concat ((fun p => page_block p.1 p.2) <$> rest)
  end.

(** The record of the homepage. *)
Definition home_record (start : str) (text_length : Z) : PageRecord :=
  {| rec_url := start; rec_title := s "Homepage"; rec_text_length := text_length |}.

(** The record [rec] is about a page with the text [text]. *)
Definition record_of_text (rec : PageRecord) (text : str) : Prop :=
  rec_text_length rec = len text.

(** A record with a title of 1 to 50 characters and a text length that is
    not negative. *)
Definition record_wf (rec : PageRecord) : Prop :=
  0 < len (rec_title rec) <= 50 ∧ 0 <= rec_text_length rec.

(** The matches stored under a signal name are not empty, and each of them
    is a match of the pattern of that name in some lower-cased text. *)
Definition signals_wf (sg : Signals) : Prop :=
  ∀ name ms, sg !! name = Some ms →
    ms ≠ [] ∧
    ∃ pattern, (name, pattern) ∈ enterprise_patterns ∧
               Forall (fun m => ∃ text, m ∈ re_findall lib pattern (lower text)) ms.

(** A late reading of the clock is the last one. *)
Definition stops_when_late (self_timeout start_time : Z) (reads : list Z) : Prop :=
  ∀ early late rest,
    reads = early ++ late :: rest → ¬ in_time self_timeout start_time late → rest = [].

(** The library's [extract_company_name] is the function of the source,
    over the two [soup.find] calls [q]. *)
Definition names_by_source (q : SoupFind Soup) : Prop :=
  ∀ soup url,
    extract_company_name lib soup url
    = CompanyName.extract_company_name (find_og_content q soup)
        (find_title_text q soup) url.

End PageVocabulary.

#[global] Instance in_time_dec (self_timeout start_time now : Z)
    : Decision (in_time self_timeout start_time now) :=
  Z_le_dec (now - start_time) (self_timeout * 1000).

(** * Verification *)

(** ** Facts about the string primitives *)

Section StringFacts.

Implicit Types (x y p : str) (c d : ascii) (q : ascii -> bool).

Lemma chr_eqb_eq c d : chr_eqb c d = true ↔ c = d.
Proof. apply Ascii.eqb_eq. Qed.

Lemma chr_eqb_refl c : chr_eqb c c = true.
Proof. apply Ascii.eqb_refl. Qed.

Lemma chr_eqb_sym c d : chr_eqb c d = chr_eqb d c.
Proof. apply Ascii.eqb_sym. Qed.

Lemma startswith_prefix x p : startswith x p = true ↔ p `prefix_of` x.
Proof.
  revert x. induction p as [|c p IH]; intros x; simpl.
  - split; [intros _; apply prefix_nil | done].
  - destruct x as [|d x].
    + split; [done | intros [k Hk]; discriminate].
    + rewrite andb_true_iff, chr_eqb_eq, IH. split.
      * intros [-> Hp]. by apply prefix_cons.
      * intros [k Hk]. simplify_eq/=. split; [done | by exists k].
Qed.

Lemma contains_infix x p : contains x p = true ↔ infix_of p x.
Proof.
  induction x as [|d x IH]; simpl.
  - rewrite orb_false_r, startswith_prefix. split.
    + intros [k ->]. by exists [], k.
    + intros (a & b & H). symmetry in H.
      apply app_eq_nil in H as [-> H]. apply app_eq_nil in H as [-> ->].
      apply prefix_nil.
  - rewrite orb_true_iff, startswith_prefix, IH. split.
    + intros [[k Hk] | (a & b & ->)].
      * exists [], k. by rewrite Hk.
      * by exists (d :: a), b.
    + intros (a & b & H). destruct a as [|d' a]; simpl in H.
      * left. exists b. by rewrite H.
      * right. simplify_eq. by exists a, b.
Qed.

Lemma endswith_suffix x p : endswith x p = true ↔ p `suffix_of` x.
Proof.
  unfold endswith. rewrite startswith_prefix. split.
  - intros [k Hk]. exists (rev k).
    rewrite <- (rev_involutive x), Hk, rev_app_distr. by rewrite rev_involutive.
  - intros [k ->]. exists (rev k). by rewrite rev_app_distr.
Qed.

Lemma forallb_true_Forall q x : forallb q x = true ↔ Forall (fun c => q c = true) x.
Proof.
  induction x as [|c x IH]; simpl.
  - split; [constructor | done].
  - rewrite andb_true_iff, IH, Forall_cons. tauto.
Qed.

Lemma has_char_false c x : has_char c x = false ↔ no_char (chr_eqb c) x.
Proof.
  unfold has_char, no_char. induction x as [|d x IH]; simpl.
  - split; [constructor | done].
  - rewrite orb_false_iff, IH, Forall_cons. tauto.
Qed.

Lemma has_char_true c x : has_char c x = true ↔ c ∈ x.
Proof.
  unfold has_char. induction x as [|d x IH]; simpl.
  - split; [done | intros H; inversion H].
  - rewrite orb_true_iff, IH, chr_eqb_eq, elem_of_cons. tauto.
Qed.

Lemma has_char_cons c d x : has_char c (d :: x) = chr_eqb c d || has_char c x.
Proof. done. Qed.

Lemma has_char_app c x y : has_char c (x ++ y) = has_char c x || has_char c y.
Proof. unfold has_char. apply existsb_app. Qed.

Lemma no_char_app q x y : no_char q (x ++ y) ↔ no_char q x ∧ no_char q y.
Proof. apply Forall_app. Qed.

Lemma no_char_take q n x : no_char q x → no_char q (take n x).
Proof. apply Forall_take. Qed.

Lemma no_char_drop q n x : no_char q x → no_char q (drop n x).
Proof. apply Forall_drop. Qed.

(** *** [find_first] *)

Lemma find_first_le q x : (find_first q x <= length x)%nat.
Proof. induction x as [|c x IH]; simpl; [lia | destruct (q c); simpl; lia]. Qed.

Lemma find_first_take q x : no_char q (take (find_first q x) x).
Proof.
  induction x as [|c x IH]; simpl; [constructor |].
  destruct (q c) eqn:E; simpl; [constructor | by constructor].
Qed.

Lemma find_first_drop q x :
  drop (find_first q x) x = [] ∨
  ∃ c r, drop (find_first q x) x = c :: r ∧ q c = true.
Proof.
  induction x as [|c x IH]; simpl; [by left |].
  destruct (q c) eqn:E; simpl; [right; eauto | done].
Qed.

Lemma find_first_app q a b :
  no_char q a → find_first q (a ++ b) = (length a + find_first q b)%nat.
Proof.
  induction 1 as [|c a Hc _ IH]; simpl; [done |]. by rewrite Hc, IH.
Qed.

Lemma find_first_stop q c b : q c = true → find_first q (c :: b) = O.
Proof. intros H. simpl. by rewrite H. Qed.

Lemma find_first_all q a : no_char q a → find_first q a = length a.
Proof.
  intros H. rewrite <- (app_nil_r a) at 1. rewrite find_first_app by done.
  simpl. lia.
Qed.

(** *** [find_char] through [find_first] *)

Lemma find_char_find_first c x :
  find_char c x =
  if has_char c x then Some (find_first (chr_eqb c) x) else None.
Proof.
  induction x as [|d x IH]; simpl; [done |].
  destruct (chr_eqb c d) eqn:E; simpl; [done |].
  rewrite IH. by destruct (has_char c x).
Qed.

Lemma find_char_None c x : find_char c x = None ↔ has_char c x = false.
Proof. rewrite find_char_find_first. by destruct (has_char c x). Qed.

End StringFacts.

(** ** Facts about [urlparse] *)

Section UrlFacts.

Implicit Types (x y u w : str) (c d : ascii) (q : ascii -> bool).

(** Character classes, checked on all 256 characters. *)
Lemma scheme_char_lower c :
  is_scheme_char c = true →
  is_scheme_char (lower_char c) = true ∧
  chr_eqb ":" (lower_char c) = false ∧
  chr_eqb ":" c = false ∧
  is_unsafe_byte (lower_char c) = false ∧
  is_c0_or_space (lower_char c) = false.
Proof. destruct c as [[] [] [] [] [] [] [] []]; vm_compute; intuition congruence. Qed.

Lemma lower_char_idem c : lower_char (lower_char c) = lower_char c.
Proof. by destruct c as [[] [] [] [] [] [] [] []]. Qed.

Lemma is_alpha_lower c : is_alpha c = true → is_alpha (lower_char c) = true.
Proof. destruct c as [[] [] [] [] [] [] [] []]; vm_compute; congruence. Qed.

Lemma lower_idem x : lower (lower x) = lower x.
Proof.
  unfold lower. rewrite <- list_fmap_compose. apply list_fmap_ext.
  intros ? c _. simpl. apply lower_char_idem.
Qed.

Lemma split_once_before_after c x :
  match split_once c x with Some (a, b) => (a, b) | None => (x, []) end
  = (before c x, after c x).
Proof.
  unfold split_once, before, after. rewrite find_char_find_first.
  destruct (has_char c x) eqn:E; [done |].
  apply has_char_false in E. rewrite find_first_all by done.
  rewrite firstn_all. f_equal. rewrite drop_ge; [done | lia].
Qed.

Lemma before_prefix c x : before c x `prefix_of` x.
Proof. apply prefix_take. Qed.

Lemma before_no_char c x : has_char c (before c x) = false.
Proof. apply has_char_false, find_first_take. Qed.

Lemma find_first_app_stop q w c b :
  q c = true → find_first q (w ++ c :: b) = find_first q w.
Proof.
  intros Hc. induction w as [|d w IH]; simpl.
  - by rewrite Hc.
  - destruct (q d); [done | by rewrite IH].
Qed.

Lemma before_app_stop c x b : before c (x ++ c :: b) = before c x.
Proof.
  unfold before. rewrite find_first_app_stop by apply chr_eqb_refl.
  apply take_app_le, find_first_le.
Qed.

Lemma before_id c x : has_char c x = false → before c x = x.
Proof.
  intros H. unfold before. apply has_char_false in H.
  rewrite find_first_all by done. apply firstn_all.
Qed.

Lemma before_app_has c x y : has_char c x = true → before c (x ++ y) = before c x.
Proof.
  intros H. apply has_char_true, list_elem_of_split in H as (a & b & ->).
  by rewrite <- app_assoc, <- app_comm_cons, !before_app_stop.
Qed.

Lemma before_app_hasnt c x y :
  has_char c x = false → has_char c y = false → before c (x ++ y) = x ++ y.
Proof. intros Hx Hy. apply before_id. by rewrite has_char_app, Hx, Hy. Qed.

Lemma splitnetloc_eq url : splitnetloc url = (netloc_of (drop 2 url), rest_of (drop 2 url)).
Proof.
  unfold splitnetloc, netloc_of, rest_of. f_equal.
  - symmetry. apply take_drop_commute.
  - by rewrite drop_drop.
Qed.

Lemma urlsplit_eq u :
  urlsplit u = urlsplit_form (split_scheme (clean u)).1 (split_scheme (clean u)).2.
Proof.
  unfold urlsplit, urlsplit_form. fold (clean u).
  destruct (split_scheme (clean u)) as [sch url2]. simpl fst. simpl snd.
  destruct (startswith url2 (s "//")) eqn:E.
  - rewrite splitnetloc_eq. fold (bracket_bad (netloc_of (drop 2 url2))).
    destruct (bracket_bad _); simpl; [done |].
    rewrite (split_once_before_after "#"), (split_once_before_after "?"). done.
  - simpl. rewrite (split_once_before_after "#"), (split_once_before_after "?"). done.
Qed.

Lemma split_scheme_eq x :
  split_scheme x =
  if scheme_ok x then (lower (before ":" x), after ":" x) else ([], x).
Proof.
  unfold split_scheme, scheme_ok, before, after. rewrite find_char_find_first.
  destruct (has_char ":" x); [|done]. simpl.
  by destruct (_ && _ && _).
Qed.

(** *** Cleaning *)

Lemma remove_unsafe_no x : no_char is_unsafe_byte (remove_unsafe x).
Proof.
  unfold remove_unsafe, no_char. induction x as [|c x IH]; [constructor |].
  rewrite filter_cons. destruct (decide _); [by constructor | done].
Qed.

Lemma remove_unsafe_id x : no_char is_unsafe_byte x → remove_unsafe x = x.
Proof.
  unfold remove_unsafe. induction 1 as [|c x Hc _ IH]; [done |].
  by rewrite filter_cons_True, IH.
Qed.

Lemma remove_unsafe_app x y : remove_unsafe (x ++ y) = remove_unsafe x ++ remove_unsafe y.
Proof. apply filter_app. Qed.

Lemma clean_no_unsafe u : no_char is_unsafe_byte (clean u).
Proof. apply remove_unsafe_no. Qed.

Lemma no_char_prefix q x y : x `prefix_of` y → no_char q y → no_char q x.
Proof. intros [k ->] H. by apply no_char_app in H as [H _]. Qed.

Lemma has_char_prefix c x y : x `prefix_of` y → has_char c y = false → has_char c x = false.
Proof. rewrite !has_char_false. apply no_char_prefix. Qed.

(** *** [rstrip] *)

Lemma lstrip_suffix q x : lstrip q x `suffix_of` x.
Proof.
  induction x as [|c x IH]; simpl; [done |].
  destruct (q c); [by apply suffix_cons_r | done].
Qed.

Lemma lstrip_idem q x : lstrip q (lstrip q x) = lstrip q x.
Proof.
  induction x as [|c x IH]; simpl; [done |].
  destruct (q c) eqn:E; [done |]. simpl. by rewrite E.
Qed.

Lemma rstrip_prefix q x : rstrip q x `prefix_of` x.
Proof.
  unfold rstrip. destruct (lstrip_suffix q (rev x)) as [k Hk].
  exists (rev k). rewrite <- (rev_involutive x) at 1.
  rewrite Hk at 1. by rewrite rev_app_distr.
Qed.

Lemma rstrip_idem q x : rstrip q (rstrip q x) = rstrip q x.
Proof. unfold rstrip. by rewrite rev_involutive, lstrip_idem. Qed.

Lemma rstrip_snoc q x c : q c = true → rstrip q (x ++ [c]) = rstrip q x.
Proof. intros H. unfold rstrip. rewrite rev_unit. simpl. by rewrite H. Qed.

(** *** The parse of a string in normal form *)

Lemma scheme_char_facts c :
  is_scheme_char c = true →
  chr_eqb ":" c = false ∧ is_unsafe_byte c = false ∧ is_c0_or_space c = false.
Proof. destruct c as [[] [] [] [] [] [] [] []]; vm_compute; intuition congruence. Qed.

Lemma rooted_prefix x y : x `prefix_of` y → rooted y → rooted x.
Proof. intros [k ->]. by destruct x. Qed.

Lemma after_all c x : has_char c x = false → after c x = [].
Proof.
  intros H. unfold after. apply has_char_false in H.
  rewrite find_first_all by done. apply drop_ge. lia.
Qed.

Lemma urlsplit_normal sch nl pth :
  scheme_wf sch →
  no_char is_unsafe_byte (nl ++ pth) →
  no_char is_netloc_delim nl →
  bracket_bad nl = false →
  rooted pth →
  has_char "#" pth = false →
  has_char "?" pth = false →
  urlsplit (sch ++ s "://" ++ nl ++ pth)
  = Ok {| scheme := sch; netloc := nl; path := pth; params := [];
          query := []; fragment := [] |}.
Proof.
  intros (Hhd & Hsch & Hlow) Hsafe Hnl Hbr Hroot Hfrag Hqry.
  assert (Hcolon : has_char ":" sch = false).
  { apply has_char_false. eapply Forall_impl; [exact Hsch |].
    intros c Hc. by apply scheme_char_facts in Hc as (? & _). }
  assert (Hclean : clean (sch ++ s "://" ++ nl ++ pth) = sch ++ s "://" ++ nl ++ pth).
  { unfold clean. destruct sch as [|c sch]; [done |].
    apply Forall_cons in Hsch as [Hc Hsch].
    pose proof (scheme_char_facts _ Hc) as (_ & _ & Hc0).
    simpl lstrip. rewrite Hc0. apply remove_unsafe_id.
    change (no_char is_unsafe_byte ((c :: sch) ++ s "://" ++ nl ++ pth)).
    rewrite !no_char_app. split_and!.
    - apply Forall_cons. split; [by apply scheme_char_facts in Hc as (_ & ? & _) |].
      eapply Forall_impl; [exact Hsch |].
      intros d Hd. by apply scheme_char_facts in Hd as (_ & ? & _).
    - by repeat constructor.
    - by apply no_char_app in Hsafe as [? _].
    - by apply no_char_app in Hsafe as [_ ?]. }
  rewrite urlsplit_eq, Hclean, split_scheme_eq.
  assert (Hbefore : before ":" (sch ++ s "://" ++ nl ++ pth) = sch).
  { change (sch ++ s "://" ++ nl ++ pth) with (sch ++ ":"%char :: s "//" ++ nl ++ pth).
    rewrite before_app_stop. by apply before_id. }
  assert (Hafter : after ":" (sch ++ s "://" ++ nl ++ pth) = s "//" ++ nl ++ pth).
  { unfold after. apply has_char_false in Hcolon.
    change (sch ++ s "://" ++ nl ++ pth) with (sch ++ ":"%char :: s "//" ++ nl ++ pth).
    rewrite find_first_app by done. rewrite find_first_stop by done.
    rewrite Nat.add_0_r, (cons_middle ":"%char sch), app_assoc.
    replace (S (length sch)) with (length (sch ++ [":"%char]))
      by (rewrite length_app; simpl; lia).
    apply drop_app_length. }
  assert (Hok : scheme_ok (sch ++ s "://" ++ nl ++ pth) = true).
  { unfold scheme_ok. rewrite Hbefore. repeat (apply andb_true_iff; split).
    - rewrite has_char_app. simpl. by rewrite orb_true_r.
    - apply has_char_false in Hcolon. rewrite find_first_app by done.
      destruct sch; [done |]. simpl. apply Nat.ltb_lt. lia.
    - by destruct sch.
    - by apply forallb_true_Forall. }
  rewrite Hok, Hbefore, Hafter, Hlow. simpl fst. simpl snd.
  unfold urlsplit_form.
  change (startswith ("/"%char :: "/"%char :: nl ++ pth) (s "//")) with true.
  change (drop 2 ("/"%char :: "/"%char :: nl ++ pth)) with (nl ++ pth).
  cbv iota.
  assert (Hn : find_first is_netloc_delim (nl ++ pth) = length nl).
  { rewrite find_first_app by done. destruct pth as [|c pth]; simpl; [lia |].
    simpl in Hroot. subst c. simpl. lia. }
  unfold netloc_of, rest_of. rewrite Hn, take_app_length, drop_app_length, Hbr.
  simpl andb. cbv iota.
  rewrite (before_id "#") by done. rewrite (before_id "?") by done.
  by rewrite !after_all.
Qed.

(** *** What a successful parse guarantees *)

Lemma before_rooted c x :
  c ≠ "/"%char →
  (x = [] ∨ ∃ d r, x = d :: r ∧ is_netloc_delim d = true) →
  has_char "#" (before "?" (before "#" x)) = false →
  has_char "?" (before "?" (before "#" x)) = false →
  rooted (before "?" (before "#" x)).
Proof.
  intros _ [-> | (d & r & -> & Hd)] H1 H2; [done |].
  pose proof (before_prefix "#" (d :: r)) as P1.
  pose proof (before_prefix "?" (before "#" (d :: r))) as P2.
  destruct (before "?" (before "#" (d :: r))) as [|e z] eqn:E; [done |].
  assert (e = d) as ->.
  { destruct P2 as [k2 Hk2]. rewrite Hk2 in P1. destruct P1 as [k1 Hk1].
    simpl in Hk1. congruence. }
  rewrite has_char_cons in H1, H2.
  apply orb_false_iff in H1 as [H1 _], H2 as [H2 _].
  unfold is_netloc_delim in Hd.
  rewrite (chr_eqb_sym d "#"), (chr_eqb_sym d "?"), H1, H2, !orb_false_r in Hd.
  by apply chr_eqb_eq in Hd.
Qed.

Lemma urlsplit_form_facts sch url2 r :
  no_char is_unsafe_byte url2 →
  urlsplit_form sch url2 = Ok r →
  scheme r = sch ∧
  no_char is_unsafe_byte (netloc r ++ path r) ∧
  no_char is_netloc_delim (netloc r) ∧
  bracket_bad (netloc r) = false ∧
  (netloc r ≠ [] → rooted (path r)) ∧
  has_char "#" (path r) = false ∧
  has_char "?" (path r) = false.
Proof.
  intros Hsafe. unfold urlsplit_form.
  destruct (startswith url2 (s "//")) eqn:E; simpl andb.
  - destruct (bracket_bad (netloc_of (drop 2 url2))) eqn:Hbr; [done |].
    intros [= <-]. simpl.
    assert (Hp : has_char "?" (before "?" (before "#" (rest_of (drop 2 url2)))) = false)
      by apply before_no_char.
    assert (Hf : has_char "#" (before "?" (before "#" (rest_of (drop 2 url2)))) = false).
    { eapply has_char_prefix; [apply before_prefix | apply before_no_char]. }
    split_and!; try done.
    + apply no_char_app. split.
      * by apply no_char_take, no_char_drop.
      * eapply no_char_prefix; [apply before_prefix |].
        eapply no_char_prefix; [apply before_prefix |].
        by apply no_char_drop, no_char_drop.
    + apply find_first_take.
    + intros _. apply (before_rooted "?"); [done | | done | done].
      apply find_first_drop.
  - intros [= <-]. simpl. split_and!; try done.
    + eapply no_char_prefix; [apply before_prefix |].
      eapply no_char_prefix; [apply before_prefix | done].
    + constructor.
    + eapply has_char_prefix; [apply before_prefix | apply before_no_char].
    + apply before_no_char.
Qed.

Lemma split_scheme_facts x :
  no_char is_unsafe_byte x →
  ((split_scheme x).1 ≠ [] → scheme_wf (split_scheme x).1) ∧
  no_char is_unsafe_byte (split_scheme x).2.
Proof.
  intros Hsafe. rewrite split_scheme_eq.
  destruct (scheme_ok x) eqn:E; simpl; [|done]. split.
  - intros _. unfold scheme_ok in E.
    apply andb_true_iff in E as [E Hall]. apply andb_true_iff in E as [E Hhd].
    apply andb_true_iff in E as [_ Hpos]. apply Nat.ltb_lt in Hpos.
    apply forallb_true_Forall in Hall.
    split_and!.
    + unfold before in *. destruct x as [|c x]; [done |].
      destruct (find_first (chr_eqb ":") (c :: x)); [lia |]. simpl.
      by apply is_alpha_lower.
    + unfold lower. apply Forall_fmap. eapply Forall_impl; [exact Hall |].
      intros c Hc. simpl. by apply scheme_char_lower in Hc as (? & _).
    + apply lower_idem.
  - by apply no_char_drop.
Qed.

Lemma urlsplit_facts u r :
  urlsplit u = Ok r →
  (scheme r ≠ [] → scheme_wf (scheme r)) ∧
  no_char is_unsafe_byte (netloc r ++ path r) ∧
  no_char is_netloc_delim (netloc r) ∧
  bracket_bad (netloc r) = false ∧
  (netloc r ≠ [] → rooted (path r)) ∧
  has_char "#" (path r) = false ∧
  has_char "?" (path r) = false.
Proof.
  rewrite urlsplit_eq. intros H.
  destruct (split_scheme_facts (clean u) (clean_no_unsafe u)) as [Hs Hr].
  apply urlsplit_form_facts in H as (Hsch & H); [|done].
  rewrite Hsch. by split.
Qed.

(** [urlparse] keeps the scheme and the netloc of [urlsplit] and cuts the
    path at most shorter. *)
Lemma splitparams_prefix x : (splitparams x).1 `prefix_of` x.
Proof.
  unfold splitparams.
  destruct (has_char "/" x).
  - destruct (rfind_char "/" x) as [j|]; [|done].
    destruct (find_char ";" (drop j x)); [apply prefix_take | done].
  - destruct (find_char ";" x); [apply prefix_take |].
    unfold slice_to. simpl. apply prefix_take.
Qed.

Lemma urlparse_inv u p :
  urlparse u = Ok p →
  ∃ r, urlsplit u = Ok r ∧ scheme p = scheme r ∧ netloc p = netloc r ∧
       path p `prefix_of` path r.
Proof.
  unfold urlparse. destruct (urlsplit u) as [r|e]; simpl; [|done].
  destruct (_ && _).
  - pose proof (splitparams_prefix (path r)) as Hp.
    destruct (splitparams (path r)) as [p' prm]. intros [= <-]. simpl. eauto.
  - intros [= <-]. eauto.
Qed.

Lemma urlparse_no_params r u :
  urlsplit u = Ok r → has_char ";" (path r) = false → urlparse u = Ok r.
Proof.
  intros H Hp. unfold urlparse. rewrite H. simpl. by rewrite Hp, andb_false_r.
Qed.

(** *** [normalize_url] on its own output *)

Lemma normalize_url_eq u : normalize_url u = rmap normal_form (urlparse u).
Proof. done. Qed.

Lemma normalize_url_absolute u p :
  urlparse u = Ok p →
  scheme p ≠ [] → netloc p ≠ [] → has_char ";" (path p) = false →
  normalize_url u = Ok (normal_form p) ∧
  normalize_url (normal_form p) = Ok (normal_form p).
Proof.
  intros Hp Hsch Hnl Hprm. split.
  { by rewrite normalize_url_eq, Hp. }
  destruct (urlparse_inv _ _ Hp) as (r & Hr & Es & En & Epre).
  destruct (urlsplit_facts _ _ Hr) as (Hwf & Hsafe & Hdelim & Hbr & Hroot & Hf & Hq).
  rewrite <- Es, <- En in *.
  pose proof (rstrip_prefix (chr_eqb "/") (path p)) as Hstrip.
  assert (Hpre : rstrip (chr_eqb "/") (path p) `prefix_of` path r) by (by etrans).
  assert (Hsplit : urlsplit (normal_form p)
    = Ok {| scheme := scheme p; netloc := netloc p;
            path := rstrip (chr_eqb "/") (path p); params := [];
            query := []; fragment := [] |}).
  { apply urlsplit_normal; try done.
    - by apply Hwf.
    - apply no_char_app in Hsafe as [H1 H2]. apply no_char_app. split; [done |].
      by eapply no_char_prefix.
    - eapply rooted_prefix; [exact Hpre | by apply Hroot].
    - by eapply has_char_prefix.
    - by eapply has_char_prefix. }
  rewrite normalize_url_eq, (urlparse_no_params _ _ Hsplit).
  - unfold rmap, normal_form. simpl. by rewrite rstrip_idem.
  - simpl. eapply has_char_prefix; [exact Hstrip | exact Hprm].
Qed.

(** *** Appending a slash or a fragment *)

Lemma lstrip_app_keep q x c t :
  q c = false → lstrip q (x ++ c :: t) = lstrip q x ++ c :: t.
Proof.
  intros Hc. induction x as [|d x IH]; simpl.
  - by rewrite Hc.
  - by destruct (q d).
Qed.

Lemma clean_app u c t :
  is_c0_or_space c = false → is_unsafe_byte c = false →
  clean (u ++ c :: t) = clean u ++ c :: remove_unsafe t.
Proof.
  intros H0 H1. unfold clean. rewrite lstrip_app_keep by done.
  rewrite remove_unsafe_app. f_equal. unfold remove_unsafe.
  by rewrite filter_cons_True.
Qed.

Lemma find_first_app_found q x y :
  (find_first q x < length x)%nat → find_first q (x ++ y) = find_first q x.
Proof.
  induction x as [|c x IH]; simpl; [lia |].
  destruct (q c); [done |]. intros H. rewrite IH; [done | lia].
Qed.

Lemma has_char_find_first c x :
  has_char c x = true → (find_first (chr_eqb c) x < length x)%nat.
Proof.
  induction x as [|d x IH]; [done |]. rewrite has_char_cons. simpl.
  destruct (chr_eqb c d); simpl; [lia |]. intros H. apply IH in H. lia.
Qed.

Lemma after_app_has c x y : has_char c x = true → after c (x ++ y) = after c x ++ y.
Proof.
  intros H. apply has_char_find_first in H. unfold after.
  rewrite find_first_app_found by done. apply drop_app_le. lia.
Qed.

Lemma split_scheme_app x c t :
  is_scheme_char c = false → chr_eqb ":" c = false →
  split_scheme (x ++ c :: t) = ((split_scheme x).1, (split_scheme x).2 ++ c :: t).
Proof.
  intros Hc Hcolon. rewrite !split_scheme_eq.
  destruct (has_char ":" x) eqn:Hx.
  - assert (scheme_ok (x ++ c :: t) = scheme_ok x) as ->.
    { unfold scheme_ok. rewrite has_char_app, Hx, before_app_has by done.
      rewrite find_first_app_found by by apply has_char_find_first.
      by destruct x. }
    destruct (scheme_ok x); simpl; [|done].
    by rewrite before_app_has, after_app_has.
  - assert (scheme_ok x = false) as -> by (unfold scheme_ok; by rewrite Hx).
    assert (scheme_ok (x ++ c :: t) = false) as ->; [|done].
    unfold scheme_ok. apply andb_false_iff. right.
    apply has_char_false in Hx. unfold before.
    rewrite find_first_app by done. rewrite take_app_add.
    rewrite forallb_app. apply andb_false_iff. right.
    change (find_first (chr_eqb ":") (c :: t))
      with (if chr_eqb ":" c then O else S (find_first (chr_eqb ":") t)).
    rewrite Hcolon. simpl. by rewrite Hc.
Qed.

Lemma netloc_of_app_stop w c t :
  is_netloc_delim c = true → netloc_of (w ++ c :: t) = netloc_of w.
Proof.
  intros Hc. unfold netloc_of. rewrite find_first_app_stop by done.
  apply take_app_le, find_first_le.
Qed.

Lemma rest_of_app_stop w c t :
  is_netloc_delim c = true → rest_of (w ++ c :: t) = rest_of w ++ c :: t.
Proof.
  intros Hc. unfold rest_of. rewrite find_first_app_stop by done.
  apply drop_app_le, find_first_le.
Qed.

Lemma startswith_long x y p :
  (length p <= length x)%nat → startswith (x ++ y) p = startswith x p.
Proof.
  revert x. induction p as [|c p IH]; intros [|d x] H; simpl in *; try done; [lia |].
  rewrite IH; [done | lia].
Qed.

(** A fragment at the end changes neither scheme nor netloc nor path. *)
Lemma urlsplit_form_fragment sch url2 f :
  rmap core (urlsplit_form sch (url2 ++ "#"%char :: f))
  = rmap core (urlsplit_form sch url2).
Proof.
  unfold urlsplit_form.
  assert (startswith (url2 ++ "#"%char :: f) (s "//") = startswith url2 (s "//")) as ->.
  { by destruct url2 as [|a [|b url2]]. }
  destruct (startswith url2 (s "//")) eqn:E.
  - assert (drop 2 (url2 ++ "#"%char :: f) = drop 2 url2 ++ "#"%char :: f) as ->.
    { apply drop_app_le.
      destruct url2 as [|a [|b url2]]; simpl in E |- *;
        [done | by rewrite andb_false_r in E | lia]. }
    rewrite netloc_of_app_stop, rest_of_app_stop by done.
    destruct (bracket_bad _); simpl; [done |].
    unfold core. simpl. by rewrite before_app_stop.
  - simpl. unfold core. simpl. by rewrite before_app_stop.
Qed.

Lemma urlparse_core u :
  rmap core (urlparse u)
  = rbind (rmap core (urlsplit u)) (fun '(sch, nl, pth) =>
      Ok (sch, nl,
          if str_in sch uses_params && has_char ";" pth
          then (splitparams pth).1 else pth)).
Proof.
  unfold urlparse. destruct (urlsplit u) as [r|e]; simpl; [|done].
  destruct (_ && _); [|done].
  by destruct (splitparams (path r)).
Qed.

Lemma normalize_url_core u u' :
  rmap core (urlparse u) = rmap core (urlparse u') →
  normalize_url u = normalize_url u'.
Proof.
  rewrite !normalize_url_eq.
  destruct (urlparse u) as [p|e], (urlparse u') as [p'|e']; simpl; try done.
  - unfold core, normal_form. by intros [= -> -> ->].
  - by intros [= ->].
Qed.

Lemma normalize_url_fragment u f :
  normalize_url (u ++ "#"%char :: f) = normalize_url u.
Proof.
  apply normalize_url_core. rewrite !urlparse_core. f_equal.
  rewrite !urlsplit_eq, clean_app by done.
  rewrite split_scheme_app by done. simpl fst. simpl snd.
  apply urlsplit_form_fragment.
Qed.

Lemma no_char_lstrip q q' x : no_char q x → no_char q (lstrip q' x).
Proof. intros H. destruct (lstrip_suffix q' x) as [k Hk]. rewrite Hk in H. by apply no_char_app in H as [_ ?]. Qed.

Lemma no_char_clean q u : no_char q u → no_char q (clean u).
Proof.
  intros H. unfold clean, remove_unsafe. apply no_char_lstrip with (q' := is_c0_or_space) in H.
  induction H as [|c x Hc _ IH]; [constructor |].
  rewrite filter_cons. destruct (decide _); [by constructor | done].
Qed.

Lemma urlsplit_path_no_char q u r :
  no_char q u → urlsplit u = Ok r → no_char q (path r).
Proof.
  intros Hu. rewrite urlsplit_eq, split_scheme_eq.
  apply (no_char_clean q) in Hu.
  assert (Hrest : no_char q (if scheme_ok (clean u)
                             then (lower (before ":" (clean u)), after ":" (clean u))
                             else ([], clean u)).2).
  { destruct (scheme_ok (clean u)); simpl; [by apply no_char_drop | done]. }
  revert Hrest. generalize ((if scheme_ok (clean u)
                             then (lower (before ":" (clean u)), after ":" (clean u))
                             else ([], clean u)).2).
  generalize ((if scheme_ok (clean u)
                             then (lower (before ":" (clean u)), after ":" (clean u))
                             else ([], clean u)).1).
  intros sch url2 Hrest. unfold urlsplit_form.
  destruct (startswith url2 (s "//")); simpl andb.
  - destruct (bracket_bad _); [done |]. intros [= <-]. simpl.
    eapply no_char_prefix; [apply before_prefix |].
    eapply no_char_prefix; [apply before_prefix |].
    by apply no_char_drop, no_char_drop.
  - intros [= <-]. simpl.
    eapply no_char_prefix; [apply before_prefix |].
    eapply no_char_prefix; [apply before_prefix | done].
Qed.

Lemma normalize_url_no_params u :
  has_char ";" u = false → normalize_url u = rmap normal_form (urlsplit u).
Proof.
  intros H. rewrite normalize_url_eq.
  destruct (urlsplit u) as [r|e] eqn:E.
  - rewrite (urlparse_no_params r); [done | done |].
    apply has_char_false. eapply urlsplit_path_no_char; [|exact E].
    by apply has_char_false.
  - unfold urlparse. by rewrite E.
Qed.

Lemma path_slash x :
  rstrip (chr_eqb "/") (before "?" (before "#" (x ++ ["/"%char])))
  = rstrip (chr_eqb "/") (before "?" (before "#" x)).
Proof.
  destruct (has_char "#" x) eqn:Hf.
  { by rewrite before_app_has. }
  rewrite before_app_hasnt, (before_id "#" x) by done.
  destruct (has_char "?" x) eqn:Hq.
  { by rewrite before_app_has. }
  rewrite before_app_hasnt, (before_id "?" x) by done.
  by apply rstrip_snoc.
Qed.

Lemma urlsplit_form_slash sch url2 :
  rmap normal_form (urlsplit_form sch (url2 ++ s "/"))
  = rmap normal_form (urlsplit_form sch url2).
Proof.
  destruct (startswith url2 (s "//")) eqn:E.
  - assert (Hlen : (2 <= length url2)%nat).
    { destruct url2 as [|a [|b url2]]; simpl in E |- *;
        [done | by rewrite andb_false_r in E | lia]. }
    unfold urlsplit_form. rewrite startswith_long, E by done.
    rewrite drop_app_le by done.
    change (s "/") with ["/"%char].
    rewrite netloc_of_app_stop, rest_of_app_stop by done.
    destruct (bracket_bad _); simpl; [done |].
    unfold normal_form, rmap. simpl rbind. simpl scheme. simpl netloc. simpl path.
    by rewrite path_slash.
  - destruct url2 as [|a [|b url2]].
    + done.
    + unfold urlsplit_form. simpl app.
      change (startswith [a; "/"%char] (s "//")) with (chr_eqb "/" a && true).
      change (startswith [a] (s "//")) with (chr_eqb "/" a && false).
      rewrite andb_true_r, andb_false_r.
      destruct (chr_eqb "/" a) eqn:Ea.
      * apply chr_eqb_eq in Ea as <-. done.
      * simpl andb. cbv iota. unfold normal_form, rmap.
        simpl rbind. simpl scheme. simpl netloc. simpl path.
        change [a; "/"%char] with ([a] ++ ["/"%char]). by rewrite (path_slash [a]).
    + unfold urlsplit_form.
      rewrite startswith_long, E by (simpl; lia). simpl andb. cbv iota.
      unfold normal_form, rmap. simpl rbind. simpl scheme. simpl netloc. simpl path.
      change (a :: b :: url2 ++ ["/"%char]) with ((a :: b :: url2) ++ ["/"%char]).
      by rewrite (path_slash (a :: b :: url2)).
Qed.

Lemma normalize_url_slash u :
  has_char ";" u = false → normalize_url (u ++ s "/") = normalize_url u.
Proof.
  intros H. rewrite !normalize_url_no_params; [|done|].
  - rewrite !urlsplit_eq. change (s "/") with ["/"%char].
    rewrite clean_app by done. rewrite split_scheme_app by done.
    simpl fst. simpl snd. apply urlsplit_form_slash.
  - by rewrite has_char_app, H.
Qed.

End UrlFacts.

(** ** Facts about the orchestrator *)

Section CrawlFacts.

Context {W Soup : Type}.
Variable lib : Library W Soup.

Implicit Types (f : Frame W) (url : str) (page : Page Soup).

Lemma is_english_frame text f :
  ∃ r w, is_english lib text f = (r, set_world w f).
Proof.
  unfold is_english. destruct (_ || _).
  - exists (Ok true), (world f). by destruct f.
  - unfold try_catch, bind, io, ret, raise.
    destruct (detect lib _ (world f)) as [[lang|e] w]; simpl.
    + by eexists _, w.
    + destruct e; by eexists _, w.
Qed.

Lemma scrape_page_frame url f :
  ∃ page w, scrape_page lib url f = (Ok page, after_request url w f)
            ∧ page_url page = url.
Proof.
  unfold scrape_page, try_catch, bind at 1, do_session_get, bind at 1, modify, io.
  simpl. destruct (session_get lib url (world f)) as [[response|e] w1]; simpl.
  2: { by eexists _, w1. }
  unfold bind at 1, lift. destruct (raise_for_status lib response) as [[]|e]; simpl.
  2: { by eexists _, w1. }
  unfold bind at 1. destruct (BeautifulSoup lib (content response)) as [soup|e]; simpl.
  2: { by eexists _, w1. }
  unfold bind at 1.
  destruct (is_english_frame
    (strip (collapse_whitespace false (get_text lib (decompose_unwanted lib soup))))
    (set_world w1 (log_request url f))) as (r & w2 & ->).
  destruct r as [[]|e]; simpl.
  - unfold bind, lift. destruct (collect_links _ _ _) as [links|e]; simpl;
      by eexists _, w2.
  - by eexists _, w2.
  - by eexists _, w2.
Qed.

Lemma crawl_pages_nil to st f : crawl_pages lib to st [] f = (Ok tt, f).
Proof. done. Qed.

Section Step.

Variables (to st : Z) (score : Z) (url link_text : str) (rest : list Scored).
Variables (f : Frame W) (now : Z) (w : W).
Hypothesis Hclock : time_time lib (world f) = (now, w).

Lemma crawl_pages_timeout :
  to * 1000 < now - st →
  crawl_pages lib to st ((score, url, link_text) :: rest) f
  = (Ok tt, after_clock now w f).
Proof.
  intros H. simpl. unfold bind at 1, read_clock. rewrite Hclock.
  by apply Z.ltb_lt in H as ->.
Qed.

Hypothesis Hintime : now - st <= to * 1000.

Lemma crawl_pages_raise e :
  normalize_url url = Raise e →
  crawl_pages lib to st ((score, url, link_text) :: rest) f
  = (Raise e, after_clock now w f).
Proof.
  intros H. simpl. unfold bind at 1, read_clock. rewrite Hclock.
  apply Z.ltb_ge in Hintime as ->. unfold bind, lift. by rewrite H.
Qed.

Variable normalized : str.
Hypothesis Hnorm : normalize_url url = Ok normalized.

Lemma crawl_pages_visited :
  normalized ∈ visited_urls f →
  crawl_pages lib to st ((score, url, link_text) :: rest) f
  = crawl_pages lib to st rest (after_clock now w f).
Proof.
  intros H. simpl. unfold bind at 1, read_clock. rewrite Hclock.
  apply Z.ltb_ge in Hintime as ->. unfold bind at 1, lift. rewrite Hnorm.
  unfold bind at 1, gets. simpl. by rewrite bool_decide_eq_true_2.
Qed.

Hypothesis Hfresh : normalized ∉ visited_urls f.
Variables (page : Page Soup) (w2 : W).
Hypothesis Hscrape :
  scrape_page lib url (after_clock now w f)
  = (Ok page, after_request url w2 (after_clock now w f)).

Lemma crawl_pages_failed :
  page_success page = false →
  crawl_pages lib to st ((score, url, link_text) :: rest) f
  = crawl_pages lib to st rest
      (skip_failed lib (after_request url w2 (after_clock now w f))).
Proof.
  intros H. simpl. unfold bind at 1, read_clock. rewrite Hclock.
  apply Z.ltb_ge in Hintime as ->. unfold bind at 1, lift. rewrite Hnorm.
  unfold bind at 1, gets. simpl. rewrite bool_decide_eq_false_2 by done.
  unfold bind at 1. change (log_clock now (set_world w f)) with (after_clock now w f).
  rewrite Hscrape. rewrite H. done.
Qed.

Lemma crawl_pages_success :
  page_success page = true →
  crawl_pages lib to st ((score, url, link_text) :: rest) f
  = crawl_pages lib to st rest
      (record_success lib normalized url link_text page
         (after_request url w2 (after_clock now w f))).
Proof.
  intros H. simpl. unfold bind at 1, read_clock. rewrite Hclock.
  apply Z.ltb_ge in Hintime as ->. unfold bind at 1, lift. rewrite Hnorm.
  unfold bind at 1, gets. simpl. rewrite bool_decide_eq_false_2 by done.
  unfold bind at 1. change (log_clock now (set_world w f)) with (after_clock now w f).
  rewrite Hscrape. rewrite H.
  unfold collect_signals. destruct (page_signals page) as [sg|] eqn:Hsg;
    unfold record_success; rewrite Hsg; done.
Qed.

End Step.

End CrawlFacts.

(** ** Facts about the ranking *)

Section RankFacts.

Implicit Types (x y : Scored) (l : list Scored).

Lemma insert_scored_perm x l : insert_scored x l ≡ₚ x :: l.
Proof.
  induction l as [|y l IH]; simpl; [done |].
  destruct (sc_score y <=? sc_score x); [done |].
  by rewrite IH, Permutation_swap.
Qed.

Lemma sort_scored_perm l : sort_scored l ≡ₚ l.
Proof.
  induction l as [|x l IH]; simpl; [done |].
  by rewrite insert_scored_perm, IH.
Qed.

Lemma insert_scored_sorted x l :
  StronglySorted ranks_before l → StronglySorted ranks_before (insert_scored x l).
Proof.
  induction 1 as [|y l Hl IH Hy]; simpl.
  - repeat constructor.
  - destruct (sc_score y <=? sc_score x) eqn:E.
    + apply Z.leb_le in E. constructor; [by constructor |].
      constructor; [done |].
      eapply Forall_impl; [exact Hy |]. unfold ranks_before. intros z Hz. lia.
    + apply Z.leb_gt in E. constructor; [done |].
      rewrite insert_scored_perm. constructor; [|done].
      unfold ranks_before. lia.
Qed.

Lemma sort_scored_sorted l : StronglySorted ranks_before (sort_scored l).
Proof.
  induction l as [|x l IH]; simpl; [constructor | by apply insert_scored_sorted].
Qed.

Lemma insert_scored_stable k x l :
  with_score k (insert_scored x l) = with_score k (x :: l).
Proof.
  unfold with_score. induction l as [|y l IH]; simpl; [done |].
  destruct (sc_score y <=? sc_score x) eqn:E; [done |].
  apply Z.leb_gt in E. rewrite (filter_cons _ y), IH, !(filter_cons _ x), (filter_cons _ y).
  destruct (decide (sc_score x = k)), (decide (sc_score y = k)); try done. lia.
Qed.

Lemma sort_scored_stable k l : with_score k (sort_scored l) = with_score k l.
Proof.
  induction l as [|x l IH]; simpl; [done |].
  rewrite insert_scored_stable. unfold with_score in *.
  by rewrite !(filter_cons _ x), IH.
Qed.

(** Whatever a sorted list has after position [n] ranks no higher than
    anything before it. *)
Lemma sorted_take_drop n l x y :
  StronglySorted ranks_before l → x ∈ take n l → y ∈ drop n l → ranks_before x y.
Proof.
  intros Hs. revert n. induction Hs as [|z l Hl IH Hz]; intros n Hx Hy.
  - by rewrite take_nil in Hx; inversion Hx.
  - destruct n as [|n]; simpl in *; [inversion Hx |].
    apply elem_of_cons in Hx as [-> | Hx].
    + rewrite Forall_forall in Hz. apply Hz.
      destruct (suffix_drop l n) as [k Hk]. rewrite Hk. apply elem_of_app. by right.
    + by eapply IH.
Qed.

Lemma slice_to_take {A} (n : Z) (l : list A) :
  0 <= n → slice_to n l = take (Z.to_nat n) l.
Proof. intros H. unfold slice_to. by apply Z.leb_le in H as ->. Qed.

Lemma slice_to_prefix {A} (n : Z) (l : list A) : slice_to n l `prefix_of` l.
Proof. unfold slice_to. destruct (0 <=? n); apply prefix_take. Qed.

Lemma slice_to_length {A} (n : Z) (l : list A) :
  0 <= n → Z.of_nat (length (slice_to n l)) <= n.
Proof. intros H. rewrite slice_to_take, length_take by done. lia. Qed.

End RankFacts.

(** ** What the loop requests *)

Section TraceFacts.

Implicit Types (v : gset str) (l : list Scored) (reads : list Z)
  (reqs recorded : list str).

Lemma loop_requests_sublist to st v l reads reqs recorded :
  loop_requests to st v l reads reqs recorded →
  reqs `sublist_of` (sc_url <$> l) ∧ recorded `sublist_of` reqs.
Proof.
  induction 1 as [v | v c rest now Hlate
                 | v c rest now k reads reqs recorded _ _ _ _ [IH1 IH2]
                 | v c rest now k reads reqs recorded _ _ _ _ [IH1 IH2]
                 | v c rest now k reads reqs recorded _ _ _ _ [IH1 IH2]]; simpl.
  - done.
  - split; [apply sublist_nil_l | done].
  - split; [by apply sublist_cons | done].
  - split; by apply sublist_skip.
  - split; [by apply sublist_skip | by apply sublist_cons].
Qed.

(** A candidate that is not requested was not reached in time, or its
    normalized URL was in the visited set at the start or is that of a
    recorded page. *)
Lemma loop_requests_complete to st v l reads reqs recorded c :
  loop_requests to st v l reads reqs recorded →
  c ∈ l →
  sc_url c ∈ reqs
  ∨ Exists (late to st) reads
  ∨ ∃ k, normalize_url (sc_url c) = Ok k ∧
         (k ∈ v ∨ ∃ u, u ∈ recorded ∧ normalize_url u = Ok k).
Proof.
  induction 1 as [v | v c' rest now Hlate
                 | v c' rest now k reads reqs recorded Hin Hk Hv _ IH
                 | v c' rest now k reads reqs recorded Hin Hk Hv _ IH
                 | v c' rest now k reads reqs recorded Hin Hk Hv _ IH];
    intros Hc.
  - inversion Hc.
  - right. left. by constructor.
  - apply elem_of_cons in Hc as [-> | Hc].
    + right. right. exists k. split; [done | by left].
    + destruct (IH Hc) as [? | [? | ?]]; [by left | | by right; right].
      right. left. by apply Exists_cons_tl.
  - apply elem_of_cons in Hc as [-> | Hc]; [left; by left |].
    destruct (IH Hc) as [? | [? | (k' & Hk' & [Hv' | (u & Hu & Hu')])]].
    + left. by right.
    + right. left. by apply Exists_cons_tl.
    + right. right. exists k'. split; [done |].
      apply elem_of_union in Hv' as [->%elem_of_singleton | Hv'].
      * right. exists (sc_url c'). split; [by left | done].
      * by left.
    + right. right. exists k'. split; [done |]. right. exists u. split; [by right | done].
  - apply elem_of_cons in Hc as [-> | Hc]; [left; by left |].
    destruct (IH Hc) as [? | [? | ?]]; [left; by right | | by right; right].
    right. left. by apply Exists_cons_tl.
Qed.

(** With every reading in time and pairwise different normalized URLs,
    none of them visited, every candidate is requested. *)
Lemma loop_requests_exact to st v l reads reqs recorded ns :
  loop_requests to st v l reads reqs recorded →
  Forall (in_time to st) reads →
  Forall2 (fun c k => normalize_url (sc_url c) = Ok k) l ns →
  NoDup ns →
  (∀ n, n ∈ ns → n ∉ v) →
  reqs = sc_url <$> l.
Proof.
  intros Htrace. revert ns.
  induction Htrace as [v | v c' rest now Hlate
                 | v c' rest now k reads reqs recorded Hin Hk Hv _ IH
                 | v c' rest now k reads reqs recorded Hin Hk Hv _ IH
                 | v c' rest now k reads reqs recorded Hin Hk Hv _ IH];
    intros ns Htime Hkeys Hnodup Hnew.
  - done.
  - by inversion Htime.
  - inversion Hkeys as [|? k' ? ns' Hk' Hrest]; subst.
    exfalso. apply (Hnew k'); [left | congruence].
  - inversion Hkeys as [|? k' ? ns' Hk' Hrest]; subst.
    apply NoDup_cons in Hnodup as [Hk_rest Hnodup].
    assert (k' = k) as -> by congruence.
    simpl. f_equal. apply (IH ns'); [by inversion Htime | done | done |].
    intros n Hn [->%elem_of_singleton | Hv']%elem_of_union; [done |].
    by apply (Hnew n); [right |].
  - inversion Hkeys as [|? k' ? ns' Hk' Hrest]; subst.
    apply NoDup_cons in Hnodup as [Hk_rest Hnodup].
    simpl. f_equal. apply (IH ns'); [by inversion Htime | done | done |].
    intros n Hn. apply Hnew. by right.
Qed.

End TraceFacts.

(** ** The crawl loop *)

Section LoopFacts.

Context {W Soup : Type}.
Variable lib : Library W Soup.

Implicit Types (f : Frame W) (url : str) (page : Page Soup).

Lemma consistent_record_success n url link_text page w f :
  normalize_url url = Ok n → n ∉ visited_urls f →
  consistent f →
  consistent (record_success lib n url link_text page (after_request url w f)).
Proof.
  intros Hn Hfresh [Hcount (ns & Hkeys & Hnodup & Hvis)]. split.
  - simpl. rewrite length_app. simpl. lia.
  - exists (ns ++ [n]). split_and!.
    + unfold pages_keys. simpl. apply Forall2_app; [done |]. by repeat constructor.
    + apply NoDup_app. split_and!; [done | | apply NoDup_singleton].
      intros x Hx ->%list_elem_of_singleton. by apply Hfresh, Hvis.
    + intros x [Hx | ->%list_elem_of_singleton]%elem_of_app; simpl.
      * apply elem_of_union_r. by apply Hvis.
      * apply elem_of_union_l. by apply elem_of_singleton.
Qed.

Lemma crawl_pages_run to st links f :
  ∃ r f' reqs reads,
    crawl_pages lib to st links f = (r, f') ∧
    fetched f' = fetched f ++ reqs ∧
    clock_reads f' = clock_reads f ++ reads ∧
    reqs `sublist_of` (sc_url <$> links) ∧
    (consistent f → consistent f') ∧
    page_count (results f') <= page_count (results f) + Z.of_nat (length reqs) ∧
    error (results f') = error (results f).
Proof.
  revert f. induction links as [|[[score url] link_text] rest IH]; intros f.
  { exists (Ok tt), f, [], []. rewrite !app_nil_r. simpl. split_and!; try done. lia. }
  destruct (time_time lib (world f)) as [now w] eqn:Hclock.
  destruct (Z.lt_ge_cases (to * 1000) (now - st)) as [Hlate | Hintime].
  { exists (Ok tt), (after_clock now w f), [], [now]. rewrite app_nil_r.
    rewrite (crawl_pages_timeout lib _ _ _ _ _ _ _ _ _ Hclock Hlate).
    split_and!; try done; [apply sublist_nil_l | simpl; lia]. }
  destruct (normalize_url url) as [n|e] eqn:Hn.
  2: { exists (Raise e), (after_clock now w f), [], [now]. rewrite app_nil_r.
       rewrite (crawl_pages_raise lib _ _ _ _ _ _ _ _ _ Hclock Hintime _ Hn).
       split_and!; try done; [apply sublist_nil_l | simpl; lia]. }
  destruct (decide (n ∈ visited_urls f)) as [Hseen | Hfresh].
  { rewrite (crawl_pages_visited lib _ _ _ _ _ _ _ _ _ Hclock Hintime _ Hn Hseen).
    destruct (IH (after_clock now w f))
      as (r & f' & reqs & reads & -> & Hf & Hr & Hsub & Hcons & Hcnt & Herr).
    exists r, f', reqs, (now :: reads). split_and!; try done.
    - rewrite Hr. simpl. by rewrite <- app_assoc.
    - simpl. by apply sublist_cons. }
  destruct (scrape_page_frame lib url (after_clock now w f)) as (page & w2 & Hscrape & _).
  destruct (page_success page) eqn:Hok.
  - rewrite (crawl_pages_success lib _ _ _ _ _ _ _ _ _ Hclock Hintime _ Hn Hfresh _ _ Hscrape Hok).
    destruct (IH (record_success lib n url link_text page
                    (after_request url w2 (after_clock now w f))))
      as (r & f' & reqs & reads & -> & Hf & Hr & Hsub & Hcons & Hcnt & Herr).
    exists r, f', (url :: reqs), (now :: reads). split_and!; try done.
    + rewrite Hf. simpl. by rewrite <- app_assoc.
    + rewrite Hr. simpl. by rewrite <- app_assoc.
    + simpl. by apply sublist_skip.
    + intros H. apply Hcons.
      by apply (consistent_record_success n url link_text page w2 (after_clock now w f)).
    + simpl in Hcnt |- *. lia.
  - rewrite (crawl_pages_failed lib _ _ _ _ _ _ _ _ _ Hclock Hintime _ Hn Hfresh _ _ Hscrape Hok).
    destruct (IH (skip_failed lib (after_request url w2 (after_clock now w f))))
      as (r & f' & reqs & reads & -> & Hf & Hr & Hsub & Hcons & Hcnt & Herr).
    exists r, f', (url :: reqs), (now :: reads). split_and!; try done.
    + rewrite Hf. simpl. by rewrite <- app_assoc.
    + rewrite Hr. simpl. by rewrite <- app_assoc.
    + simpl. by apply sublist_skip.
    + simpl in Hcnt |- *. lia.
Qed.

(** The loop over candidates that all normalize ends without an exception,
    and [loop_requests] describes what it requested and recorded. *)
Lemma crawl_pages_trace to st links f :
  Forall (fun c => ∃ k, normalize_url (sc_url c) = Ok k) links →
  ∃ f' reads reqs recorded,
    crawl_pages lib to st links f = (Ok tt, f') ∧
    fetched f' = fetched f ++ reqs ∧
    clock_reads f' = clock_reads f ++ reads ∧
    rec_url <$> pages_scraped (results f')
      = (rec_url <$> pages_scraped (results f)) ++ recorded ∧
    error (results f') = error (results f) ∧
    loop_requests to st (visited_urls f) links reads reqs recorded.
Proof.
  intros Hall. revert f.
  induction Hall as [|[[score url] link_text] rest (n & Hn) _ IH]; intros f.
  { exists f, [], [], []. rewrite !app_nil_r. split_and!; try done. constructor. }
  change (sc_url (score, url, link_text)) with url in Hn.
  destruct (time_time lib (world f)) as [now w] eqn:Hclock.
  destruct (Z.lt_ge_cases (to * 1000) (now - st)) as [Hlate | Hintime].
  { exists (after_clock now w f), [now], [], []. rewrite !app_nil_r.
    rewrite (crawl_pages_timeout lib _ _ _ _ _ _ _ _ _ Hclock Hlate).
    split_and!; try done. constructor. unfold in_time. lia. }
  destruct (decide (n ∈ visited_urls f)) as [Hseen | Hfresh].
  { rewrite (crawl_pages_visited lib _ _ _ _ _ _ _ _ _ Hclock Hintime _ Hn Hseen).
    destruct (IH (after_clock now w f))
      as (f' & reads & reqs & recorded & -> & Hf & Hr & Hrec & Herr & Htrace).
    exists f', (now :: reads), reqs, recorded. split_and!; try done.
    - rewrite Hr. simpl. by rewrite <- app_assoc.
    - by eapply PassedOver. }
  destruct (scrape_page_frame lib url (after_clock now w f)) as (page & w2 & Hscrape & _).
  destruct (page_success page) eqn:Hok.
  - rewrite (crawl_pages_success lib _ _ _ _ _ _ _ _ _ Hclock Hintime _ Hn Hfresh _ _ Hscrape Hok).
    destruct (IH (record_success lib n url link_text page
                    (after_request url w2 (after_clock now w f))))
      as (f' & reads & reqs & recorded & -> & Hf & Hr & Hrec & Herr & Htrace).
    exists f', (now :: reads), (url :: reqs), (url :: recorded). split_and!; try done.
    + rewrite Hf. simpl. by rewrite <- app_assoc.
    + rewrite Hr. simpl. by rewrite <- app_assoc.
    + rewrite Hrec. simpl. by rewrite fmap_app, <- app_assoc.
    + by apply (RequestedAndRecorded to st _ (score, url, link_text) rest now n).
  - rewrite (crawl_pages_failed lib _ _ _ _ _ _ _ _ _ Hclock Hintime _ Hn Hfresh _ _ Hscrape Hok).
    destruct (IH (skip_failed lib (after_request url w2 (after_clock now w f))))
      as (f' & reads & reqs & recorded & -> & Hf & Hr & Hrec & Herr & Htrace).
    exists f', (now :: reads), (url :: reqs), recorded. split_and!; try done.
    + rewrite Hf. simpl. by rewrite <- app_assoc.
    + rewrite Hr. simpl. by rewrite <- app_assoc.
    + by apply (RequestedAndFailed to st _ (score, url, link_text) rest now n).
Qed.

End LoopFacts.

(** ** The orchestrator as a decision tree *)

Section RunFacts.

Context {W Soup : Type}.
Variable lib : Library W Soup.

Implicit Types (f : Frame W) (url : str) (page : Page Soup).

Lemma store_homepage_run start page f :
  (∃ e f', store_homepage lib start page f = (Raise e, f') ∧
           pages_scraped (results f') = pages_scraped (results f) ∧
           page_count (results f') = page_count (results f) ∧
           base_url (results f') = base_url (results f) ∧
           visited_urls f' = visited_urls f ∧
           fetched f' = fetched f ∧ world f' = world f)
  ∨ (∃ n name, normalize_url start = Ok n ∧
       store_homepage lib start page f = (Ok tt, home_stored n name start page f)).
Proof.
  unfold store_homepage, bind at 1, lift.
  destruct (match page_soup page with Some _ => _ | None => _ end) as [name|e].
  2: { left. by exists e, f. }
  unfold bind at 1, update_results, modify. unfold bind at 1, collect_signals.
  destruct (page_signals page) as [sg|] eqn:Hsg; unfold modify, ret;
    unfold bind at 1; destruct (normalize_url start) as [n|e] eqn:Hn.
  - right. exists n, name. split; [done |]. unfold home_stored. by rewrite Hsg.
  - left. by eexists e, _.
  - right. exists n, name. split; [done |]. unfold home_stored. by rewrite Hsg.
  - left. by eexists e, _.
Qed.

Lemma rank_links_eq mp base page f :
  rank_links mp base page f =
  match score_links (visited_urls f) base (page_links page) [] with
  | Ok cands => (Ok (slice_to (mp - 1) (sort_scored cands)), f)
  | Raise e => (Raise e, f)
  end.
Proof.
  unfold rank_links, bind, gets, lift, ret.
  by destruct (score_links _ _ _ _).
Qed.

Lemma crawl_website_run mp to url f0 t0 w0 parsed :
  time_time lib (world f0) = (t0, w0) →
  urlparse (with_scheme url) = Ok parsed →
  ∃ page w1 f',
    scrape_page lib (with_scheme url) (entry_frame (with_scheme url) t0 w0 f0)
      = (Ok page, after_request (with_scheme url) w1 (entry_frame (with_scheme url) t0 w0 f0)) ∧
    crawl_website lib mp to url f0 = (Ok (results f'), f') ∧
    crawl_outcome lib mp to t0 (with_scheme url) (netloc parsed)
      (entry_frame (with_scheme url) t0 w0 f0) page f'.
Proof.
  intros Hclock Hparse.
  destruct (scrape_page_frame lib (with_scheme url) (entry_frame (with_scheme url) t0 w0 f0))
    as (page & w1 & Hscrape & _).
  exists page, w1.
  unfold crawl_website. fold (with_scheme url).
  unfold bind at 1, read_clock. rewrite Hclock.
  change (log_clock t0 (set_world w0 f0)) with (after_clock t0 w0 f0).
  unfold bind at 1, lift. rewrite Hparse.
  unfold bind at 1, modify. unfold bind at 1. unfold bind at 1.
  fold (entry_frame (with_scheme url) t0 w0 f0).
  unfold try_catch, crawl_body. unfold bind at 1. rewrite Hscrape.
  destruct (page_success page) eqn:Hok; cbn [negb].
  2: { eexists. split_and!; [done | done | by apply HomeFailed]. }
  unfold bind at 1.
  destruct (store_homepage_run (with_scheme url) page
              (after_request (with_scheme url) w1 (entry_frame (with_scheme url) t0 w0 f0)))
    as [(e & f2 & Hst & _) | (n & name & Hn & Hst)]; rewrite Hst.
  { eexists. split_and!; [done | done | by eapply StoreRaised]. }
  unfold bind at 1. rewrite rank_links_eq.
  simpl visited_urls.
  destruct (score_links _ _ _ _) as [cands|e] eqn:Hrank.
  2: { eexists. split_and!; [done | done | by eapply RankRaised]. }
  unfold bind at 1.
  destruct (crawl_pages lib to t0 _ _) as [[[]|e] f3] eqn:Hloop.
  - eexists. split_and!; [done | done |].
    by eapply (LoopDone _ _ _ _ _ _ _ page w1 n name cands (Ok tt) f3).
  - eexists. split_and!; [done | done |].
    by eapply (LoopDone _ _ _ _ _ _ _ page w1 n name cands (Raise e) f3).
Qed.

End RunFacts.

(** ** Consequences for every run *)

Section RunTheorems.

Context {W Soup : Type}.
Variable lib : Library W Soup.

Implicit Types (f : Frame W) (url : str) (page : Page Soup).

Lemma consistent_home_stored n name start page f :
  normalize_url start = Ok n →
  pages_scraped (results f) = [] →
  consistent (home_stored n name start page f).
Proof.
  intros Hn Hnil. split.
  - simpl. by rewrite Hnil.
  - exists [n]. split_and!.
    + unfold pages_keys. simpl. rewrite Hnil. simpl. by repeat constructor.
    + apply NoDup_singleton.
    + intros x ->%list_elem_of_singleton. simpl.
      apply elem_of_union_l. by apply elem_of_singleton.
Qed.

Lemma consistent_empty f :
  pages_scraped (results f) = [] → page_count (results f) = 0 → consistent f.
Proof.
  intros Hnil Hzero. split.
  - by rewrite Hnil, Hzero.
  - exists []. unfold pages_keys. rewrite Hnil. split_and!; [constructor | constructor |].
    intros x Hx. inversion Hx.
Qed.

Lemma consistent_with_error msg f : consistent f → consistent (with_error msg f).
Proof. done. Qed.

Lemma consistent_finalize f : consistent f → consistent (finalize f).
Proof. done. Qed.

(** Every outcome leaves a consistent frame, and a page count of at most
    one plus the number of requests after the homepage. *)
Lemma crawl_outcome_consistent mp to t0 start base f1 page f' :
  pages_scraped (results f1) = [] → page_count (results f1) = 0 →
  crawl_outcome lib mp to t0 start base f1 page f' →
  consistent f' ∧ (1 <= mp → page_count (results f') <= mp).
Proof.
  intros Hnil Hzero Hout. destruct Hout as
    [page w1 Hfail
    |page w1 e f2 Hok Hst
    |page w1 n name e Hok Hn Hrank
    |page w1 n name cands r f3 Hok Hn Hrank Hloop].
  - split; [by apply consistent_empty | simpl; lia].
  - destruct (store_homepage_run lib start page (after_request start w1 f1))
      as [(e' & f2' & Hst' & Hp & Hc & _) | (n & name & _ & Hst')];
      rewrite Hst' in Hst; [|done]. simplify_eq.
    split.
    + apply consistent_finalize, consistent_with_error, consistent_empty.
      * by rewrite Hp.
      * by rewrite Hc.
    + simpl. rewrite Hc. simpl. lia.
  - split; [|simpl; lia].
    by apply consistent_finalize, consistent_with_error, consistent_home_stored.
  - destruct (crawl_pages_run lib to t0 (slice_to (mp - 1) (sort_scored cands))
                (home_stored n name start page (after_request start w1 f1)))
      as (r' & f3' & reqs & reads & Hloop' & Hf & Hreads & Hsub & Hcons & Hcnt & Herr).
    rewrite Hloop' in Hloop. simplify_eq.
    assert (Hc3 : consistent f3).
    { by apply Hcons, consistent_home_stored. }
    split.
    + apply consistent_finalize. destruct r; [done | by apply consistent_with_error].
    + intros Hmp.
      assert (page_count (results f3) <= mp); [|by destruct r].
      apply sublist_length in Hsub. rewrite length_fmap in Hsub.
      pose proof (slice_to_length (mp - 1) (sort_scored cands)) as Hlen.
      simpl in Hcnt. lia.
Qed.

Lemma crawl_website_raises mp to url f0 t0 w0 e :
  time_time lib (world f0) = (t0, w0) →
  urlparse (with_scheme url) = Raise e →
  crawl_website lib mp to url f0 = (Raise e, after_clock t0 w0 f0).
Proof.
  intros Hclock Hparse. unfold crawl_website. fold (with_scheme url).
  unfold bind at 1, read_clock. rewrite Hclock.
  unfold bind at 1, lift. by rewrite Hparse.
Qed.

Lemma crawl_website_inv mp to url f0 res f' :
  crawl_website lib mp to url f0 = (Ok res, f') →
  ∃ t0 w0 parsed page w1,
    time_time lib (world f0) = (t0, w0) ∧
    urlparse (with_scheme url) = Ok parsed ∧
    scrape_page lib (with_scheme url) (entry_frame (with_scheme url) t0 w0 f0)
      = (Ok page, after_request (with_scheme url) w1 (entry_frame (with_scheme url) t0 w0 f0)) ∧
    res = results f' ∧
    crawl_outcome lib mp to t0 (with_scheme url) (netloc parsed)
      (entry_frame (with_scheme url) t0 w0 f0) page f'.
Proof.
  intros Hrun.
  destruct (time_time lib (world f0)) as [t0 w0] eqn:Hclock.
  destruct (urlparse (with_scheme url)) as [parsed|e] eqn:Hparse.
  - destruct (crawl_website_run lib mp to url f0 t0 w0 parsed Hclock Hparse)
      as (page & w1 & f'' & Hscrape & Hrun' & Hout).
    rewrite Hrun' in Hrun. simplify_eq.
    by exists t0, w0, parsed, page, w1.
  - by rewrite (crawl_website_raises mp to url f0 t0 w0 e) in Hrun.
Qed.

(** *** Ways for [scrape_page] to fail *)

Lemma scrape_page_transport_error url f e w :
  session_get lib url (world f) = (Raise e, w) →
  scrape_page lib url f = (Ok (failed_page url (exn_str e)), after_request url w f).
Proof.
  intros H. unfold scrape_page, try_catch, bind at 1, do_session_get, bind at 1, modify, io.
  simpl. by rewrite H.
Qed.

Lemma scrape_page_http_error url f response w :
  session_get lib url (world f) = (Ok response, w) →
  400 <= status_code response < 600 →
  scrape_page lib url f
  = (Ok (failed_page url (http_error_msg lib response)), after_request url w f).
Proof.
  intros H Hst. unfold scrape_page, try_catch, bind at 1, do_session_get, bind at 1, modify, io.
  simpl. rewrite H. simpl. unfold bind at 1, lift, raise_for_status.
  assert (((400 <=? status_code response) && (status_code response <? 500))
          || ((500 <=? status_code response) && (status_code response <? 600)) = true) as ->.
  { destruct (Z.lt_ge_cases (status_code response) 500).
    - apply orb_true_iff. left. apply andb_true_iff. split; [apply Z.leb_le | apply Z.ltb_lt]; lia.
    - apply orb_true_iff. right. apply andb_true_iff. split; [apply Z.leb_le | apply Z.ltb_lt]; lia. }
  done.
Qed.

Lemma scrape_page_non_english url f response w soup f2 :
  session_get lib url (world f) = (Ok response, w) →
  raise_for_status lib response = Ok tt →
  BeautifulSoup lib (content response) = Ok soup →
  is_english lib (extract_text_from_html lib soup).1 (set_world w (log_request url f))
    = (Ok false, f2) →
  scrape_page lib url f = (Ok (failed_page url (s "Non-English content")), f2).
Proof.
  intros H Hst Hsoup Hlang.
  unfold scrape_page, try_catch, bind at 1, do_session_get, bind at 1, modify, io.
  simpl. rewrite H. simpl. unfold bind at 1, lift. rewrite Hst.
  unfold bind at 1. rewrite Hsoup. unfold extract_text_from_html in *. simpl in Hlang.
  unfold bind at 1. by rewrite Hlang.
Qed.

Lemma rejected_scrape_fails url f :
  homepage_rejected lib url f →
  ∃ page f2, scrape_page lib url f = (Ok page, f2) ∧ page_success page = false.
Proof.
  intros [(e & w & H) | [(response & w & H & Hst) | (response & w & soup & f2 & H & Hst & Hsoup & Hl)]].
  - eexists _, _. split; [by apply scrape_page_transport_error | done].
  - eexists _, _. split; [by apply scrape_page_http_error | done].
  - eexists _, _. split; [by eapply scrape_page_non_english | done].
Qed.

(** *** What the scoring loop lets through *)

Lemma score_links_spec v base links acc cands :
  score_links v base links acc = Ok cands →
  ∃ new, cands = acc ++ new ∧
         Forall (fun c => ∃ n, normalize_url (sc_url c) = Ok n ∧ (n ∉ v) ∧
                               is_valid_url (sc_url c) base = Ok true ∧
                               0 < sc_score c) new.
Proof.
  revert acc. induction links as [|link rest IH]; intros acc; simpl.
  { intros [= <-]. exists []. by rewrite app_nil_r. }
  destruct (normalize_url (link_url link)) as [n|e] eqn:Hn; simpl; [|done].
  destruct (bool_decide (n ∈ v)) eqn:Hv; [by apply IH |].
  apply bool_decide_eq_false in Hv.
  destruct (is_valid_url (link_url link) base) as [[]|e] eqn:Hvalid; simpl; [| by apply IH | done].
  destruct (0 <? _) eqn:Hpos; [| by apply IH].
  apply Z.ltb_lt in Hpos. intros H. apply IH in H as (new & -> & Hnew).
  exists ((score_url_priority (link_url link) (link_text link) (link_context link),
           link_url link, link_text link) :: new).
  split; [by rewrite <- app_assoc |].
  constructor; [|done]. exists n. by split_and!.
Qed.

Lemma slice_sorted_subset mp cands c :
  c ∈ priority_links mp cands → c ∈ cands.
Proof.
  unfold priority_links. intros H. rewrite <- (sort_scored_perm cands).
  destruct (slice_to_prefix (mp - 1) (sort_scored cands)) as [k Hk].
  rewrite Hk. apply elem_of_app. by left.
Qed.

Lemma keys_unvisited (v : gset str) (l : list Scored) ns :
  Forall2 (fun c n => normalize_url (sc_url c) = Ok n) l ns →
  (∀ c, c ∈ l → ∃ n, normalize_url (sc_url c) = Ok n ∧ n ∉ v) →
  ∀ n, n ∈ ns → n ∉ v.
Proof.
  induction 1 as [|c n l ns Hc _ IH]; intros Hall x Hx; [inversion Hx |].
  apply elem_of_cons in Hx as [-> | Hx].
  - destruct (Hall c) as (n' & Hn' & Hv); [left |]. congruence.
  - apply IH; [|done]. intros c' Hc'. apply Hall. by right.
Qed.

(** The candidates kept after the scoring normalize, to strings outside
    the visited set of the scoring. *)
Lemma kept_candidates_fresh v base links cands mp :
  score_links v base links [] = Ok cands →
  Forall (fun c => ∃ k, normalize_url (sc_url c) = Ok k ∧ k ∉ v)
    (priority_links mp cands).
Proof.
  intros (new & -> & Hnew)%score_links_spec.
  apply Forall_forall. intros c Hc%slice_sorted_subset.
  rewrite Forall_forall in Hnew.
  destruct (Hnew c Hc) as (k & Hk & Hv & _). by exists k.
Qed.

End RunTheorems.

(** * The claims about the orchestrator *)

Section OrchestratorClaims.

Context {W Soup : Type}.
Variable lib : Library W Soup.

(** C1 (amended).  For every run of [crawl_website] that returns a result,
    [page_count] equals the number of entries of [pages_scraped]; and
    whenever the configured [max_pages] is at least 1, [page_count] is at
    most [max_pages]. *)
Theorem page_count_within_budget mp to url (f0 : Frame W) res f' :
  crawl_website lib mp to url f0 = (Ok res, f') →
  page_count res = Z.of_nat (length (pages_scraped res)) ∧
  (1 <= mp → page_count res <= mp).
Proof.
  intros Hrun.
  apply crawl_website_inv in Hrun
    as (t0 & w0 & parsed & page & w1 & _ & _ & _ & -> & Hout).
  apply crawl_outcome_consistent in Hout as [[Hcount _] Hbudget]; done.
Qed.

(** C2 (amended).  If the homepage request fails in transport, or is
    answered with a status in 400..599 (such as 404), or the homepage text
    is rejected by the language filter, [crawl_website] returns a result
    with an [error] field, [page_count == 0] and no page record, and the
    homepage request is the only request of the run. *)
Theorem homepage_failure_is_fatal mp to url (f0 : Frame W) t0 w0 parsed :
  time_time lib (world f0) = (t0, w0) →
  urlparse (with_scheme url) = Ok parsed →
  homepage_rejected lib (with_scheme url) (entry_frame (with_scheme url) t0 w0 f0) →
  ∃ res f',
    crawl_website lib mp to url f0 = (Ok res, f') ∧
    is_Some (error res) ∧
    page_count res = 0 ∧
    pages_scraped res = [] ∧
    fetched f' = fetched f0 ++ [with_scheme url] ∧
    visited_urls f' = visited_urls f0.
Proof.
  intros Hclock Hparse Hrej.
  destruct (crawl_website_run lib mp to url f0 t0 w0 parsed Hclock Hparse)
    as (page & w1 & f' & Hscrape & Hrun & Hout).
  apply rejected_scrape_fails in Hrej as (page' & f2 & Hscrape' & Hfail).
  rewrite Hscrape in Hscrape'. simplify_eq.
  exists (results f'), f'. split; [done |].
  inversion Hout; subst; try congruence.
  simpl. by split_and!.
Qed.

(** C3.  Within one invocation of [crawl_website] the visited set holds no
    element twice, and the page records have pairwise different normalized
    URLs, each of which is in the visited set. *)
Theorem no_duplicate_visits mp to url (f0 : Frame W) res f' :
  crawl_website lib mp to url f0 = (Ok res, f') →
  NoDup (elements (visited_urls f')) ∧
  ∃ ns, pages_keys res ns ∧ NoDup ns ∧ ∀ n, n ∈ ns → n ∈ visited_urls f'.
Proof.
  intros Hrun. split; [apply NoDup_elements |].
  apply crawl_website_inv in Hrun
    as (t0 & w0 & parsed & page & w1 & _ & _ & _ & -> & Hout).
  apply crawl_outcome_consistent in Hout as [[_ Hkeys] _]; done.
Qed.

(** C6 (amended).  The ranking [sort_scored] of the candidates is a
    permutation of them, is descending in the score and keeps the document
    order among equal scores; for [max_pages >= 1] the kept candidates
    [priority_links] are the first [max_pages - 1] of the ranking (fewer
    if there are fewer), none of them ranked below a dropped one.  Of the
    kept candidates the loop requests, in ranking order, exactly those
    that are reached before the timeout and whose normalized URL has not
    been visited meanwhile, as [loop_requests] says candidate by
    candidate: a late reading of the clock ends the loop, a candidate
    whose normalized URL is visited is passed over and the loop goes on,
    every other candidate is requested, and its normalized URL is visited
    from then on when its page is recorded.  So the requests after the
    homepage are a subsequence of the kept candidates; a kept candidate
    that is not requested comes after a late reading or has the
    normalized URL of a recorded page; and when no reading of the loop
    is late and the kept candidates have pairwise different normalized
    URLs, exactly they are requested, in ranking order.  All this in a
    run that ends without an [error] field; in a run that ends with one,
    nothing is requested after the homepage. *)
Theorem ranked_fetch_order mp to url (f0 : Frame W) res f' :
  crawl_website lib mp to url f0 = (Ok res, f') →
  ∃ t0 w0 parsed page w1 reqs,
    time_time lib (world f0) = (t0, w0) ∧
    urlparse (with_scheme url) = Ok parsed ∧
    scrape_page lib (with_scheme url) (entry_frame (with_scheme url) t0 w0 f0)
      = (Ok page, after_request (with_scheme url) w1
                    (entry_frame (with_scheme url) t0 w0 f0)) ∧
    fetched f' = fetched f0 ++ with_scheme url :: reqs ∧
    (is_Some (error res) → reqs = []) ∧
    (error res = None →
     ∃ n cands reads recorded,
       normalize_url (with_scheme url) = Ok n ∧
       score_links ({[n]} ∪ visited_urls f0) (netloc parsed) (page_links page) []
         = Ok cands ∧
       sort_scored cands ≡ₚ cands ∧
       StronglySorted ranks_before (sort_scored cands) ∧
       (∀ k, with_score k (sort_scored cands) = with_score k cands) ∧
       (1 <= mp →
        priority_links mp cands = take (Z.to_nat (mp - 1)) (sort_scored cands) ∧
        length (priority_links mp cands) = Nat.min (Z.to_nat (mp - 1)) (length cands) ∧
        ∀ x y, x ∈ priority_links mp cands →
               y ∈ drop (Z.to_nat (mp - 1)) (sort_scored cands) →
               ranks_before x y) ∧
       clock_reads f' = clock_reads f0 ++ t0 :: reads ∧
       rec_url <$> pages_scraped res = with_scheme url :: recorded ∧
       loop_requests to t0 ({[n]} ∪ visited_urls f0) (priority_links mp cands)
         reads reqs recorded ∧
       reqs `sublist_of` (sc_url <$> priority_links mp cands) ∧
       (∀ c, c ∈ priority_links mp cands →
          sc_url c ∈ reqs
          ∨ Exists (late to t0) reads
          ∨ ∃ u k, u ∈ recorded ∧ normalize_url u = Ok k ∧
                   normalize_url (sc_url c) = Ok k) ∧
       (Forall (in_time to t0) reads →
        ∀ ns, Forall2 (fun c k => normalize_url (sc_url c) = Ok k)
                (priority_links mp cands) ns →
              NoDup ns →
              reqs = sc_url <$> priority_links mp cands)).
Proof.
  intros Hrun.
  apply crawl_website_inv in Hrun
    as (t0 & w0 & parsed & page & w1 & Hclock & Hparse & Hscrape & -> & Hout).
  inversion Hout as
    [page' w1' Hfail
    |page' w1' e f2 Hok Hst
    |page' w1' n name e Hok Hn Hrank
    |page' w1' n name cands r f3 Hok Hn Hrank Hloop]; subst.
  - exists t0, w0, parsed, page, w1, []. split_and!; try done.
  - destruct (store_homepage_run lib (with_scheme url) page
                (after_request (with_scheme url) w1'
                   (entry_frame (with_scheme url) t0 w0 f0)))
      as [(e' & f2' & Hst' & _ & _ & _ & _ & Hf & _) | (n & name & _ & Hst')];
      rewrite Hst' in Hst; [|done]. simplify_eq.
    exists t0, w0, parsed, page, w1, []. split_and!; try done.
  - exists t0, w0, parsed, page, w1, []. split_and!; try done.
  - fold (priority_links mp cands) in Hloop.
    pose proof (kept_candidates_fresh _ _ _ _ mp Hrank) as Hfresh.
    destruct (crawl_pages_trace lib to t0 (priority_links mp cands)
                (home_stored n name (with_scheme url) page
                   (after_request (with_scheme url) w1'
                      (entry_frame (with_scheme url) t0 w0 f0))))
      as (f3' & reads & reqs & recorded & Hloop' & Hf & Hr & Hrec & Herr & Htrace).
    { eapply Forall_impl; [exact Hfresh |]. intros c (k & Hk & _). by exists k. }
    rewrite Hloop' in Hloop. simplify_eq.
    simpl in Htrace.
    exists t0, w0, parsed, page, w1, reqs.
    split_and!; [done | done | done | | |].
    { simpl. rewrite Hf. simpl. by rewrite <- app_assoc. }
    { simpl. rewrite Herr. simpl. by intros [? ?]. }
    intros _. exists n, cands, reads, recorded.
    split_and!; try done.
    + apply sort_scored_perm.
    + apply sort_scored_sorted.
    + intros k. apply sort_scored_stable.
    + intros Hmp.
      assert (Hkept : priority_links mp cands
                      = take (Z.to_nat (mp - 1)) (sort_scored cands)).
      { unfold priority_links. apply slice_to_take. lia. }
      split_and!; [done | |].
      * rewrite Hkept, length_take, (Permutation_length (sort_scored_perm cands)). done.
      * intros x y Hx Hy. rewrite Hkept in Hx.
        eapply sorted_take_drop; [apply sort_scored_sorted | done | done].
    + simpl. rewrite Hr. simpl. by rewrite <- app_assoc.
    + by apply loop_requests_sublist in Htrace as [? _].
    + intros c Hc.
      destruct (loop_requests_complete _ _ _ _ _ _ _ c Htrace Hc)
        as [? | [? | (k & Hk & [Hv | (u & Hu & Hu')])]]; [by left | by right; left | |].
      * rewrite Forall_forall in Hfresh.
        destruct (Hfresh c Hc) as (k' & Hk' & Hv').
        assert (k' = k) as -> by congruence. by destruct Hv'.
      * right. right. by exists u, k.
    + intros Htime ns Hns Hnodup.
      eapply loop_requests_exact; [exact Htrace | done | exact Hns | done |].
      eapply keys_unvisited; [exact Hns |].
      intros c Hc. rewrite Forall_forall in Hfresh. by apply Hfresh.
Qed.

(** C7.  When a candidate that is due (deadline not passed, normalized URL
    not visited) is scraped without success, the loop goes on with the
    remaining candidates from a frame in which the visited set, the
    results (page records, page count, corpus) and the collected signals
    are what they were; only the request log, the clock log and the world
    have moved. *)
Theorem failed_candidate_is_skipped to st score url link_text rest
    (f : Frame W) now w normalized page w2 :
  time_time lib (world f) = (now, w) →
  now - st <= to * 1000 →
  normalize_url url = Ok normalized →
  normalized ∉ visited_urls f →
  scrape_page lib url (after_clock now w f)
    = (Ok page, after_request url w2 (after_clock now w f)) →
  page_success page = false →
  ∃ f1,
    crawl_pages lib to st ((score, url, link_text) :: rest) f
      = crawl_pages lib to st rest f1 ∧
    visited_urls f1 = visited_urls f ∧
    results f1 = results f ∧
    all_signals f1 = all_signals f ∧
    fetched f1 = fetched f ++ [url].
Proof.
  intros Hclock Hintime Hn Hfresh Hscrape Hfail.
  exists (skip_failed lib (after_request url w2 (after_clock now w f))).
  split; [|done]. by eapply crawl_pages_failed.
Qed.

End OrchestratorClaims.

(** ** Facts about the score *)

Section ScoreFacts.

Implicit Types (u x text ctx : str) (k : str).

Lemma score_url_keywords_eq keywords u acc :
  score_url_keywords keywords u acc
  = acc + 10 * Z.of_nat (length (filter (fun k => contains u k = true) keywords)).
Proof.
  revert acc. induction keywords as [|k rest IH]; intros acc; simpl; [lia |].
  rewrite IH, filter_cons. destruct (contains u k) eqn:E.
  - rewrite decide_True by done. simpl length. lia.
  - rewrite decide_False by done. lia.
Qed.

Lemma score_first_match_eq candidates text bonus acc :
  score_first_match candidates text bonus acc
  = acc + first_match_bonus candidates text bonus.
Proof.
  unfold first_match_bonus.
  induction candidates as [|p rest IH]; simpl; [lia |].
  destruct (contains text p); simpl; [done | apply IH].
Qed.

Lemma score_depth_eq u acc : score_depth u acc = acc - depth_penalty u.
Proof. unfold score_depth, depth_penalty. destruct (3 <? _); lia. Qed.

Lemma score_combos_eq combos x acc :
  score_combos combos x acc
  = acc + 25 * Z.of_nat (length (filter
            (fun p => contains x p.1 && contains x p.2 = true) combos)).
Proof.
  revert acc. induction combos as [|[w1 w2] rest IH]; intros acc; simpl; [lia |].
  rewrite IH, filter_cons. simpl. destruct (contains x w1 && contains x w2) eqn:E.
  - rewrite decide_True by done. simpl length. lia.
  - rewrite decide_False by done. lia.
Qed.

(** The score before the floor, term by term. *)
Lemma score_before_floor_eq url text ctx :
  score_before_floor url text ctx
  = 10 * Z.of_nat (length (keywords_in (lower url)))
    + first_match_bonus priority_link_texts (strip (lower text)) 20
    + first_match_bonus priority_keywords (strip (lower ctx)) 5
    - depth_penalty (lower url)
    + 25 * Z.of_nat (length (combos_in (combined_text url text ctx))).
Proof.
  unfold score_before_floor.
  rewrite score_combos_eq, score_depth_eq, !score_first_match_eq, score_url_keywords_eq.
  unfold keywords_in, combos_in, combined_text. lia.
Qed.

Lemma forallb_negb_filter {A} (q : A → bool) (l : list A) :
  forallb (fun a => negb (q a)) l = true → filter (fun a => q a = true) l = [].
Proof.
  induction l as [|a l IH]; simpl; [done |].
  intros [Ha Hl]%andb_true_iff. rewrite filter_cons, decide_False; [by apply IH |].
  by destruct (q a).
Qed.

Lemma forallb_negb_existsb {A} (q : A → bool) (l : list A) :
  forallb (fun a => negb (q a)) l = true → existsb q l = false.
Proof.
  induction l as [|a l IH]; simpl; [done |].
  intros [Ha Hl]%andb_true_iff. rewrite IH by done. by destruct (q a).
Qed.

(** Without any match the score before the floor is the negated depth
    penalty. *)
Lemma no_matches_score url text ctx :
  no_matches url text ctx = true →
  score_before_floor url text ctx = - depth_penalty (lower url).
Proof.
  unfold no_matches. intros H.
  apply andb_true_iff in H as [H Hc]. apply andb_true_iff in H as [H Hx].
  apply andb_true_iff in H as [Hk Ht].
  rewrite score_before_floor_eq. unfold keywords_in, combos_in, first_match_bonus.
  rewrite (forallb_negb_filter _ _ Hk), (forallb_negb_existsb _ _ Ht),
    (forallb_negb_existsb _ _ Hx).
  rewrite (forallb_negb_filter
             (fun p => contains (combined_text url text ctx) p.1
                       && contains (combined_text url text ctx) p.2) _ Hc).
  simpl. lia.
Qed.

(** The floor rule as far as it holds: a non-empty URL without any match
    and with at most three slashes scores 1. *)
Lemma floor_rule_shallow url text ctx :
  no_matches url text ctx = true →
  url ≠ [] →
  count_char "/" (lower url) <= 3 →
  score_url_priority url text ctx = 1.
Proof.
  intros Hno Hne Hdepth. unfold score_url_priority.
  rewrite (no_matches_score _ _ _ Hno). unfold depth_penalty.
  apply Z.ltb_ge in Hdepth as ->. simpl.
  destruct url; [done |]. done.
Qed.

(** A non-empty URL without any match and with more than three slashes
    scores below zero. *)
Lemma floor_rule_deep url text ctx :
  no_matches url text ctx = true →
  3 < count_char "/" (lower url) →
  score_url_priority url text ctx = - ((count_char "/" (lower url) - 3) * 2).
Proof.
  intros Hno Hdepth. unfold score_url_priority.
  rewrite (no_matches_score _ _ _ Hno). unfold depth_penalty.
  pose proof Hdepth as Hd. apply Z.ltb_lt in Hd as ->.
  assert (((- ((count_char "/" (lower url) - 3) * 2)) =? 0) = false) as ->; [|done].
  apply Z.eqb_neq. lia.
Qed.

End ScoreFacts.

(** * The claims about the pure helpers *)

Section HelperClaims.

(** C4.  The code at an input that contradicts the floor rule: the URL is
    same-domain, accepted by [is_valid_url], non-empty and without any
    keyword, phrase, context or combination match, and its four slashes
    make [score_url_priority] return -2 instead of 1. *)
Theorem floor_rule_broken_by_depth :
  let url := s "https://example.com/x/y" in
  is_valid_url url (s "example.com") = Ok true ∧
  url ≠ [] ∧
  no_matches url [] [] = true ∧
  count_char "/" (lower url) = 4 ∧
  score_url_priority url [] [] = -2.
Proof. by vm_compute. Qed.

(** C5, the claim refuted: a second occurrence of the keyword [about] in
    the URL path, everything else unchanged, leaves the score at 10. *)
Lemma second_occurrence_adds_nothing :
  let url := s "https://example.com/about" in
  let url' := s "https://example.com/about-about" in
  occurrences (lower url) (s "about") = 1%nat ∧
  occurrences (lower url') (s "about") = 2%nat ∧
  keywords_in (lower url') = keywords_in (lower url) ∧
  count_char "/" (lower url') = count_char "/" (lower url) ∧
  score_url_priority url [] [] = 10 ∧
  score_url_priority url' [] [] = 10.
Proof. by vm_compute. Qed.

(** C5 (amended).  The URL term of the score is 10 points for every listed
    keyword that occurs at least once in the lower-cased URL.  Hence, for
    fixed link text and context, a URL that contains one listed keyword
    more than another, with the same number of slashes and the same
    matching combinations, has a score before the floor that is higher by
    exactly 10; the returned scores differ by 10 as well unless the floor
    replaces one of them (a score of 0 before the floor). *)
Theorem one_more_keyword_adds_ten url url' text ctx :
  length (keywords_in (lower url')) = S (length (keywords_in (lower url))) →
  count_char "/" (lower url') = count_char "/" (lower url) →
  length (combos_in (combined_text url' text ctx))
    = length (combos_in (combined_text url text ctx)) →
  score_before_floor url' text ctx = score_before_floor url text ctx + 10 ∧
  (score_before_floor url text ctx ≠ 0 →
   score_before_floor url' text ctx ≠ 0 →
   score_url_priority url' text ctx = score_url_priority url text ctx + 10).
Proof.
  intros Hkw Hdepth Hcombo.
  assert (Hpre : score_before_floor url' text ctx = score_before_floor url text ctx + 10).
  { rewrite !score_before_floor_eq, Hkw, Hcombo. unfold depth_penalty.
    rewrite Hdepth. lia. }
  split; [done |]. intros H0 H0'. unfold score_url_priority.
  apply Z.eqb_neq in H0 as ->. apply Z.eqb_neq in H0' as ->. done.
Qed.

(** C8, the claim refuted: a same-domain URL with an ordinary path and a
    non-empty fragment, to which no extension and no pattern other than
    [#] applies, is rejected. *)
Lemma fragment_url_is_rejected :
  let url := s "https://example.com/about#team" in
  (∃ p, urlparse url = Ok p ∧ netloc p = s "example.com" ∧
        path p = s "/about" ∧ fragment p = s "team") ∧
  existsb (fun ext => endswith (s "/about") ext) skip_extensions = false ∧
  filter (fun pattern => contains (lower url) pattern = true) skip_patterns = [s "#"] ∧
  is_valid_url (s "https://example.com/about") (s "example.com") = Ok true ∧
  is_valid_url url (s "example.com") = Ok false.
Proof.
  split; [|by vm_compute]. eexists. split; [by vm_compute |]. by vm_compute.
Qed.

(** C8 (amended).  [is_valid_url] accepts a URL exactly when [urlparse]
    parses it, the base domain occurs in its netloc, its lower-cased path
    ends in none of the listed extensions, and its lower-cased text
    contains none of the listed patterns; every other URL is rejected.
    Since [#] is one of the patterns, every URL with a [#] in it is
    rejected, whatever its fragment. *)
Theorem is_valid_url_accepts_exactly url base_domain :
  (is_valid_url url base_domain = Ok true ↔
     ∃ p, urlparse url = Ok p ∧
          infix_of base_domain (netloc p) ∧
          (∀ ext, ext ∈ skip_extensions → ¬ ext `suffix_of` lower (path p)) ∧
          (∀ pattern, pattern ∈ skip_patterns → ¬ infix_of pattern (lower url)))
  ∧ (is_valid_url url base_domain ≠ Ok true → is_valid_url url base_domain = Ok false)
  ∧ ("#"%char ∈ url → is_valid_url url base_domain = Ok false).
Proof.
  assert (Hex : ∀ (q : str → bool) (l : list str),
            existsb q l = false ↔ ∀ x, x ∈ l → q x = false).
  { intros q l. induction l as [|a l IH]; simpl.
    - split; [intros _ x Hx; inversion Hx | done].
    - rewrite orb_false_iff, IH. split.
      + intros [Ha Hl] x [-> | Hx]%elem_of_cons; auto.
      + intros H. split; [apply H; left | intros x Hx; apply H; by right]. }
  assert (Hnot : ∀ b P, (b = true ↔ P) → (b = false ↔ ¬ P)).
  { intros [] P HP; split; try done.
    - intros HP'. exfalso. by apply HP', HP.
    - intros _ HP'. by apply HP in HP'. }
  split_and!.
  - unfold is_valid_url, is_valid_url_body, try_except, rbind.
    destruct (urlparse url) as [p|e].
    2: { split; [done | by intros (p & ? & _)]. }
    destruct (contains (netloc p) base_domain) eqn:Hdom; cbn [negb].
    2: { split; [done |]. intros (p' & [= <-] & Hin & _).
         apply contains_infix in Hin. congruence. }
    destruct (existsb _ skip_extensions) eqn:Hext.
    { split; [done |]. intros (p' & [= <-] & _ & Hsuf & _). exfalso.
      apply existsb_exists in Hext as (ext & Hin & Hext).
      apply endswith_suffix in Hext. eapply Hsuf; [|done]. by apply list_elem_of_In. }
    destruct (existsb _ skip_patterns) eqn:Hpat.
    { split; [done |]. intros (p' & [= <-] & _ & _ & Hp). exfalso.
      apply existsb_exists in Hpat as (pat & Hin & Hpat).
      apply contains_infix in Hpat. eapply Hp; [|done]. by apply list_elem_of_In. }
    split; [|done]. intros _. exists p. split_and!; [done | by apply contains_infix | |].
    + intros ext Hin. apply (Hnot _ _ (endswith_suffix _ _)).
      by apply (proj1 (Hex _ _) Hext).
    + intros pat Hin. apply (Hnot _ _ (contains_infix _ _)).
      by apply (proj1 (Hex _ _) Hpat).
  - unfold is_valid_url, is_valid_url_body, try_except, rbind.
    destruct (urlparse url) as [p|e]; [|done].
    destruct (negb _); [done |]. destruct (existsb _ skip_extensions); [done |].
    by destruct (existsb _ skip_patterns).
  - intros Hhash. unfold is_valid_url, is_valid_url_body, try_except, rbind.
    destruct (urlparse url) as [p|e]; [|done].
    destruct (negb _); [done |]. destruct (existsb _ skip_extensions); [done |].
    assert (existsb (fun pattern => contains (lower url) pattern) skip_patterns = true) as ->; [|done].
    apply existsb_exists. exists (s "#"). split; [vm_compute; tauto |].
    apply contains_infix. unfold lower.
    apply list_elem_of_split in Hhash as (a & b & ->).
    exists (lower_char <$> a), (lower_char <$> b). by rewrite fmap_app.
Qed.

(** C9, the claim refuted: normalizing the bare domain [example.com] twice
    does not give what normalizing it once gives; and with a [;] in the
    last path segment a trailing slash changes the normalized string. *)
Lemma normalize_url_not_idempotent :
  normalize_url (s "example.com") = Ok (s "://example.com") ∧
  normalize_url (s "://example.com") = Ok (s "://://example.com") ∧
  normalize_url (s "http://a/b;p") = Ok (s "http://a/b") ∧
  normalize_url (s "http://a/b;p/") = Ok (s "http://a/b;p").
Proof. by vm_compute. Qed.

(** C9 (amended).  [normalize_url] is idempotent on every URL that
    [urlparse] gives a scheme and a netloc and whose parsed path has no
    [;]; appending a slash to a URL without [;] does not change what
    [normalize_url] returns; and appending a fragment ([#] and any text)
    to any URL does not change it either. *)
Theorem normalize_url_idempotent_on_absolute :
  (∀ u p, urlparse u = Ok p →
          scheme p ≠ [] → netloc p ≠ [] → has_char ";" (path p) = false →
          ∃ v, normalize_url u = Ok v ∧ normalize_url v = Ok v)
  ∧ (∀ u, has_char ";" u = false → normalize_url (u ++ s "/") = normalize_url u)
  ∧ (∀ u f, normalize_url (u ++ s "#" ++ f) = normalize_url u).
Proof.
  split_and!.
  - intros u p Hp Hs Hn Hprm. exists (normal_form p).
    by apply normalize_url_absolute.
  - apply normalize_url_slash.
  - intros u f. apply normalize_url_fragment.
Qed.

(** The body of the [try] of [is_valid_url] does raise on some strings. *)
Example is_valid_url_body_raises :
  is_valid_url_body (s "https://[example.com/about") (s "example.com")
  = Raise invalid_ipv6.
Proof. by vm_compute. Qed.

(** C10.  [is_valid_url] returns a boolean for every URL and base domain
    and never raises; when the body of its [try] raises, the value is
    [False]. *)
Theorem is_valid_url_total url base_domain :
  ∃ b : bool,
    is_valid_url url base_domain = Ok b ∧
    b = match is_valid_url_body url base_domain with
        | Ok b' => b'
        | Raise _ => false
        end.
Proof.
  unfold is_valid_url, try_except.
  destruct (is_valid_url_body url base_domain) as [b|e]; by eexists.
Qed.

End HelperClaims.

(** * Concrete runs *)

(** The theorems above at inputs over the static web of [Demo], and the
    inputs at which the claims as first stated fail. *)

Section Runs.

Import Demo.

(** C1, the claim refuted: with [max_pages = 0] the homepage and one
    candidate are crawled, so [page_count] is 2. *)
Lemma page_count_exceeds_zero_budget :
  ∃ res f',
    crawl_website (Demo.library Demo.site1 10) 0 30 seed Demo.fresh = (Ok res, f') ∧
    page_count res = 2 ∧
    ¬ page_count res <= 0.
Proof.
  eexists _, _. split; [vm_compute; reflexivity |]. split; [reflexivity |].
  simpl. lia.
Qed.

(** The budget on a run over [site1] with [max_pages = 3]. *)
Lemma page_count_within_budget_witness :
  ∃ res f',
    crawl_website (Demo.library Demo.site1 10) 3 30 seed Demo.fresh = (Ok res, f') ∧
    page_count res = Z.of_nat (length (pages_scraped res)) ∧
    page_count res <= 3.
Proof.
  eexists _, _. split; [vm_compute; reflexivity |].
  edestruct (page_count_within_budget (Demo.library Demo.site1 10) 3 30 seed Demo.fresh)
    as [Hcount Hbudget].
  - vm_compute. reflexivity.
  - split; [exact Hcount | apply Hbudget; lia].
Defined.

(** C2, the claim refuted: the homepage is answered with status 300, which
    is not a 2xx status, and the crawl goes on to a second page and returns
    a result without [error]. *)
Lemma homepage_status_300_is_crawled :
  (∃ response w,
     session_get (Demo.library Demo.site_300 10) home 0 = (Ok response, w) ∧
     status_code response = 300) ∧
  ∃ res f',
    crawl_website (Demo.library Demo.site_300 10) 10 30 seed Demo.fresh = (Ok res, f') ∧
    error res = None ∧
    page_count res = 2 ∧
    fetched f' = [home; s "https://example.com/about"].
Proof.
  split.
  - eexists _, _. split; [vm_compute; reflexivity | reflexivity].
  - eexists _, _. split; [vm_compute; reflexivity |]. by vm_compute.
Qed.

(** Scenario A: the homepage of [example.com] answers 404. *)
Lemma homepage_failure_is_fatal_witness :
  ∃ res f',
    crawl_website (Demo.library Demo.site_404 10) 10 30 seed Demo.fresh = (Ok res, f') ∧
    is_Some (error res) ∧
    page_count res = 0 ∧
    pages_scraped res = [] ∧
    fetched f' = fetched Demo.fresh ++ [with_scheme seed] ∧
    visited_urls f' = visited_urls Demo.fresh.
Proof.
  eapply (homepage_failure_is_fatal (Demo.library Demo.site_404 10) 10 30 seed
            Demo.fresh 0 0).
  - reflexivity.
  - vm_compute. reflexivity.
  - right. left. eexists _, _. split; [vm_compute; reflexivity |]. simpl. lia.
Defined.

(** Scenario C: the homepage is fetched but its text is classified as
    French. *)
Example homepage_non_english :
  ∃ res f',
    crawl_website (Demo.library Demo.site_french 10) 10 30 seed Demo.fresh = (Ok res, f') ∧
    error res = Some (s "Failed to scrape: Non-English content") ∧
    page_count res = 0 ∧
    fetched f' = [home].
Proof. eexists _, _. split; [vm_compute; reflexivity |]. by vm_compute. Qed.

(** The records and the visited set of a run over [site1]. *)
Lemma no_duplicate_visits_witness :
  ∃ res f',
    crawl_website (Demo.library Demo.site1 10) 10 30 seed Demo.fresh = (Ok res, f') ∧
    NoDup (elements (visited_urls f')) ∧
    ∃ ns, pages_keys res ns ∧ NoDup ns ∧ ∀ n, n ∈ ns → n ∈ visited_urls f'.
Proof.
  eexists _, _. split; [vm_compute; reflexivity |].
  eapply (no_duplicate_visits (Demo.library Demo.site1 10) 10 30 seed Demo.fresh).
  vm_compute. reflexivity.
Defined.

(** C6, the claim refuted: [max_pages = 3] and ten valid scored
    candidates.  When the homepage alone takes longer than the timeout, no
    candidate is fetched; and when the two best candidates are links to the
    same page, only that one page is fetched after the homepage. *)
Lemma top_two_not_always_fetched :
  (∃ res f' page f1 cands,
     crawl_website (Demo.library Demo.site_ten 31000) 3 30 seed Demo.fresh = (Ok res, f') ∧
     error res = None ∧
     scrape_page (Demo.library Demo.site_ten 31000) home Demo.fresh = (Ok page, f1) ∧
     score_links {[home]} (s "example.com") (page_links page) [] = Ok cands ∧
     length cands = 10%nat ∧
     fetched f' = [home])
  ∧
  (∃ res f' page f1 cands,
     crawl_website (Demo.library Demo.site_ten_dup 10) 3 30 seed Demo.fresh = (Ok res, f') ∧
     error res = None ∧
     scrape_page (Demo.library Demo.site_ten_dup 10) home Demo.fresh = (Ok page, f1) ∧
     score_links {[home]} (s "example.com") (page_links page) [] = Ok cands ∧
     length cands = 10%nat ∧
     sc_url <$> take 2 (sort_scored cands)
       = [s "https://example.com/team"; s "https://example.com/team"] ∧
     fetched f' = [home; s "https://example.com/team"]).
Proof.
  split.
  - eexists _, _, _, _, _. split; [vm_compute; reflexivity |].
    split; [reflexivity |]. split; [vm_compute; reflexivity |].
    split; [vm_compute; reflexivity |]. by vm_compute.
  - eexists _, _, _, _, _. split; [vm_compute; reflexivity |].
    split; [reflexivity |]. split; [vm_compute; reflexivity |].
    split; [vm_compute; reflexivity |]. by vm_compute.
Qed.

(** The ranking on a run over [site_ten] with [max_pages = 3]: the two best
    candidates are requested after the homepage, in ranking order. *)
Lemma ranked_fetch_order_witness :
  ∃ res f' reqs,
    crawl_website (Demo.library Demo.site_ten 10) 3 30 seed Demo.fresh = (Ok res, f') ∧
    error res = None ∧
    fetched f' = fetched Demo.fresh ++ with_scheme seed :: reqs ∧
    reqs = [s "https://example.com/team"; s "https://example.com/about"].
Proof.
  pose (run := crawl_website (Demo.library Demo.site_ten 10) 3 30 seed Demo.fresh).
  assert (Hrun : run = (Ok (results run.2), run.2)) by (vm_compute; reflexivity).
  assert (Herr : error (results run.2) = None) by (vm_compute; reflexivity).
  destruct (ranked_fetch_order (Demo.library Demo.site_ten 10) 3 30 seed Demo.fresh
              (results run.2) run.2 Hrun)
    as (t0 & w0 & parsed & page & w1 & reqs & _ & _ & _ & Hf & _ & Hrest).
  exists (results run.2), run.2, reqs. split_and!; [exact Hrun | exact Herr | exact Hf |].
  vm_compute in Hf. by injection Hf as <-.
Defined.

(** The loop goes on after a candidate that is passed over: with
    [max_pages = 4] over [site_ten_dup] the kept candidates are the two
    links to the team page and the link to the services page; the second
    link to the team page is not requested, the services page is. *)
Example visited_candidate_is_passed_over :
  ∃ res f' page f1 cands,
    crawl_website (Demo.library Demo.site_ten_dup 10) 4 30 seed Demo.fresh = (Ok res, f') ∧
    scrape_page (Demo.library Demo.site_ten_dup 10) home Demo.fresh = (Ok page, f1) ∧
    score_links {[home]} (s "example.com") (page_links page) [] = Ok cands ∧
    sc_url <$> priority_links 4 cands
      = [s "https://example.com/team"; s "https://example.com/team";
         s "https://example.com/services"] ∧
    fetched f' = [home; s "https://example.com/team"; s "https://example.com/services"].
Proof.
  eexists _, _, _, _, _. split; [vm_compute; reflexivity |].
  split; [vm_compute; reflexivity |]. split; [vm_compute; reflexivity |].
  by vm_compute.
Qed.

(** Scenario D: [max_pages = 3] and ten valid candidates for ten different
    pages; the two best are fetched after the homepage, in ranking order. *)
Example scenario_d :
  ∃ res f',
    crawl_website (Demo.library Demo.site_ten 10) 3 30 seed Demo.fresh = (Ok res, f') ∧
    page_count res = 3 ∧
    fetched f' = [home; s "https://example.com/team"; s "https://example.com/about"].
Proof. eexists _, _. split; [vm_compute; reflexivity |]. by vm_compute. Qed.

(** The loop over [site1] at the candidate that answers 404. *)
Lemma failed_candidate_is_skipped_witness :
  let lib := Demo.library Demo.site1 10 in
  let rest := [(30, s "https://example.com/about", s "About Us")] in
  ∃ f1,
    crawl_pages lib 30 0 ((45, s "https://example.com/down", s "Our Team") :: rest) Demo.fresh
      = crawl_pages lib 30 0 rest f1 ∧
    visited_urls f1 = visited_urls Demo.fresh ∧
    results f1 = results Demo.fresh ∧
    all_signals f1 = all_signals Demo.fresh ∧
    fetched f1 = fetched Demo.fresh ++ [s "https://example.com/down"].
Proof.
  intros lib rest.
  eapply (failed_candidate_is_skipped lib 30 0 45 (s "https://example.com/down")
            (s "Our Team") rest Demo.fresh 0 0 (s "https://example.com/down")
            (failed_page (s "https://example.com/down") (s "Client Error")) 10).
  - reflexivity.
  - lia.
  - vm_compute. reflexivity.
  - apply not_elem_of_empty.
  - vm_compute. reflexivity.
  - reflexivity.
Defined.

End Runs.

Section HelperRuns.

(** From [/info] to [/team] under the link text [About]: 20 becomes 30. *)
Lemma one_more_keyword_adds_ten_witness :
  let url := s "https://example.com/info" in
  let url' := s "https://example.com/team" in
  score_before_floor url' (s "About") [] = score_before_floor url (s "About") [] + 10 ∧
  score_url_priority url' (s "About") [] = score_url_priority url (s "About") [] + 10.
Proof.
  intros url url'.
  destruct (one_more_keyword_adds_ten url url' (s "About") []) as [Hpre Hscore].
  - vm_compute. reflexivity.
  - vm_compute. reflexivity.
  - vm_compute. reflexivity.
  - split; [exact Hpre |]. apply Hscore; vm_compute; discriminate.
Defined.

(** The validator on [/about] with and without a fragment. *)
Lemma is_valid_url_accepts_exactly_witness :
  is_valid_url (s "https://example.com/about#team") (s "example.com") = Ok false ∧
  is_valid_url (s "https://example.com/about") (s "example.com") = Ok true.
Proof.
  destruct (is_valid_url_accepts_exactly (s "https://example.com/about#team")
              (s "example.com")) as (_ & _ & Hhash).
  destruct (is_valid_url_accepts_exactly (s "https://example.com/about")
              (s "example.com")) as (Hiff & _ & _).
  split.
  - apply Hhash. apply list_elem_of_In. vm_compute. tauto.
  - apply Hiff. eexists. split; [vm_compute; reflexivity |]. split_and!.
    + apply contains_infix. vm_compute. reflexivity.
    + intros ext Hext Hsuf. apply endswith_suffix in Hsuf.
      apply list_elem_of_In in Hext. vm_compute in Hext.
      repeat (destruct Hext as [<- | Hext]; [vm_compute in Hsuf; discriminate |]).
      done.
    + intros pat Hpat Hin. apply contains_infix in Hin.
      apply list_elem_of_In in Hpat. vm_compute in Hpat.
      repeat (destruct Hpat as [<- | Hpat]; [vm_compute in Hin; discriminate |]).
      done.
Defined.

(** Normalizing an absolute URL twice, and with a trailing slash. *)
Lemma normalize_url_idempotent_on_absolute_witness :
  (∃ v, normalize_url (s "HTTPS://Example.com/About/#team") = Ok v ∧
        normalize_url v = Ok v) ∧
  normalize_url (s "https://example.com/about" ++ s "/")
    = normalize_url (s "https://example.com/about").
Proof.
  destruct normalize_url_idempotent_on_absolute as (Hidem & Hslash & _).
  split.
  - eapply Hidem.
    + vm_compute. reflexivity.
    + vm_compute. discriminate.
    + vm_compute. discriminate.
    + vm_compute. reflexivity.
  - apply Hslash. vm_compute. reflexivity.
Defined.

End HelperRuns.

(** * Beyond the claims

    Properties of the functions around the claims: the text cleaning, the
    language filter, the signal detection, the page scraper and its link
    extraction, the results of a crawl, the company name, and the entry
    point together with the URL validation of [utils_v4.py]. *)

(** ** Facts about text cleaning *)

Section TextFacts.

Implicit Types (x y : str) (c d : ascii) (q : ascii -> bool) (b : bool).

Lemma contains_cons c x p :
  contains (c :: x) p = startswith (c :: x) p || contains x p.
Proof. done. Qed.

Lemma startswith_cons c x d p :
  startswith (c :: x) (d :: p) = chr_eqb d c && startswith x p.
Proof. done. Qed.

Lemma startswith_app_same p y : startswith (p ++ y) p = true.
Proof. apply startswith_prefix. by exists y. Qed.

Lemma collapse_only_spaces b x :
  Forall (fun c => is_space c = true → c = " "%char) (collapse_whitespace b x).
Proof.
  revert b. induction x as [|c x IH]; intros b; simpl; [constructor |].
  destruct (is_space c) eqn:E.
  - destruct b; [apply IH |]. constructor; [done | apply IH].
  - constructor; [congruence | apply IH].
Qed.

(** After a run of white space the output does not go on with a space, and
    nowhere has it two spaces in a row. *)
Lemma collapse_no_run b x :
  (b = true → startswith (collapse_whitespace b x) [" "%char] = false)
  ∧ contains (collapse_whitespace b x) [" "%char; " "%char] = false.
Proof.
  revert b. induction x as [|c x IH]; intros b; simpl collapse_whitespace.
  { split; [done | done]. }
  destruct (is_space c) eqn:E.
  - destruct b.
    + apply IH.
    + split; [done |]. destruct (IH true) as [Hhd Hin].
      by rewrite contains_cons, startswith_cons, Hhd, Hin.
  - destruct (IH false) as [_ Hin]. split.
    + intros _. rewrite startswith_cons. destruct (chr_eqb " " c) eqn:Ec; [|done].
      apply chr_eqb_eq in Ec as <-. done.
    + rewrite contains_cons, startswith_cons, Hin, orb_false_r.
      destruct (chr_eqb " " c) eqn:Ec; [|done].
      apply chr_eqb_eq in Ec as <-. done.
Qed.

Lemma collapse_words b x :
  filter not_space (collapse_whitespace b x) = filter not_space x.
Proof.
  revert b. induction x as [|c x IH]; intros b; simpl; [done |].
  destruct (is_space c) eqn:E.
  - rewrite (filter_cons_False _ c) by (unfold not_space; congruence).
    destruct b; [apply IH |]. rewrite filter_cons_False by done. apply IH.
  - by rewrite !filter_cons_True, IH by done.
Qed.

Lemma collapse_length b x : (length (collapse_whitespace b x) <= length x)%nat.
Proof.
  revert b. induction x as [|c x IH]; intros b; simpl; [done |].
  pose proof (IH true). pose proof (IH false).
  destruct (is_space c); [destruct b|]; simpl; lia.
Qed.

(** Text in which all white space is single spaces is left as it is. *)
Lemma collapse_fixed b x :
  Forall (fun c => is_space c = true → c = " "%char) x →
  (b = true → startswith x [" "%char] = false) →
  contains x [" "%char; " "%char] = false →
  collapse_whitespace b x = x.
Proof.
  revert b. induction x as [|c x IH]; intros b Hall Hhd Hin; simpl; [done |].
  apply Forall_cons in Hall as [Hc Hall].
  rewrite contains_cons, startswith_cons in Hin.
  apply orb_false_iff in Hin as [Hrun Hin].
  destruct (is_space c) eqn:E.
  - rewrite Hc in * by done. destruct b.
    + by specialize (Hhd eq_refl).
    + f_equal. apply IH; [done | | done]. intros _. exact Hrun.
  - f_equal. by apply IH.
Qed.

Lemma lstrip_head q x c y : lstrip q x = c :: y → q c = false.
Proof.
  induction x as [|d x IH]; simpl; [done |].
  destruct (q d) eqn:E; [done |]. by intros [= <- <-].
Qed.

Lemma lstrip_id q x :
  match x with c :: _ => q c = false | [] => True end → lstrip q x = x.
Proof. destruct x as [|c x]; simpl; [done |]. by intros ->. Qed.

Lemma lstrip_words q x :
  filter (fun c => q c = false) (lstrip q x) = filter (fun c => q c = false) x.
Proof.
  induction x as [|c x IH]; simpl; [done |].
  destruct (q c) eqn:E; [|done].
  by rewrite filter_cons_False by congruence.
Qed.

Lemma filter_rev {A} (P : A → Prop) `{!∀ a, Decision (P a)} (l : list A) :
  filter P (rev l) = rev (filter P l).
Proof.
  induction l as [|a l IH]; simpl; [done |].
  rewrite filter_app, IH, filter_cons. destruct (decide (P a)).
  - by rewrite filter_cons_True.
  - rewrite filter_cons_False by done. simpl. by rewrite app_nil_r.
Qed.

Lemma rstrip_words q x :
  filter (fun c => q c = false) (rstrip q x) = filter (fun c => q c = false) x.
Proof.
  unfold rstrip. by rewrite filter_rev, lstrip_words, filter_rev, rev_involutive.
Qed.

Lemma rstrip_last q x y c : rstrip q x = y ++ [c] → q c = false.
Proof.
  unfold rstrip. intros H. apply (f_equal (@rev _)) in H.
  rewrite rev_involutive, rev_unit in H. by eapply lstrip_head.
Qed.

Lemma strip_infix x : ∃ front back, x = front ++ strip x ++ back.
Proof.
  unfold strip. destruct (lstrip_suffix is_space x) as [front Hfront].
  destruct (rstrip_prefix is_space (lstrip is_space x)) as [back Hback].
  exists front, back. by rewrite <- Hback.
Qed.

Lemma strip_head x c y : strip x = c :: y → is_space c = false.
Proof.
  unfold strip. intros H.
  destruct (rstrip_prefix is_space (lstrip is_space x)) as [k Hk].
  rewrite H in Hk. by eapply lstrip_head.
Qed.

Lemma strip_last x y c : strip x = y ++ [c] → is_space c = false.
Proof. apply rstrip_last. Qed.

Lemma strip_words x : filter not_space (strip x) = filter not_space x.
Proof. unfold strip, not_space. by rewrite rstrip_words, lstrip_words. Qed.

Lemma strip_length x : (length (strip x) <= length x)%nat.
Proof.
  destruct (strip_infix x) as (front & back & H). rewrite H at 2.
  rewrite !length_app. lia.
Qed.

Lemma infix_of_strip p x : infix_of p (strip x) → infix_of p x.
Proof.
  intros (a & b' & H). destruct (strip_infix x) as (front & back & Hx).
  exists (front ++ a), (b' ++ back). rewrite Hx at 1. rewrite H.
  by rewrite <- !app_assoc.
Qed.

(** A string without white space at either end is left as it is. *)
Lemma strip_fixed x :
  (∀ c y, x = c :: y → is_space c = false) →
  (∀ c y, x = y ++ [c] → is_space c = false) →
  strip x = x.
Proof.
  intros Hhd Hlast. unfold strip. rewrite lstrip_id.
  - unfold rstrip. rewrite lstrip_id; [apply rev_involutive |].
    destruct (rev x) as [|c r] eqn:E; [done |].
    apply (Hlast c (rev r)). by rewrite <- (rev_involutive x), E.
  - destruct x as [|c y]; [done |]. by eapply Hhd.
Qed.

Lemma strip_idem x : strip (strip x) = strip x.
Proof.
  apply strip_fixed; [intros c y; apply strip_head | intros c y; apply strip_last].
Qed.

Lemma strip_app_fixed a x :
  (∀ c y, a = c :: y → is_space c = false) →
  (∀ c y, a = y ++ [c] → is_space c = false) →
  a ≠ [] →
  strip (a ++ strip x) = a ++ strip x.
Proof.
  intros Hhd Hlast Hne. apply strip_fixed.
  - intros c y H. destruct a as [|c' a']; [done |]. simplify_eq/=. by eapply Hhd.
  - intros c y H. destruct (strip x) as [|d z] eqn:E using rev_ind.
    + rewrite app_nil_r in H. by eapply Hlast.
    + rewrite app_assoc in H. apply app_inj_tail in H as [_ <-].
      by eapply strip_last.
Qed.

(** The shape of cleaned text. *)
Lemma clean_text_shape raw :
  let text := strip (collapse_whitespace false raw) in
  Forall (fun c => is_space c = true → c = " "%char) text ∧
  ¬ infix_of (s "  ") text ∧
  (∀ c rest, text = c :: rest → is_space c = false) ∧
  (∀ c front, text = front ++ [c] → is_space c = false).
Proof.
  split_and!.
  - destruct (strip_infix (collapse_whitespace false raw)) as (front & back & H).
    pose proof (collapse_only_spaces false raw) as Hall. rewrite H in Hall.
    by apply Forall_app in Hall as [_ [Hall _]%Forall_app].
  - intros Hin%infix_of_strip%contains_infix.
    destruct (collapse_no_run false raw) as [_ Hno].
    change (s "  ") with [" "%char; " "%char] in Hin. congruence.
  - intros c rest. apply strip_head.
  - intros c front. apply strip_last.
Qed.

End TextFacts.

(** ** The text of a page, the language filter and the signals *)

Section TextTheorems.

Context {W Soup : Type}.
Variable lib : Library W Soup.

Implicit Types (f : Frame W) (text : str).

(** X5.  The text [extract_text_from_html] returns is in normal form:
    every white-space character of it is a space, no two spaces follow
    each other, and it neither starts nor ends with white space. *)
Theorem extracted_text_single_spaced soup :
  let text := (extract_text_from_html lib soup).1 in
  Forall (fun c => is_space c = true → c = " "%char) text ∧
  ¬ infix_of (s "  ") text ∧
  (∀ c rest, text = c :: rest → is_space c = false) ∧
  (∀ c front, text = front ++ [c] → is_space c = false).
Proof. apply clean_text_shape. Qed.

(** X6.  Cleaning touches white space only: the characters of the returned
    text that are not white space are those of [soup.get_text(...)], in
    order; the text is not longer than what [get_text] gave; and cleaning
    the returned text again changes nothing. *)
Theorem extracted_text_keeps_words soup :
  let raw := get_text lib (decompose_unwanted lib soup) in
  let text := (extract_text_from_html lib soup).1 in
  filter not_space text = filter not_space raw ∧
  len text <= len raw ∧
  strip (collapse_whitespace false text) = text.
Proof.
  intros raw text.
  destruct (clean_text_shape raw) as (Hall & Hrun & Hhd & Hlast).
  change (strip (collapse_whitespace false raw)) with text in Hall, Hrun, Hhd, Hlast.
  split_and!.
  - unfold text, extract_text_from_html. simpl. by rewrite strip_words, collapse_words.
  - unfold text, extract_text_from_html, len. simpl. fold raw.
    pose proof (strip_length (collapse_whitespace false raw)).
    pose proof (collapse_length false raw). lia.
  - rewrite collapse_fixed; [by apply strip_fixed | done | done |].
    destruct (contains text _) eqn:E; [|done].
    by apply contains_infix in E.
Qed.

(** X2.  [is_english] case by case.  A text with fewer than 50 characters
    after stripping (an empty text too) is taken for English without the
    detector being called.  The answer is [False] exactly when the text is
    longer and the detector, called on the stripped first 200 characters,
    names a language other than [en].  And [is_english] raises exactly
    when the detector raises something other than [LangDetectException]
    (on which the answer is [True]). *)
Theorem is_english_cases text f :
  (len (strip text) < 50 → is_english lib text f = (Ok true, f)) ∧
  (∀ f', is_english lib text f = (Ok false, f') ↔
     50 <= len (strip text) ∧
     ∃ lang w, detect lib (strip (slice_to 200 text)) (world f) = (Ok lang, w) ∧
               lang ≠ s "en" ∧ f' = set_world w f) ∧
  (∀ e f', is_english lib text f = (Raise e, f') ↔
     50 <= len (strip text) ∧
     (∀ msg, e ≠ LangDetectException msg) ∧
     ∃ w, detect lib (strip (slice_to 200 text)) (world f) = (Raise e, w) ∧
          f' = set_world w f).
Proof.
  unfold is_english.
  destruct (len (strip text) <? 50) eqn:Hshort.
  { apply Z.ltb_lt in Hshort. rewrite orb_true_r. unfold ret.
    split_and!; [done | |]; intros; split; try done; intros [? _]; lia. }
  apply Z.ltb_ge in Hshort.
  assert ((len text =? 0) = false) as ->.
  { apply Z.eqb_neq. intros H. destruct text; [|done].
    vm_compute in Hshort. by apply Hshort. }
  unfold try_catch, bind, io, ret, raise. cbn [orb]. cbv beta iota zeta.
  destruct (detect lib _ (world f)) as [[lang|e] w] eqn:Hdet; simpl.
  - split_and!; [lia | |].
    + intros f'. split.
      * intros [= Hl <-]. split; [done |]. exists lang, w. split_and!; try done.
        by apply bool_decide_eq_false in Hl.
      * intros (_ & lang' & w' & [= <- <-] & Hl & ->).
        by rewrite bool_decide_eq_false_2.
    + intros e f'. split; [done |]. by intros (_ & _ & w' & [=] & _).
  - split_and!; [lia | |].
    + intros f'. split; [by destruct e |]. by intros (_ & lang' & w' & [=] & _).
    + intros e' f'. split.
      * destruct e; intros [= <- <-]; (split; [done |]); (split; [done |]); by exists w.
      * intros (_ & Hne & w' & [= <- <-] & ->). destruct e; try done.
        by destruct (Hne msg).
Qed.

(** The detection loop: a name is stored with the matches of one of its
    patterns, when there are any, and otherwise keeps what it had. *)
Lemma detect_signals_loop_spec patterns text_lower detected name ms :
  NoDup patterns.*1 →
  detect_signals_loop lib patterns text_lower detected !! name = Some ms ↔
  (ms ≠ [] ∧ ∃ pattern, (name, pattern) ∈ patterns
                        ∧ ms = re_findall lib pattern text_lower)
  ∨ ((∀ pattern, (name, pattern) ∈ patterns → re_findall lib pattern text_lower = [])
     ∧ detected !! name = Some ms).
Proof.
  revert detected. induction patterns as [|[n p] rest IH]; intros detected Hnd; simpl.
  { split; [intros H; right; split; [intros ? Hin; inversion Hin | done] |].
    intros [(_ & ? & Hin & _) | [_ H]]; [inversion Hin | done]. }
  apply NoDup_cons in Hnd as [Hn Hnd]. simpl in Hn.
  rewrite IH by done. clear IH.
  assert (Hrest : ∀ pattern, (n, pattern) ∈ rest → False).
  { intros pattern Hin. apply Hn. apply list_elem_of_fmap. by exists (n, pattern). }
  split.
  - intros [(Hne & pattern & Hin & ->) | [Hnone Hd]].
    + left. split; [done |]. exists pattern. split; [by right | done].
    + destruct (re_findall lib p text_lower) as [|m ms'] eqn:Hm.
      * right. split; [|done]. intros pattern [[= -> ->] | Hin]%elem_of_cons; auto.
      * destruct (decide (n = name)) as [-> | Hneq].
        -- rewrite lookup_insert_eq in Hd. simplify_eq. left. split; [done |].
           exists p. split; [left | done].
        -- rewrite lookup_insert_ne in Hd by done. right. split; [|done].
           intros pattern [[= -> ->] | Hin]%elem_of_cons; [done | auto].
  - intros [(Hne & pattern & [[= -> ->] | Hin]%elem_of_cons & ->) | [Hnone Hd]].
    + right. split; [intros pattern Hin; by destruct (Hrest pattern) |].
      destruct (re_findall lib p text_lower) eqn:Hm; [done |].
      by rewrite lookup_insert_eq.
    + left. split; [done |]. by exists pattern.
    + right. split; [intros pattern Hin; apply Hnone; by right |].
      destruct (decide (n = name)) as [-> | Hneq].
      * rewrite (Hnone p) by left. done.
      * destruct (re_findall lib p text_lower); [done |].
        by rewrite lookup_insert_ne.
Qed.

Lemma enterprise_patterns_nodup : NoDup enterprise_patterns.*1.
Proof. apply (bool_decide_unpack _). by vm_compute. Qed.

(** X1.  [detect_enterprise_signals] stores a signal name exactly when it
    is one of the eight listed names and its pattern has at least one
    match in the lower-cased text; what is stored under the name is the
    list of these matches. *)
Theorem detect_enterprise_signals_spec text name ms :
  detect_enterprise_signals lib text !! name = Some ms ↔
  ms ≠ [] ∧
  ∃ pattern, (name, pattern) ∈ enterprise_patterns
             ∧ ms = re_findall lib pattern (lower text).
Proof.
  unfold detect_enterprise_signals.
  rewrite detect_signals_loop_spec by apply enterprise_patterns_nodup.
  split; [|by left]. intros [H | [_ H]]; [done |]. by rewrite lookup_empty in H.
Qed.

End TextTheorems.

(** ** The page scraper *)

Section PageFacts.

Context {W Soup : Type}.
Variable lib : Library W Soup.

Implicit Types (f g : Frame W) (url : str) (page : Page Soup).

(** The link loop makes one entry for each anchor with a non-empty [href],
    in the order of the anchors. *)
Lemma collect_links_spec url anchors acc links :
  collect_links lib url anchors acc = Ok links →
  ∃ new, links = acc ++ new ∧
         Forall2 (link_of lib url) (filter has_href anchors) new.
Proof.
  revert acc. induction anchors as [|a rest IH]; intros acc; simpl.
  { intros [= <-]. exists []. by rewrite app_nil_r. }
  destruct (anchor_href a) as [|c href] eqn:Hhref.
  - change (len [] =? 0) with true. cbv iota.
    rewrite filter_cons_False by (unfold has_href; rewrite Hhref; intros H; by apply H).
    apply IH.
  - assert ((len (c :: href) =? 0) = false) as ->
      by (apply Z.eqb_neq; unfold len; simpl; lia).
    rewrite filter_cons_True by (unfold has_href; by rewrite Hhref).
    destruct (urljoin lib url (c :: href)) as [absolute_url|e] eqn:Hjoin; simpl; [|done].
    intros (new & -> & Hnew)%IH. eexists. split; [by rewrite <- app_assoc |].
    simpl. constructor; [|done]. unfold link_of. simpl. by rewrite Hhref.
Qed.

(** The link loop raises as soon as [urljoin] does. *)
Lemma collect_links_raises url anchors acc a e :
  a ∈ anchors → has_href a → urljoin lib url (anchor_href a) = Raise e →
  ∃ e', collect_links lib url anchors acc = Raise e'.
Proof.
  intros Hin Hhref Hjoin. revert acc.
  induction anchors as [|a' rest IH]; intros acc; [inversion Hin |]. simpl.
  destruct (len (anchor_href a') =? 0) eqn:Hlen.
  - apply elem_of_cons in Hin as [<- | Hin]; [|by apply IH].
    apply Z.eqb_eq in Hlen. unfold has_href in Hhref.
    destruct (anchor_href a); [done | unfold len in Hlen; simpl in Hlen; lia].
  - destruct (urljoin lib url (anchor_href a')) as [u|e'] eqn:Hj; simpl; [|by eexists].
    apply elem_of_cons in Hin as [<- | Hin]; [congruence | by apply IH].
Qed.

(** What [scrape_page] returns, path by path. *)
Lemma scrape_page_cases url f :
  ∃ page w,
    scrape_page lib url f = (Ok page, after_request url w f) ∧
    ((∃ err, page = failed_page url err)
     ∨ (∃ response w1 soup ls,
          session_get lib url (world f) = (Ok response, w1) ∧
          raise_for_status lib response = Ok tt ∧
          BeautifulSoup lib (content response) = Ok soup ∧
          is_english lib (extract_text_from_html lib soup).1
            (set_world w1 (log_request url f)) = (Ok true, after_request url w f) ∧
          collect_links lib url
            (find_all_anchors lib (extract_text_from_html lib soup).2) []
            = Ok ls ∧
          page = scraped lib url soup ls)).
Proof.
  unfold scrape_page, try_catch, bind at 1, do_session_get, bind at 1, modify, io.
  simpl. destruct (session_get lib url (world f)) as [[response|e] w1]; simpl.
  2: { eexists _, w1. split; [done |]. left. by eexists. }
  unfold bind at 1, lift.
  destruct (raise_for_status lib response) as [[]|e] eqn:Hst; simpl.
  2: { eexists _, w1. split; [done |]. left. by eexists. }
  unfold bind at 1.
  destruct (BeautifulSoup lib (content response)) as [soup|e] eqn:Hsoup; simpl.
  2: { eexists _, w1. split; [done |]. left. by eexists. }
  unfold bind at 1.
  destruct (is_english_frame lib
    (strip (collapse_whitespace false (get_text lib (decompose_unwanted lib soup))))
    (set_world w1 (log_request url f))) as (r & w2 & Heng).
  rewrite Heng.
  destruct r as [[]|e]; simpl.
  - unfold bind, lift. destruct (collect_links _ _ _) as [links|e] eqn:Hlinks; simpl.
    + eexists _, w2. split; [done |]. right. exists response, w1, soup, links.
      split_and!; try done.
    + eexists _, w2. split; [done |]. left. by eexists.
  - eexists _, w2. split; [done |]. left. by eexists.
  - eexists _, w2. split; [done |]. left. by eexists.
Qed.

End PageFacts.

Section PageTheorems.

Context {W Soup : Type}.
Variable lib : Library W Soup.

Implicit Types (f g : Frame W) (url : str) (page : Page Soup).

(** X9.  [scrape_page] never raises: for every URL and every state it
    returns a dict for that URL after exactly one request, with the
    visited set, the results and the signals untouched.  A successful dict
    carries the parsed document and the signals and no [error]; a failed
    one has empty text, no links, no document and an [error]. *)
Theorem scrape_page_never_raises url f :
  ∃ page w,
    scrape_page lib url f = (Ok page, after_request url w f) ∧
    page_url page = url ∧
    if page_success page
    then is_Some (page_soup page) ∧ page_error page = None
         ∧ is_Some (page_signals page)
    else page_text page = [] ∧ page_links page = [] ∧ page_soup page = None
         ∧ is_Some (page_error page) ∧ page_signals page = None.
Proof.
  destruct (scrape_page_cases lib url f)
    as (page & w & Hscrape
        & [(err & ->) | (response & w1 & soup & ls & _ & _ & _ & _ & _ & ->)]);
    eexists _, w; (split; [exact Hscrape |]); simpl; by split_and!.
Qed.

(** X10.  A successful page was answered with a status outside 400..599,
    its body was parsed, its text is the cleaned text of the document and
    passed the language filter, and its signals are those detected in that
    text. *)
Theorem successful_page_content url f page f' :
  scrape_page lib url f = (Ok page, f') →
  page_success page = true →
  ∃ response w soup,
    session_get lib url (world f) = (Ok response, w) ∧
    ¬ (400 <= status_code response < 600) ∧
    BeautifulSoup lib (content response) = Ok soup ∧
    page_text page = (extract_text_from_html lib soup).1 ∧
    is_english lib (page_text page) (after_request url w f) = (Ok true, f') ∧
    page_signals page = Some (detect_enterprise_signals lib (page_text page)).
Proof.
  intros Hrun Hok.
  destruct (scrape_page_cases lib url f)
    as (page' & w & Hscrape
        & [(err & ->)
          | (response & w1 & soup & ls & Hget & Hst & Hsoup & Heng & _ & ->)]);
    rewrite Hscrape in Hrun; simplify_eq.
  exists response, w1, soup. split_and!; try done.
  unfold raise_for_status in Hst. intros Hrange.
  destruct (_ || _) eqn:E; [done |].
  apply orb_false_iff in E as [E1 E2].
  apply andb_false_iff in E1 as [E1 | E1], E2 as [E2 | E2];
    rewrite ?Z.leb_gt, ?Z.ltb_ge in E1, E2; lia.
Qed.

(** X11.  The links of a successful page: one entry for each anchor of the
    document that has a non-empty [href], in document order, with the
    [href] joined to the page URL, the text of the anchor, and a context
    of at most 100 characters. *)
Theorem successful_page_links url f page f' :
  scrape_page lib url f = (Ok page, f') →
  page_success page = true →
  ∃ soup,
    page_soup page = Some soup ∧
    Forall2 (link_of lib url) (filter has_href (find_all_anchors lib soup))
      (page_links page) ∧
    Forall (fun l => len (link_context l) <= 100) (page_links page).
Proof.
  intros Hrun Hok.
  destruct (scrape_page_cases lib url f)
    as (page' & w & Hscrape
        & [(err & ->) | (response & w1 & soup & ls & _ & _ & _ & _ & Hlinks & ->)]);
    rewrite Hscrape in Hrun; simplify_eq.
  apply collect_links_spec in Hlinks as (new & -> & Hnew).
  eexists. split; [done |]. simpl. split; [done |].
  clear Hscrape Hok.
  induction Hnew as [|a l anchors links (_ & _ & Hctx) _ IH]; [constructor |].
  constructor; [|done]. rewrite Hctx.
  destruct (anchor_parent_text a); [|done]. by apply slice_to_length.
Qed.

(** X12.  One anchor whose [href] makes [urljoin] raise loses the whole
    page: [scrape_page] returns a failed dict, with empty text and no
    links, although the page was fetched and parsed. *)
Theorem bad_href_fails_page url f response w soup a e :
  session_get lib url (world f) = (Ok response, w) →
  BeautifulSoup lib (content response) = Ok soup →
  a ∈ find_all_anchors lib (extract_text_from_html lib soup).2 →
  has_href a →
  urljoin lib url (anchor_href a) = Raise e →
  ∃ page f',
    scrape_page lib url f = (Ok page, f') ∧
    page_success page = false ∧ page_text page = [] ∧ page_links page = [].
Proof.
  intros Hget Hsoup Hin Hhref Hjoin.
  destruct (scrape_page_cases lib url f)
    as (page & w' & Hscrape
        & [(err & ->)
          | (response' & w1 & soup' & ls & Hget' & _ & Hsoup' & _ & Hlinks & ->)]).
  - by eexists _, _.
  - rewrite Hget in Hget'. simplify_eq.
    destruct (collect_links_raises lib url _ [] a e Hin Hhref Hjoin) as (e' & He).
    congruence.
Qed.

End PageTheorems.

(** ** The paths of a crawl *)

Section PathFacts.

Context {W Soup : Type}.
Variable lib : Library W Soup.

Implicit Types (f g : Frame W) (url : str) (page : Page Soup).

(** A property of the visited set, the results and the signals that every
    recorded page preserves holds after the loop; and the loop over
    candidates whose URLs normalize does not raise. *)
Lemma crawl_pages_invariant (I : Frame W → Prop) to st links f :
  (∀ f g, same_data f g → I f → I g) →
  (∀ c n soup ls f,
      c ∈ links → normalize_url (sc_url c) = Ok n → n ∉ visited_urls f →
      I f →
      I (record_success lib n (sc_url c) c.2 (scraped lib (sc_url c) soup ls) f)) →
  Forall (fun c => ∃ n, normalize_url (sc_url c) = Ok n) links →
  I f →
  ∃ f', crawl_pages lib to st links f = (Ok tt, f') ∧ I f'.
Proof.
  intros Hsame. revert f.
  induction links as [|[[score url] link_text] rest IH]; intros f Hstep Hnorm HI.
  { by exists f. }
  apply Forall_cons in Hnorm as [(n & Hn) Hnorm]. simpl in Hn.
  assert (Hstep' : ∀ c n soup ls f,
             c ∈ rest → normalize_url (sc_url c) = Ok n → n ∉ visited_urls f →
             I f →
             I (record_success lib n (sc_url c) c.2 (scraped lib (sc_url c) soup ls) f)).
  { intros c ? ? ? ? Hc. apply Hstep. by right. }
  destruct (time_time lib (world f)) as [now w] eqn:Hclock.
  destruct (Z.lt_ge_cases (to * 1000) (now - st)) as [Hlate | Hintime].
  { exists (after_clock now w f).
    rewrite (crawl_pages_timeout lib _ _ _ _ _ _ _ _ _ Hclock Hlate).
    split; [done |]. by apply (Hsame f). }
  destruct (decide (n ∈ visited_urls f)) as [Hseen | Hfresh].
  { rewrite (crawl_pages_visited lib _ _ _ _ _ _ _ _ _ Hclock Hintime _ Hn Hseen).
    apply IH; [done | done |]. by apply (Hsame f). }
  destruct (scrape_page_cases lib url (after_clock now w f))
    as (page & w2 & Hscrape
        & [(err & ->) | (response & w1 & soup & ls & _ & _ & _ & _ & _ & ->)]).
  - rewrite (crawl_pages_failed lib _ _ _ _ _ _ _ _ _ Hclock Hintime _ Hn Hfresh
               _ _ Hscrape eq_refl).
    apply IH; [done | done |]. by apply (Hsame f).
  - rewrite (crawl_pages_success lib _ _ _ _ _ _ _ _ _ Hclock Hintime _ Hn Hfresh
               _ _ Hscrape eq_refl).
    apply IH; [done | done |].
    apply (Hstep (score, url, link_text) n soup _
             (after_request url w2 (after_clock now w f))); [left | done | done |].
    by apply (Hsame f).
Qed.

(** The kept candidates have unvisited normalized URLs and are accepted by
    [is_valid_url]. *)
Lemma priority_links_normalize (v : gset str) base ls cands mp :
  score_links v base ls [] = Ok cands →
  Forall (fun c => ∃ n, normalize_url (sc_url c) = Ok n ∧ (n ∉ v)
                        ∧ is_valid_url (sc_url c) base = Ok true)
    (priority_links mp cands).
Proof.
  intros (new & -> & Hnew)%score_links_spec. apply Forall_forall.
  intros c Hc%slice_sorted_subset. rewrite Forall_forall in Hnew.
  destruct (Hnew c Hc) as (n & ? & ? & ? & _). by exists n.
Qed.

(** Every candidate is made from one of the links. *)
Lemma score_links_origin (v : gset str) base links acc cands c :
  score_links v base links acc = Ok cands →
  c ∈ cands →
  c ∈ acc ∨ ∃ link, link ∈ links ∧ sc_url c = link_url link.
Proof.
  revert acc. induction links as [|link rest IH]; intros acc; simpl.
  { intros [= <-]. by left. }
  assert (Hrest : ∀ acc', score_links v base rest acc' = Ok cands → c ∈ cands →
            (c ∈ acc' → c ∈ acc ∨ sc_url c = link_url link) →
            c ∈ acc ∨ ∃ l, l ∈ link :: rest ∧ sc_url c = link_url l).
  { intros acc' Hrun Hc Hacc. destruct (IH acc' Hrun Hc) as [Hin | (l & Hl & Hu)].
    - destruct (Hacc Hin) as [? | ?]; [by left |].
      right. exists link. split; [left | done].
    - right. exists l. split; [by right | done]. }
  destruct (normalize_url (link_url link)) as [n|e]; simpl; [|done].
  destruct (bool_decide (n ∈ v)); [intros; eapply Hrest; eauto |].
  destruct (is_valid_url (link_url link) base) as [[]|e]; simpl;
    [| intros; eapply Hrest; eauto | done].
  destruct (0 <? _); [| intros; eapply Hrest; eauto].
  intros Hrun Hc. eapply Hrest; [done | done |].
  intros [Hin | ->%list_elem_of_singleton]%elem_of_app; [by left | by right].
Qed.

(** The scoring loop raises only where [normalize_url] does. *)
Lemma score_links_raises (v : gset str) base links acc e :
  score_links v base links acc = Raise e →
  ∃ link, link ∈ links ∧ normalize_url (link_url link) = Raise e.
Proof.
  revert acc. induction links as [|link rest IH]; intros acc; simpl; [done |].
  destruct (normalize_url (link_url link)) as [n|e'] eqn:Hn; simpl.
  2: { intros [= ->]. exists link. split; [left | done]. }
  assert (Hrest : ∀ acc', score_links v base rest acc' = Raise e →
            ∃ l, l ∈ link :: rest ∧ normalize_url (link_url l) = Raise e).
  { intros acc' (l & Hl & He)%IH. exists l. split; [by right | done]. }
  destruct (bool_decide (n ∈ v)); [apply Hrest |].
  unfold is_valid_url, try_except.
  destruct (is_valid_url_body (link_url link) base) as [[]|e']; simpl;
    [| apply Hrest | apply Hrest].
  destruct (0 <? _); apply Hrest.
Qed.

Lemma store_homepage_scraped start soup ls f n :
  normalize_url start = Ok n →
  store_homepage lib start (scraped lib start soup ls) f =
  match extract_company_name lib (extract_text_from_html lib soup).2 start with
  | Ok name => (Ok tt, home_stored n name start (scraped lib start soup ls) f)
  | Raise e => (Raise e, f)
  end.
Proof.
  intros Hn. unfold store_homepage, home_stored, scraped, extract_text_from_html.
  unfold bind, lift, update_results, modify, collect_signals. cbn.
  destruct (extract_company_name lib (decompose_unwanted lib soup) start) as [name|e];
    [|done].
  by rewrite Hn.
Qed.

Lemma normalize_url_parsed u p : urlparse u = Ok p → normalize_url u = Ok (normal_form p).
Proof. intros H. by rewrite normalize_url_eq, H. Qed.

(** Every run of [crawl_website] from a start URL that parses follows one
    of the paths. *)
Lemma crawl_website_paths mp to url f0 t0 w0 parsed :
  time_time lib (world f0) = (t0, w0) →
  urlparse (with_scheme url) = Ok parsed →
  ∃ page w1 f',
    scrape_page lib (with_scheme url) (entry_frame (with_scheme url) t0 w0 f0)
      = (Ok page, after_request (with_scheme url) w1
                    (entry_frame (with_scheme url) t0 w0 f0)) ∧
    crawl_website lib mp to url f0 = (Ok (results f'), f') ∧
    crawl_path lib mp to t0 (with_scheme url) (netloc parsed) (normal_form parsed)
      (after_request (with_scheme url) w1 (entry_frame (with_scheme url) t0 w0 f0))
      page f'.
Proof.
  intros Hclock Hparse.
  pose proof (normalize_url_parsed _ _ Hparse) as Hn.
  set (start := with_scheme url) in *.
  destruct (scrape_page_cases lib start (entry_frame start t0 w0 f0))
    as (page & w1 & Hscrape & Hcases).
  exists page, w1.
  unfold crawl_website. fold (with_scheme url). fold start.
  unfold bind at 1, read_clock. rewrite Hclock.
  change (log_clock t0 (set_world w0 f0)) with (after_clock t0 w0 f0).
  unfold bind at 1, lift. rewrite Hparse.
  unfold bind at 1, modify. unfold bind at 1. unfold bind at 1.
  fold (entry_frame start t0 w0 f0).
  unfold try_catch, crawl_body. unfold bind at 1. rewrite Hscrape.
  destruct Hcases
    as [(err & ->) | (response & w' & soup & ls & _ & _ & _ & _ & Hlinks & ->)].
  { eexists. split_and!; [done | done | apply HomepageFailed]. }
  change (negb (page_success (scraped lib start soup ls))) with false. cbv iota.
  unfold bind at 1. rewrite (store_homepage_scraped _ _ _ _ _ Hn).
  destruct (extract_company_name lib _ start) as [name|e] eqn:Hname.
  2: { eexists. split_and!; [done | done | by apply NameRaised]. }
  unfold bind at 1. rewrite rank_links_eq. simpl visited_urls. simpl page_links.
  destruct (score_links _ _ _ _) as [cands|e] eqn:Hrank.
  2: { eexists. split_and!; [done | done | by apply LinkRaised]. }
  unfold bind at 1.
  destruct (crawl_pages_invariant (fun _ => True) to t0
              (slice_to (mp - 1) (sort_scored cands))
              (home_stored (normal_form parsed) name start
                 (scraped lib start soup ls)
                 (after_request start w1 (entry_frame start t0 w0 f0))))
    as (f3 & Hloop & _); [done | done | | done |].
  { eapply Forall_impl; [by eapply (priority_links_normalize _ _ _ _ mp) |].
    intros c (n & ? & _). by exists n. }
  rewrite Hloop. eexists. split_and!; [done | done |].
  by eapply Crawled.
Qed.

Lemma crawl_website_path_inv mp to url f0 res f' :
  crawl_website lib mp to url f0 = (Ok res, f') →
  ∃ t0 w0 parsed page w1,
    time_time lib (world f0) = (t0, w0) ∧
    urlparse (with_scheme url) = Ok parsed ∧
    res = results f' ∧
    scrape_page lib (with_scheme url) (entry_frame (with_scheme url) t0 w0 f0)
      = (Ok page, after_request (with_scheme url) w1
                    (entry_frame (with_scheme url) t0 w0 f0)) ∧
    crawl_path lib mp to t0 (with_scheme url) (netloc parsed) (normal_form parsed)
      (after_request (with_scheme url) w1 (entry_frame (with_scheme url) t0 w0 f0))
      page f'.
Proof.
  intros Hrun.
  destruct (time_time lib (world f0)) as [t0 w0] eqn:Hclock.
  destruct (urlparse (with_scheme url)) as [parsed|e] eqn:Hparse.
  - destruct (crawl_website_paths mp to url f0 t0 w0 parsed Hclock Hparse)
      as (page & w1 & f'' & Hscrape & Hrun' & Hpath).
    rewrite Hrun' in Hrun. simplify_eq.
    by exists t0, w0, parsed, page, w1.
  - by rewrite (crawl_website_raises lib mp to url f0 t0 w0 e) in Hrun.
Qed.

(** Every path ends in the frame of the homepage request with an error
    message, or in a frame with what the stored homepage establishes and
    every recorded page preserves. *)
Lemma crawl_path_invariant (I : Frame W → Prop) mp to t0 start base n f2 page f' :
  crawl_path lib mp to t0 start base n f2 page f' →
  enterprise_signals (results f2) = all_signals f2 →
  (∀ f g, same_data f g → I f → I g) →
  (∀ name soup ls, I (home_stored n name start (scraped lib start soup ls) f2)) →
  (∀ c k soup ls f,
      normalize_url (sc_url c) = Ok k → k ∉ visited_urls f → I f →
      I (record_success lib k (sc_url c) c.2 (scraped lib (sc_url c) soup ls) f)) →
  ∃ f3 err, f' = finalize (with_error_opt err f3) ∧
            ((is_Some err ∧ f3 = f2) ∨ I f3).
Proof.
  intros Hpath Hsg Hsame Hhome Hstep.
  assert (Hfin : ∀ msg, finalize (with_error msg f2) = with_error msg f2).
  { intros msg.
    unfold finalize, with_error, set_results, set_enterprise_signals, set_error.
    simpl. rewrite <- Hsg. done. }
  destruct Hpath as [err | soup ls e He | soup ls name e Hname He
                    | soup ls name cands f3 Hname Hrank Hloop].
  - exists f2, (Some (s "Failed to scrape: " ++ err)). simpl. rewrite Hfin.
    split; [done |]. left. by split.
  - exists f2, (Some (exn_str e)). split; [done |]. left. by split.
  - eexists _, (Some (exn_str e)). split; [done |]. right. apply Hhome.
  - destruct (crawl_pages_invariant I to t0 (priority_links mp cands)
                (home_stored n name start (scraped lib start soup ls) f2))
      as (f3' & Hloop' & HI); [done | | | apply Hhome |].
    + intros c k soup' ls' f _. apply Hstep.
    + eapply Forall_impl; [by eapply (priority_links_normalize _ _ _ _ mp) |].
      intros c (k & ? & _). by exists k.
    + rewrite Hloop' in Hloop. simplify_eq. exists f3, None. split; [done |]. by right.
Qed.

(** The requests of a path after the homepage request. *)
Lemma crawl_path_requests mp to t0 start base n f2 page f' :
  crawl_path lib mp to t0 start base n f2 page f' →
  results f2 = init_results start →
  ∃ reqs,
    fetched f' = fetched f2 ++ reqs ∧
    Forall (fun u => u ∈ link_url <$> page_links page
                     ∧ is_valid_url u base = Ok true
                     ∧ ∃ k, normalize_url u = Ok k ∧ k ≠ n) reqs ∧
    (1 <= mp → Z.of_nat (length reqs) <= mp - 1) ∧
    page_count (results f') <= 1 + Z.of_nat (length reqs) ∧
    (is_Some (error (results f')) → reqs = [] ∧ page_count (results f') <= 1).
Proof.
  intros Hpath Hinit.
  destruct Hpath as [err | soup ls e He | soup ls name e Hname He
                    | soup ls name cands f3 Hname Hrank Hloop].
  - exists []. simpl. rewrite app_nil_r, Hinit. simpl. split_and!; try done; lia.
  - exists []. simpl. rewrite app_nil_r, Hinit. simpl. split_and!; try done; lia.
  - exists []. simpl. rewrite app_nil_r. split_and!; try done; lia.
  - destruct (crawl_pages_run lib to t0 (priority_links mp cands)
                (home_stored n name start (scraped lib start soup ls) f2))
      as (r' & f3' & reqs & reads & Hloop' & Hf & _ & Hsub & _ & Hcnt & Herr).
    rewrite Hloop' in Hloop. simplify_eq.
    exists reqs. simpl. split_and!; try done.
    + apply Forall_forall. intros u Hu.
      pose proof (priority_links_normalize _ _ _ _ mp Hrank) as Hall.
      rewrite Forall_forall in Hall.
      apply (elem_of_sublist _ _ _ Hu) in Hsub. clear Hu.
      apply list_elem_of_fmap in Hsub as (c & -> & Hc).
      destruct (Hall c Hc) as (k & Hk & Hv & Hvalid). split_and!; [| done |].
      { apply slice_sorted_subset in Hc.
        destruct (score_links_origin _ _ _ _ _ _ Hrank Hc) as [Hin | (l & Hl & ->)];
          [inversion Hin |].
        apply list_elem_of_fmap. by exists l. }
      exists k. split; [done |]. intros ->. apply Hv.
      apply elem_of_union_l. by apply elem_of_singleton.
    + intros Hmp. apply sublist_length in Hsub. rewrite length_fmap in Hsub.
      pose proof (slice_to_length (mp - 1) (sort_scored cands)).
      unfold priority_links in Hsub. lia.
    + rewrite Herr. simpl. rewrite Hinit. simpl. by intros [? [=]].
Qed.

End PathFacts.

(** ** The results of a crawl *)

Section ResultFacts.

Context {W Soup : Type}.
Variable lib : Library W Soup.

Implicit Types (f g : Frame W) (url : str) (page : Page Soup).

Lemma merge_signals_lookup (all page : Signals) name :
  merge_signals all page !! name =
  match all !! name, page !! name with
  | Some old, Some new => Some (old ++ new)
  | Some old, None => Some old
  | None, Some new => Some new
  | None, None => None
  end.
Proof.
  unfold merge_signals. rewrite lookup_union_with.
  by destruct (all !! name), (page !! name).
Qed.

Lemma detect_signals_wf text : signals_wf lib (detect_enterprise_signals lib text).
Proof.
  intros name ms. unfold detect_enterprise_signals.
  rewrite detect_signals_loop_spec by apply enterprise_patterns_nodup.
  intros [(Hne & pattern & Hin & ->) | [_ H]]; [|by rewrite lookup_empty in H].
  split; [done |]. exists pattern. split; [done |].
  apply Forall_forall. intros m Hm. by exists text.
Qed.

Lemma enterprise_patterns_functional name p1 p2 :
  (name, p1) ∈ enterprise_patterns → (name, p2) ∈ enterprise_patterns → p1 = p2.
Proof.
  pose proof enterprise_patterns_nodup as Hnd.
  revert Hnd. generalize enterprise_patterns. intros l.
  induction l as [|[k p] l IH]; intros Hnd H1 H2; [inversion H1 |].
  apply NoDup_cons in Hnd as [Hk Hnd]. simpl in Hk.
  assert (Hrest : ∀ p', (k, p') ∈ l → False).
  { intros p' Hin. apply Hk, list_elem_of_fmap. by exists (k, p'). }
  apply elem_of_cons in H1 as [E1 | H1]; apply elem_of_cons in H2 as [E2 | H2];
    simplify_eq; [done | by destruct (Hrest _ H2) | by destruct (Hrest _ H1) | by apply IH].
Qed.

Lemma merge_signals_wf (all page : Signals) :
  signals_wf lib all → signals_wf lib page → signals_wf lib (merge_signals all page).
Proof.
  intros Hall Hpage name ms. rewrite merge_signals_lookup.
  destruct (all !! name) as [old|] eqn:Ho, (page !! name) as [new|] eqn:Hn;
    intros [= <-]; auto.
  destruct (Hall _ _ Ho) as (Hne & p1 & Hin1 & H1).
  destruct (Hpage _ _ Hn) as (_ & p2 & Hin2 & H2).
  rewrite (enterprise_patterns_functional _ _ _ Hin2 Hin1) in H2.
  split; [by destruct old |]. exists p1. split; [done |]. by apply Forall_app.
Qed.

Lemma corpus_snoc pages title text :
  pages ≠ [] → corpus (pages ++ [(title, text)]) = corpus pages ++ page_block title text.
Proof.
  destruct pages as [|[t0 h] rest]; [done |]. intros _. simpl.
  rewrite fmap_app, concat_app. simpl. rewrite app_nil_r.
  by rewrite <- !app_assoc.
Qed.

Lemma page_title_length link_text : 0 < len (page_title link_text) <= 50.
Proof.
  unfold page_title. destruct link_text as [|c t]; [by vm_compute |].
  unfold len. rewrite slice_to_take by lia. rewrite length_take. simpl length. lia.
Qed.

Lemma stops_when_late_cons to st now reads :
  in_time to st now → stops_when_late to st reads →
  stops_when_late to st (now :: reads).
Proof.
  intros Hnow Hreads early late rest Heq Hlate.
  destruct early as [|t early]; simplify_eq/=; [done |]. by eapply Hreads.
Qed.

End ResultFacts.

Section ResultTheorems.

Context {W Soup : Type}.
Variable lib : Library W Soup.

Implicit Types (f g : Frame W) (url : str) (page : Page Soup).

(** X13.  [crawl_website] raises only on a start URL that [urlparse]
    refuses, and then before any request is made and with the visited set
    untouched.  On every other start URL it returns a result, whose
    [base_url] is the start URL (with [https://] in front when it did not
    start with [http]) and whose first request goes to that URL. *)
Theorem crawl_website_raises_only_on_seed mp to url f0 :
  (∀ parsed, urlparse (with_scheme url) = Ok parsed →
     ∃ res f' reqs,
       crawl_website lib mp to url f0 = (Ok res, f') ∧
       base_url res = with_scheme url ∧
       fetched f' = fetched f0 ++ with_scheme url :: reqs) ∧
  (∀ e, urlparse (with_scheme url) = Raise e →
     ∃ f', crawl_website lib mp to url f0 = (Raise e, f') ∧
           fetched f' = fetched f0 ∧ visited_urls f' = visited_urls f0).
Proof.
  destruct (time_time lib (world f0)) as [t0 w0] eqn:Hclock. split.
  - intros parsed Hparse.
    destruct (crawl_website_paths lib mp to url f0 t0 w0 parsed Hclock Hparse)
      as (page & w1 & f' & _ & Hrun & Hpath).
    destruct (crawl_path_requests _ _ _ _ _ _ _ _ _ _ Hpath eq_refl)
      as (reqs & Hf & _).
    exists (results f'), f', reqs. split_and!; [done | | ].
    + destruct (crawl_path_invariant lib
                  (fun f => base_url (results f) = with_scheme url)
                  _ _ _ _ _ _ _ _ _ Hpath eq_refl
                  ltac:(by intros f g (_ & -> & _)) ltac:(done) ltac:(done))
        as (f3 & err & -> & [[_ ->] | HI]); by destruct err.
    + rewrite Hf. simpl. by rewrite <- app_assoc.
  - intros e Hparse. eexists. split; [by apply crawl_website_raises |]. done.
Qed.

(** X14.  After the homepage, [crawl_website] requests only URLs that the
    homepage links to (links found on other pages are never followed),
    that [is_valid_url] accepts for the domain of the start URL, and whose
    normalized form is not that of the homepage; for [max_pages >= 1]
    there are at most [max_pages - 1] such requests; and no page is
    counted that was not requested.  The homepage is the dict that the
    first request of this run returned: [scrape_page] on the start URL in
    the frame the [try] block is entered with, [t0] being the reading of
    the clock that opens the run. *)
Theorem requests_stay_on_site mp to url f0 res f' :
  crawl_website lib mp to url f0 = (Ok res, f') →
  ∃ t0 w0 parsed home_key homepage w1 reqs,
    time_time lib (world f0) = (t0, w0) ∧
    urlparse (with_scheme url) = Ok parsed ∧
    normalize_url (with_scheme url) = Ok home_key ∧
    scrape_page lib (with_scheme url) (entry_frame (with_scheme url) t0 w0 f0)
      = (Ok homepage, after_request (with_scheme url) w1
                        (entry_frame (with_scheme url) t0 w0 f0)) ∧
    fetched f' = fetched f0 ++ with_scheme url :: reqs ∧
    Forall (fun u => u ∈ link_url <$> page_links homepage
                     ∧ is_valid_url u (netloc parsed) = Ok true
                     ∧ ∃ k, normalize_url u = Ok k ∧ k ≠ home_key) reqs ∧
    (1 <= mp → Z.of_nat (length reqs) <= mp - 1) ∧
    page_count res <= 1 + Z.of_nat (length reqs).
Proof.
  intros (t0 & w0 & parsed & page & w1 & Hclock & Hparse & -> & Hscrape & Hpath)
    %crawl_website_path_inv.
  destruct (crawl_path_requests _ _ _ _ _ _ _ _ _ _ Hpath eq_refl)
    as (reqs & Hf & Hvalid & Hlen & Hcnt & _).
  exists t0, w0, parsed, (normal_form parsed), page, w1, reqs.
  split_and!; [done | done | | exact Hscrape | | done | done | done].
  - by apply normalize_url_parsed.
  - rewrite Hf. simpl. by rewrite <- app_assoc.
Qed.

(** X15.  A result with an [error] field has at most one page, and the
    homepage request was the only request of the run.  A result without
    [error] has at least one page, and its first record is the homepage:
    the start URL under the title [Homepage]. *)
Theorem error_means_homepage_only mp to url f0 res f' :
  crawl_website lib mp to url f0 = (Ok res, f') →
  (is_Some (error res) →
     page_count res <= 1 ∧ fetched f' = fetched f0 ++ [with_scheme url]) ∧
  (error res = None →
     1 <= page_count res ∧
     ∃ text_length rest,
       pages_scraped res = home_record (with_scheme url) text_length :: rest).
Proof.
  intros (t0 & w0 & parsed & page & w1 & Hclock & Hparse & -> & _ & Hpath)
    %crawl_website_path_inv.
  split.
  - intros Herr.
    destruct (crawl_path_requests _ _ _ _ _ _ _ _ _ _ Hpath eq_refl)
      as (reqs & Hf & _ & _ & _ & Hone).
    destruct (Hone Herr) as [-> Hcnt]. split; [done |].
    rewrite Hf. simpl. by rewrite <- app_assoc.
  - intros Hnone.
    destruct (crawl_path_invariant lib
                (fun f => 1 <= page_count (results f) ∧
                          ∃ text_length rest,
                            pages_scraped (results f)
                            = home_record (with_scheme url) text_length :: rest)
                _ _ _ _ _ _ _ _ _ Hpath eq_refl
                ltac:(by intros f g (_ & -> & _))
                ltac:(split; [done | by eexists _, _])
                ltac:(intros c k soup ls f _ _ [Hc (tl & rest & Hp)]; simpl;
                      split; [lia | rewrite Hp; by eexists _, _]))
      as (f3 & err & -> & [[Herr ->] | HI]).
    + destruct err; [done | by destruct Herr].
    + by destruct err.
Qed.

(** X17.  The corpus [total_text] is laid out page by page in the order of
    the records: the homepage text and two newlines, then for each further
    record two newlines, [=== title ===] with the title of the record, two
    newlines and the page text; the [text_length] of each record is the
    length of its text.  A result without records has an empty corpus. *)
Theorem total_text_layout mp to url f0 res f' :
  crawl_website lib mp to url f0 = (Ok res, f') →
  ∃ texts,
    Forall2 record_of_text (pages_scraped res) texts ∧
    total_text res = corpus (zip (rec_title <$> pages_scraped res) texts).
Proof.
  intros (t0 & w0 & parsed & page & w1 & Hclock & Hparse & -> & _ & Hpath)
    %crawl_website_path_inv.
  destruct (crawl_path_invariant lib
              (fun f => pages_scraped (results f) ≠ [] ∧
                        ∃ texts,
                          Forall2 record_of_text (pages_scraped (results f)) texts ∧
                          total_text (results f)
                          = corpus (zip (rec_title <$> pages_scraped (results f)) texts))
              _ _ _ _ _ _ _ _ _ Hpath eq_refl)
    as (f3 & err & -> & [[_ ->] | [_ HI]]).
  - by intros f g (_ & -> & _).
  - intros name soup ls. split; [done |].
    exists [(extract_text_from_html lib soup).1]. split.
    + by repeat constructor.
    + reflexivity.
  - intros c k soup ls f _ _ (Hne & texts & Hrec & Htext).
    split; [simpl; by destruct (pages_scraped (results f)) |].
    exists (texts ++ [(extract_text_from_html lib soup).1]). split.
    + simpl. apply Forall2_app; [done |]. by repeat constructor.
    + simpl. rewrite fmap_app, zip_with_app.
      * simpl. rewrite corpus_snoc, Htext; [done |].
        destruct (pages_scraped (results f)), texts; try done. by inversion Hrec.
      * rewrite length_fmap. by eapply Forall2_length.
  - exists []. by destruct err.
  - by destruct err.
Qed.

(** X18.  Every record of a result has a title of 1 to 50 characters
    ([Homepage], the first 50 characters of the link text, or [Page] for a
    link without text) and a text length that is not negative. *)
Theorem records_are_wellformed mp to url f0 res f' :
  crawl_website lib mp to url f0 = (Ok res, f') →
  Forall record_wf (pages_scraped res).
Proof.
  intros (t0 & w0 & parsed & page & w1 & Hclock & Hparse & -> & _ & Hpath)
    %crawl_website_path_inv.
  assert (Hlen : ∀ x : str, 0 <= len x) by (intros x; unfold len; lia).
  destruct (crawl_path_invariant lib
              (fun f => Forall record_wf (pages_scraped (results f)))
              _ _ _ _ _ _ _ _ _ Hpath eq_refl)
    as (f3 & err & -> & [[_ ->] | HI]).
  - by intros f g (_ & -> & _).
  - intros name soup ls. simpl. repeat constructor; simpl; [by vm_compute | apply Hlen].
  - intros c k soup ls f _ _ Hf. simpl. apply Forall_app. split; [done |].
    repeat constructor; simpl; [apply page_title_length.. | apply Hlen].
  - destruct err; constructor.
  - by destruct err.
Qed.

(** X19.  The [enterprise_signals] of a result hold only the eight listed
    signal names; the list under a name is not empty, and each of its
    entries is a match that [re.findall] gives for the pattern of that
    name on a lower-cased text. *)
Theorem enterprise_signals_are_matches mp to url f0 res f' :
  crawl_website lib mp to url f0 = (Ok res, f') →
  signals_wf lib (enterprise_signals res).
Proof.
  intros (t0 & w0 & parsed & page & w1 & Hclock & Hparse & -> & _ & Hpath)
    %crawl_website_path_inv.
  assert (Hempty : signals_wf lib ∅) by (intros name ms H; by rewrite lookup_empty in H).
  destruct (crawl_path_invariant lib (fun f => signals_wf lib (all_signals f))
              _ _ _ _ _ _ _ _ _ Hpath eq_refl)
    as (f3 & err & -> & [[_ ->] | HI]).
  - by intros f g (_ & _ & ->).
  - intros name soup ls. simpl. apply merge_signals_wf; [done | apply detect_signals_wf].
  - intros c k soup ls f _ _ Hf. simpl.
    apply merge_signals_wf; [done | apply detect_signals_wf].
  - by destruct err.
  - by destruct err.
Qed.

(** X21.  After a crawl the visited set is what it was before together
    with the normalized URLs of the page records, and nothing else: a page
    that failed is not marked as visited. *)
Theorem visited_is_old_plus_pages mp to url f0 res f' :
  crawl_website lib mp to url f0 = (Ok res, f') →
  ∃ ns, pages_keys res ns ∧ visited_urls f' = visited_urls f0 ∪ list_to_set ns.
Proof.
  intros (t0 & w0 & parsed & page & w1 & Hclock & Hparse & -> & _ & Hpath)
    %crawl_website_path_inv.
  pose proof (normalize_url_parsed _ _ Hparse) as Hn.
  destruct (crawl_path_invariant lib
              (fun f => ∃ ns, pages_keys (results f) ns
                              ∧ visited_urls f = visited_urls f0 ∪ list_to_set ns)
              _ _ _ _ _ _ _ _ _ Hpath eq_refl)
    as (f3 & err & -> & [[_ ->] | (ns & Hkeys & Hv)]).
  - by intros f g (-> & -> & _).
  - intros name soup ls. exists [normal_form parsed]. split.
    + unfold pages_keys. simpl. by repeat constructor.
    + simpl. rewrite (right_id_L ∅ (∪)). apply (comm_L (∪)).
  - intros c k soup ls f Hk _ (ns & Hkeys & Hv). exists (ns ++ [k]). split.
    + unfold pages_keys. simpl. apply Forall2_app; [done |]. by repeat constructor.
    + simpl. rewrite Hv, list_to_set_app_L. simpl.
      by rewrite (right_id_L ∅ (∪)), (comm_L (∪) {[k]}), <- (assoc_L (∪)).
  - exists []. split; [destruct err; constructor |].
    destruct err; simpl; by rewrite (right_id_L ∅ (∪)).
  - exists ns. by destruct err.
Qed.

(** X22.  The timeout in the loop over the candidates: the clock is read
    at most once per candidate, a reading past the deadline is the last
    one (the loop breaks), and there are not more requests than readings
    within the deadline: no request follows a late reading. *)
Theorem loop_stops_at_deadline to st links f r f' :
  crawl_pages lib to st links f = (r, f') →
  ∃ reads reqs,
    clock_reads f' = clock_reads f ++ reads ∧
    fetched f' = fetched f ++ reqs ∧
    (length reads <= length links)%nat ∧
    (length reqs <= length (filter (in_time to st) reads))%nat ∧
    stops_when_late to st reads.
Proof.
  revert f. induction links as [|[[score url] link_text] rest IH]; intros f Hrun.
  { rewrite crawl_pages_nil in Hrun. simplify_eq. exists [], [].
    rewrite !app_nil_r. split_and!; try done. by intros [|??] ?? ?. }
  destruct (time_time lib (world f)) as [now w] eqn:Hclock.
  destruct (Z.lt_ge_cases (to * 1000) (now - st)) as [Hlate | Hintime].
  { rewrite (crawl_pages_timeout lib _ _ _ _ _ _ _ _ _ Hclock Hlate) in Hrun.
    simplify_eq. exists [now], []. rewrite app_nil_r.
    split_and!; try done; simpl; [lia | lia |].
    intros [|? [|??]] ?? ? ?; by simplify_eq/=. }
  assert (Hnow : in_time to st now) by done.
  assert (Hcount : ∀ reads, length (filter (in_time to st) (now :: reads))
                            = S (length (filter (in_time to st) reads))).
  { intros reads. by rewrite filter_cons_True. }
  destruct (normalize_url url) as [n|e] eqn:Hn.
  2: { rewrite (crawl_pages_raise lib _ _ _ _ _ _ _ _ _ Hclock Hintime _ Hn) in Hrun.
       simplify_eq. exists [now], []. rewrite app_nil_r.
       split_and!; try done; simpl; [lia | lia |].
       intros [|? [|??]] ?? ? ?; by simplify_eq/=. }
  destruct (decide (n ∈ visited_urls f)) as [Hseen | Hfresh].
  { rewrite (crawl_pages_visited lib _ _ _ _ _ _ _ _ _ Hclock Hintime _ Hn Hseen)
      in Hrun.
    apply IH in Hrun as (reads & reqs & Hr & Hf & Hlen & Hreq & Hstop).
    exists (now :: reads), reqs. split_and!.
    - rewrite Hr. simpl. by rewrite <- app_assoc.
    - done.
    - simpl. lia.
    - rewrite Hcount. lia.
    - by apply stops_when_late_cons. }
  destruct (scrape_page_frame lib url (after_clock now w f))
    as (page & w2 & Hscrape & _).
  assert (Hnext : ∀ f1,
            crawl_pages lib to st rest f1 = (r, f') →
            clock_reads f1 = clock_reads f ++ [now] →
            fetched f1 = fetched f ++ [url] →
            ∃ reads reqs,
              clock_reads f' = clock_reads f ++ reads ∧
              fetched f' = fetched f ++ reqs ∧
              (length reads <= S (length rest))%nat ∧
              (length reqs <= length (filter (in_time to st) reads))%nat ∧
              stops_when_late to st reads).
  { intros f1 (reads & reqs & Hr & Hf & Hlen & Hreq & Hstop)%IH Hr1 Hf1.
    exists (now :: reads), (url :: reqs). split_and!.
    - rewrite Hr, Hr1. by rewrite <- app_assoc.
    - rewrite Hf, Hf1. by rewrite <- app_assoc.
    - simpl. lia.
    - rewrite Hcount. simpl. lia.
    - by apply stops_when_late_cons. }
  destruct (page_success page) eqn:Hok.
  - rewrite (crawl_pages_success lib _ _ _ _ _ _ _ _ _ Hclock Hintime _ Hn Hfresh
               _ _ Hscrape Hok) in Hrun.
    by eapply Hnext.
  - rewrite (crawl_pages_failed lib _ _ _ _ _ _ _ _ _ Hclock Hintime _ Hn Hfresh
               _ _ Hscrape Hok) in Hrun.
    by eapply Hnext.
Qed.

(** X23.  [scrape_company_website] with [max_pages >= 1] makes at most
    [max_pages] requests, the first of them to the start URL; it counts no
    more pages than it made requests; and [base_url] is the start URL. *)
Theorem scrape_company_website_budget url max_pages w res f' :
  1 <= max_pages →
  scrape_company_website lib url max_pages w = (Ok res, f') →
  head (fetched f') = Some (with_scheme url) ∧
  Z.of_nat (length (fetched f')) <= max_pages ∧
  page_count res <= Z.of_nat (length (fetched f')) ∧
  base_url res = with_scheme url.
Proof.
  intros Hmp. unfold scrape_company_website.
  intros (t0 & w0 & parsed & page & w1 & Hclock & Hparse & -> & _ & Hpath)
    %crawl_website_path_inv.
  destruct (crawl_path_requests _ _ _ _ _ _ _ _ _ _ Hpath eq_refl)
    as (reqs & Hf & _ & Hlen & Hcnt & _).
  simpl in Hf. rewrite Hf. simpl. specialize (Hlen Hmp).
  split_and!; [done | lia | lia |].
  destruct (crawl_path_invariant lib
              (fun f => base_url (results f) = with_scheme url)
              _ _ _ _ _ _ _ _ _ Hpath eq_refl
              ltac:(by intros f g (_ & -> & _)) ltac:(done) ltac:(done))
    as (f3 & err & -> & [[_ ->] | HI]); by destruct err.
Qed.

End ResultTheorems.

Section MergeTheorems.

(** X20.  The loop that merges the signals of a page into [all_signals]
    gives, for the items of a dict in any order, the map that holds under
    each name the matches accumulated so far followed by those of the
    page; names that only one side has keep their list, and nothing is
    deduplicated. *)
Theorem extend_signals_is_merge (all : Signals) (items : list (str * list str)) :
  NoDup items.*1 →
  extend_signals all items = merge_signals all (list_to_map items)
  ∧ ∀ name,
      extend_signals all items !! name =
      match all !! name, (list_to_map items : Signals) !! name with
      | Some old, Some new => Some (old ++ new)
      | Some old, None => Some old
      | None, Some new => Some new
      | None, None => None
      end.
Proof.
  intros Hnd.
  assert (Heq : extend_signals all items = merge_signals all (list_to_map items)).
  { revert all. induction items as [|[k m] rest IH]; intros all; simpl.
    - apply map_eq. intros j. rewrite merge_signals_lookup, lookup_empty.
      by destruct (all !! j).
    - apply NoDup_cons in Hnd as [Hk Hnd]. rewrite IH by done.
      apply map_eq. intros j. rewrite !merge_signals_lookup.
      destruct (decide (j = k)) as [-> | Hj].
      + rewrite !lookup_insert_eq.
        rewrite (not_elem_of_list_to_map_1 (M := gmap str)) by done.
        destruct (all !! k) as [old|] eqn:Hall.
        * rewrite bool_decide_eq_true_2 by done. by rewrite Hall.
        * rewrite bool_decide_eq_false_2 by (by intros [? ?]).
          by rewrite lookup_insert_eq.
      + rewrite !lookup_insert_ne by done.
        destruct (bool_decide _); [done |]. by rewrite lookup_insert_ne. }
  split; [done |]. intros name. by rewrite Heq, merge_signals_lookup.
Qed.

End MergeTheorems.

(** ** The company name *)

Section NameFacts.

Implicit Types (x y u r : str) (c d : ascii).

Lemma split_first_no_char c x : has_char c (split_first c x) = false.
Proof.
  induction x as [|d x IH]; simpl; [done |].
  destruct (chr_eqb c d) eqn:E; [done |]. by rewrite has_char_cons, E, IH.
Qed.

Lemma split_first_prefix c x : split_first c x `prefix_of` x.
Proof.
  induction x as [|d x IH]; simpl; [done |].
  destruct (chr_eqb c d); [apply prefix_nil | by apply prefix_cons].
Qed.

(** The dot, checked on all 256 characters. *)
Lemma upper_char_not_dot c : chr_eqb "." (upper_char c) = chr_eqb "." c.
Proof. by destruct c as [[] [] [] [] [] [] [] []]. Qed.

Lemma lower_char_not_dot c : chr_eqb "." (lower_char c) = chr_eqb "." c.
Proof. by destruct c as [[] [] [] [] [] [] [] []]. Qed.

Lemma lower_no_dot x : has_char "." (lower x) = has_char "." x.
Proof.
  induction x as [|d x IH]; [done |].
  change (lower (d :: x)) with (lower_char d :: lower x).
  by rewrite !has_char_cons, lower_char_not_dot, IH.
Qed.

Lemma capitalize_no_dot x : has_char "." x = false → has_char "." (capitalize x) = false.
Proof.
  destruct x as [|c x]; [done |].
  change (capitalize (c :: x)) with (upper_char c :: lower x).
  by rewrite !has_char_cons, upper_char_not_dot, lower_no_dot.
Qed.

Lemma name_before_separator_spec seps title_text name :
  CompanyName.name_before_separator seps title_text = Some name →
  3 < len name < 50 ∧
  ∃ sep, sep ∈ seps ∧ sep ∈ title_text ∧ name = strip (split_first sep title_text).
Proof.
  induction seps as [|sep rest IH]; simpl; [done |].
  destruct (has_char sep title_text) eqn:Hin.
  - destruct (_ && _) eqn:Hlen.
    + intros [= <-]. apply andb_true_iff in Hlen as [H1%Z.ltb_lt H2%Z.ltb_lt].
      split; [done |]. exists sep. split_and!; [left | by apply has_char_true | done].
    + intros (? & sep' & ? & ?)%IH. split; [done |]. exists sep'. split; [by right | done].
  - intros (? & sep' & ? & ?)%IH. split; [done |]. exists sep'. split; [by right | done].
Qed.

(** A name taken from the title has 4 to 49 characters and is a piece of
    the title. *)
Lemma name_from_title_spec title name :
  CompanyName.name_from_title title = Some name →
  ∃ text, title = Some text ∧ 3 < len name < 50 ∧ infix_of name text.
Proof.
  unfold CompanyName.name_from_title. destruct title as [text|]; [|done].
  intros H. exists text. split; [done |].
  destruct (strip_infix text) as (front & back & Htext).
  destruct (CompanyName.name_before_separator _ _) as [n|] eqn:Hsep.
  - simplify_eq. apply name_before_separator_spec in Hsep as (Hlen & sep & _ & _ & ->).
    split; [done |].
    destruct (strip_infix (split_first sep (strip text))) as (a & b & Ha).
    destruct (split_first_prefix sep (strip text)) as [k Hk].
    exists (front ++ a), (b ++ k ++ back).
    rewrite Htext at 1. rewrite Hk at 1. rewrite Ha at 1.
    by rewrite <- !app_assoc.
  - destruct (_ && _) eqn:Hlen; [|done]. simplify_eq.
    apply andb_true_iff in Hlen as [H1%Z.ltb_lt H2%Z.ltb_lt].
    split; [done |]. by exists front, back.
Qed.

Lemma extract_company_name_parsed og_content title url parsed :
  urlparse url = Ok parsed →
  ∃ name, CompanyName.extract_company_name og_content title url = Ok name.
Proof.
  intros Hparse. unfold CompanyName.extract_company_name.
  destruct og_content as [[|c content']|]; [| by eexists |];
    (destruct (CompanyName.name_from_title title); [by eexists |]);
    unfold CompanyName.name_from_domain; rewrite Hparse; by eexists.
Qed.

End NameFacts.

Section NameTheorems.

Context {W Soup : Type}.
Variable lib : Library W Soup.

(** X7.  Where the company name comes from: a non-empty [og:site_name]
    content wins and is returned stripped (so the name can be empty when
    the content is white space); otherwise the name is a piece of the
    title with 4 to 49 characters; otherwise it is the capitalized first
    label of the host of the URL with every [www.] removed, which holds no
    dot. *)
Theorem extract_company_name_sources og_content title url name :
  CompanyName.extract_company_name og_content title url = Ok name →
  (∃ content_, og_content = Some content_ ∧ content_ ≠ [] ∧ name = strip content_)
  ∨ ((og_content = None ∨ og_content = Some []) ∧
     ((∃ text, title = Some text ∧ 3 < len name < 50 ∧ infix_of name text)
      ∨ (∃ parsed, urlparse url = Ok parsed ∧
           name = capitalize (split_first "." (remove_all (s "www.") (netloc parsed))) ∧
           has_char "." name = false))).
Proof.
  unfold CompanyName.extract_company_name.
  assert (Hrest :
    match CompanyName.name_from_title title with
    | Some name0 => Ok name0
    | None => CompanyName.name_from_domain url
    end = Ok name →
    (∃ text, title = Some text ∧ 3 < len name < 50 ∧ infix_of name text)
    ∨ (∃ parsed, urlparse url = Ok parsed ∧
         name = capitalize (split_first "." (remove_all (s "www.") (netloc parsed))) ∧
         has_char "." name = false)).
  { destruct (CompanyName.name_from_title title) as [n|] eqn:Htitle.
    - intros [= ->]. left. by apply name_from_title_spec.
    - unfold CompanyName.name_from_domain, rbind.
      destruct (urlparse url) as [parsed|e]; [|done]. intros [= <-].
      right. exists parsed. split_and!; [done | done |].
      apply capitalize_no_dot, split_first_no_char. }
  destruct og_content as [[|c content']|].
  - intros H. right. split; [by right | by apply Hrest].
  - intros [= <-]. left. by eexists.
  - intros H. right. split; [by left | by apply Hrest].
Qed.

(** X8.  [extract_company_name] raises only where [urlparse] refuses the
    URL, and only when neither [og:site_name] nor the title gave a name:
    for a URL that parses it returns a name, whatever the page holds. *)
Theorem extract_company_name_raises og_content title url :
  (∀ parsed, urlparse url = Ok parsed →
     ∃ name, CompanyName.extract_company_name og_content title url = Ok name) ∧
  (∀ e, CompanyName.extract_company_name og_content title url = Raise e →
     urlparse url = Raise e ∧
     (og_content = None ∨ og_content = Some []) ∧
     CompanyName.name_from_title title = None).
Proof.
  split; [intros parsed; apply extract_company_name_parsed |].
  intros e. unfold CompanyName.extract_company_name.
  assert (Hrest :
    match CompanyName.name_from_title title with
    | Some name => Ok name
    | None => CompanyName.name_from_domain url
    end = Raise e →
    urlparse url = Raise e ∧ CompanyName.name_from_title title = None).
  { destruct (CompanyName.name_from_title title); [done |].
    unfold CompanyName.name_from_domain, rbind.
    destruct (urlparse url); [done |]. by intros [= ->]. }
  destruct og_content as [[|c content']|]; [| done |];
    intros [? ?]%Hrest; split_and!; auto.
Qed.

(** X16.  With the company name computed as in the source, a result has an
    [error] field in two cases only, both about the homepage as the first
    request of this run returned it ([scrape_page] on the start URL in the
    frame the [try] block is entered with).  Either that homepage failed:
    no page is recorded and the message is [Failed to scrape: ] followed
    by the error of the page.  Or it was stored and [normalize_url] raises
    on the URL of one of its links: one page is recorded and the message
    is that of the exception.  In particular the step that extracts the
    company name never fails a crawl. *)
Theorem error_causes (q : SoupFind Soup) mp to url f0 res f' msg :
  names_by_source lib q →
  crawl_website lib mp to url f0 = (Ok res, f') →
  error res = Some msg →
  ∃ t0 w0 homepage w1,
    time_time lib (world f0) = (t0, w0) ∧
    scrape_page lib (with_scheme url) (entry_frame (with_scheme url) t0 w0 f0)
      = (Ok homepage, after_request (with_scheme url) w1
                        (entry_frame (with_scheme url) t0 w0 f0)) ∧
    ((page_count res = 0 ∧ pages_scraped res = [] ∧
      page_success homepage = false ∧
      ∃ err, page_error homepage = Some err ∧
             msg = s "Failed to scrape: " ++ err)
     ∨ (page_count res = 1 ∧
        page_success homepage = true ∧
        ∃ link e,
          link ∈ page_links homepage ∧
          normalize_url (link_url link) = Raise e ∧
          msg = exn_str e)).
Proof.
  intros Hnames
    (t0 & w0 & parsed & page & w1 & Hclock & Hparse & -> & Hscrape & Hpath)
    %crawl_website_path_inv Herr.
  exists t0, w0, page, w1. split; [done |]. split; [exact Hscrape |].
  clear Hscrape.
  destruct Hpath as [err | soup ls e He | soup ls name e Hname He
                    | soup ls name cands f3 Hname Hrank Hloop].
  - left. simpl in Herr. simplify_eq. split_and!; [done | done | done |].
    by exists err.
  - rewrite Hnames in He.
    destruct (extract_company_name_parsed
                (find_og_content q (extract_text_from_html lib soup).2)
                (find_title_text q (extract_text_from_html lib soup).2) _ _ Hparse)
      as (name & Hname). congruence.
  - right. simpl in Herr. simplify_eq. split; [done |]. split; [done |].
    apply score_links_raises in He as (link & Hlink & He).
    by exists link, e.
  - destruct (crawl_pages_run lib to t0 (priority_links mp cands)
                (home_stored (normal_form parsed) name (with_scheme url)
                   (scraped lib (with_scheme url) soup ls)
                   (after_request (with_scheme url) w1
                      (entry_frame (with_scheme url) t0 w0 f0))))
      as (r' & f3' & reqs & reads & Hloop' & _ & _ & _ & _ & _ & Herr').
    rewrite Hloop' in Hloop. simplify_eq. simpl in Herr. by rewrite Herr' in Herr.
Qed.

End NameTheorems.

(** ** The URL validation *)

Section ValidateFacts.

Implicit Types (x y u r : str) (c d : ascii).

(** [validate_url] without the [try]. *)
Lemma validate_url_eq url :
  validate_url url =
  let u := strip url in
  let r := if negb (startswith u (s "http://") || startswith u (s "https://"))
           then s "https://" ++ u else u in
  match urlparse r with
  | Ok parsed =>
      if len (netloc parsed) =? 0 then Ok (false, s "Invalid URL format")
      else if negb (match_domain_pattern (remove_all (s "www.") (netloc parsed)))
      then Ok (false, s "Invalid domain name")
      else Ok (true, r)
  | Raise e => Ok (false, s "Invalid URL: " ++ exn_str e)
  end.
Proof.
  unfold validate_url, try_except, rbind. cbv zeta.
  destruct (urlparse _) as [parsed|e]; [|done].
  destruct (len (netloc parsed) =? 0); [done |]. by destruct (negb _).
Qed.

(** The string that is parsed starts with a scheme and is stripped. *)
Lemma validated_form url :
  let u := strip url in
  let r := if negb (startswith u (s "http://") || startswith u (s "https://"))
           then s "https://" ++ u else u in
  (startswith r (s "http://") = true ∨ startswith r (s "https://") = true)
  ∧ strip r = r.
Proof.
  intros u r. unfold r.
  destruct (startswith u (s "http://")) eqn:E1; cbn [negb orb].
  { split; [by left | apply strip_idem]. }
  destruct (startswith u (s "https://")) eqn:E2; cbn [negb orb].
  { split; [by right | apply strip_idem]. }
  split; [right; apply startswith_app_same |].
  apply strip_app_fixed; [| | done].
  - intros c y H. vm_compute in H. by injection H as <- _.
  - intros c y H. change (s "https://") with (s "https:/" ++ ["/"%char]) in H.
    by apply app_inj_tail in H as [_ <-].
Qed.

Lemma validate_url_inv url r :
  validate_url url = Ok (true, r) →
  (startswith r (s "http://") = true ∨ startswith r (s "https://") = true) ∧
  strip r = r ∧
  ∃ parsed, urlparse r = Ok parsed ∧ (len (netloc parsed) =? 0) = false ∧
            match_domain_pattern (remove_all (s "www.") (netloc parsed)) = true.
Proof.
  rewrite validate_url_eq. cbv zeta.
  destruct (validated_form url) as [Hstart Hstrip]. cbv zeta in Hstart, Hstrip.
  revert Hstart Hstrip.
  generalize (if negb (startswith (strip url) (s "http://")
                      || startswith (strip url) (s "https://"))
              then s "https://" ++ strip url else strip url).
  intros r0 Hstart Hstrip.
  destruct (urlparse r0) as [parsed|e] eqn:Hparse; [|done].
  destruct (len (netloc parsed) =? 0) eqn:Hnl; [done |].
  destruct (match_domain_pattern _) eqn:Hdom; [|done]. cbn [negb].
  intros [= <-]. split_and!; [done | done |]. by exists parsed.
Qed.

Lemma with_scheme_http r :
  startswith r (s "http://") = true ∨ startswith r (s "https://") = true →
  with_scheme r = r.
Proof.
  intros H. unfold with_scheme.
  assert (startswith r (s "http") = true) as ->; [|done].
  destruct H as [H | H]; apply startswith_prefix in H as [k ->];
    apply startswith_prefix; [by exists (s "://" ++ k) | by exists (s "s://" ++ k)].
Qed.

End ValidateFacts.

Section ValidateTheorems.

Context {W Soup : Type}.
Variable lib : Library W Soup.

(** X24.  A URL that [validate_url] accepts is returned stripped, starting
    with [http://] or [https://] ([https://] is put in front of anything
    else), with a host that is not empty and matches the domain pattern
    once every [www.] is removed; and validating the returned URL again
    accepts it unchanged. *)
Theorem validate_url_accepts url r :
  validate_url url = Ok (true, r) →
  (startswith r (s "http://") = true ∨ startswith r (s "https://") = true) ∧
  strip r = r ∧
  (∃ parsed, urlparse r = Ok parsed ∧ netloc parsed ≠ [] ∧
             match_domain_pattern (remove_all (s "www.") (netloc parsed)) = true) ∧
  validate_url r = Ok (true, r).
Proof.
  intros (Hstart & Hstrip & parsed & Hparse & Hnl & Hdom)%validate_url_inv.
  split_and!; [done | done | |].
  - exists parsed. split_and!; [done | | done]. intros H. by rewrite H in Hnl.
  - rewrite validate_url_eq. cbv zeta. rewrite Hstrip.
    assert (negb (startswith r (s "http://") || startswith r (s "https://")) = false)
      as ->.
    { by destruct Hstart as [-> | ->]; rewrite ?orb_true_r. }
    by rewrite Hparse, Hnl, Hdom.
Qed.

(** X25.  [validate_url] never raises; a rejection carries one of the
    three messages [Invalid URL format], [Invalid domain name] and
    [Invalid URL: ] followed by the text of the exception. *)
Theorem validate_url_total url :
  ∃ (ok : bool) text,
    validate_url url = Ok (ok, text) ∧
    (ok = false →
       text = s "Invalid URL format" ∨ text = s "Invalid domain name"
       ∨ startswith text (s "Invalid URL: ") = true).
Proof.
  rewrite validate_url_eq. cbv zeta.
  destruct (urlparse _) as [parsed|e].
  - destruct (len (netloc parsed) =? 0); [eexists _, _; split; [done |]; auto |].
    destruct (negb _); eexists _, _; (split; [done |]); [auto | done].
  - eexists _, _. split; [done |]. intros _. right. right. apply startswith_app_same.
Qed.

(** X26.  [validate_url] of [utils_v4.py] followed by
    [scrape_company_website] of [scraper_v3.py]: a URL accepted by the
    first never makes the second raise, and it is crawled as returned: no
    second scheme is put in front, [base_url] is the validated URL and the
    first request goes to it. *)
Theorem validated_url_is_crawled url r max_pages w :
  validate_url url = Ok (true, r) →
  ∃ res f' reqs,
    scrape_company_website lib r max_pages w = (Ok res, f') ∧
    base_url res = r ∧
    fetched f' = r :: reqs.
Proof.
  intros (Hstart & _ & parsed & Hparse & _)%validate_url_inv.
  pose proof (with_scheme_http r Hstart) as Hws.
  unfold scrape_company_website.
  destruct (time_time lib (world (new_scraper w))) as [t0 w0] eqn:Hclock.
  rewrite <- Hws in Hparse.
  destruct (crawl_website_paths lib max_pages 30 r (new_scraper w) t0 w0 parsed
              Hclock Hparse)
    as (page & w1 & f' & _ & Hrun & Hpath).
  rewrite Hws in Hpath.
  destruct (crawl_path_requests _ _ _ _ _ _ _ _ _ _ Hpath eq_refl) as (reqs & Hf & _).
  exists (results f'), f', reqs. split_and!; [done | |].
  - destruct (crawl_path_invariant lib (fun f => base_url (results f) = r)
                _ _ _ _ _ _ _ _ _ Hpath eq_refl
                ltac:(by intros f g (_ & -> & _)) ltac:(done) ltac:(done))
      as (f3 & err & -> & [[_ ->] | HI]); by destruct err.
  - by rewrite Hf.
Qed.

End ValidateTheorems.

(** ** More about [normalize_url] and the score *)

Section QueryFacts.

Implicit Types (x y u w : str) (c d : ascii) (q : ascii -> bool).

Lemma before_app_nostop c x y :
  has_char c x = false → before c (x ++ y) = x ++ before c y.
Proof.
  intros H. apply has_char_false in H. unfold before.
  rewrite find_first_app by done. by rewrite take_app_add.
Qed.

Lemma path_query x t :
  before "?" (before "#" (x ++ "?"%char :: t)) = before "?" (before "#" x).
Proof.
  destruct (has_char "#" x) eqn:Hf.
  { by rewrite before_app_has. }
  rewrite before_app_nostop, (before_id "#" x) by done.
  change (x ++ before "#" ("?"%char :: t)) with (x ++ "?"%char :: before "#" t).
  apply before_app_stop.
Qed.

(** A query at the end changes neither scheme nor netloc nor path. *)
Lemma urlsplit_form_query sch url2 t :
  rmap core (urlsplit_form sch (url2 ++ "?"%char :: t))
  = rmap core (urlsplit_form sch url2).
Proof.
  unfold urlsplit_form.
  assert (startswith (url2 ++ "?"%char :: t) (s "//") = startswith url2 (s "//")) as ->.
  { by destruct url2 as [|a [|b url2]]. }
  destruct (startswith url2 (s "//")) eqn:E.
  - assert (drop 2 (url2 ++ "?"%char :: t) = drop 2 url2 ++ "?"%char :: t) as ->.
    { apply drop_app_le.
      destruct url2 as [|a [|b url2]]; simpl in E |- *;
        [done | by rewrite andb_false_r in E | lia]. }
    rewrite netloc_of_app_stop, rest_of_app_stop by done.
    destruct (bracket_bad _); simpl; [done |].
    unfold core. simpl. by rewrite path_query.
  - simpl. unfold core. simpl. by rewrite path_query.
Qed.

Lemma normalize_url_query u t :
  normalize_url (u ++ "?"%char :: t) = normalize_url u.
Proof.
  apply normalize_url_core. rewrite !urlparse_core. f_equal.
  rewrite !urlsplit_eq, clean_app by done.
  rewrite split_scheme_app by done. simpl fst. simpl snd.
  apply urlsplit_form_query.
Qed.

End QueryFacts.

Section ScoreBounds.

Implicit Types (u x text ctx : str) (k : str).

Lemma first_match_bonus_range candidates text bonus :
  0 <= bonus → 0 <= first_match_bonus candidates text bonus <= bonus.
Proof. intros H. unfold first_match_bonus. destruct (existsb _ _); lia. Qed.

Lemma depth_penalty_nonneg u : 0 <= depth_penalty u.
Proof.
  unfold depth_penalty. destruct (3 <? _) eqn:E; [|done].
  apply Z.ltb_lt in E. lia.
Qed.

Lemma keywords_in_bound u : Z.of_nat (length (keywords_in u)) <= 46.
Proof.
  unfold keywords_in.
  pose proof (length_filter (fun k => contains u k = true) priority_keywords) as H.
  change (length priority_keywords) with 46%nat in H. lia.
Qed.

Lemma combos_in_bound x : Z.of_nat (length (combos_in x)) <= 8.
Proof.
  unfold combos_in.
  pose proof (length_filter (fun p => contains x p.1 && contains x p.2 = true)
                high_value_combos) as H.
  change (length high_value_combos) with 8%nat in H. lia.
Qed.

End ScoreBounds.

Section MoreHelperTheorems.

(** X3.  [normalize_url] ignores the query: a URL and the same URL with
    [?] and any text appended, a fragment included, normalize to the same
    string, which is the key under which the crawler looks a link up in
    the visited set. *)
Theorem normalize_url_ignores_query u query_ fragment_ :
  normalize_url (u ++ s "?" ++ query_) = normalize_url u ∧
  normalize_url (u ++ s "?" ++ query_ ++ s "#" ++ fragment_) = normalize_url u.
Proof. split; apply normalize_url_query. Qed.

(** X4.  The range of [score_url_priority]: at most 685, and not below the
    negated depth penalty; never 0 for a non-empty URL; and at least 1 for
    a non-empty URL with at most three slashes, so that such a link is
    never dropped by the test [score > 0]. *)
Theorem score_range url text ctx :
  - depth_penalty (lower url) <= score_url_priority url text ctx <= 685 ∧
  (url ≠ [] → score_url_priority url text ctx ≠ 0) ∧
  (url ≠ [] → count_char "/" (lower url) <= 3 → 1 <= score_url_priority url text ctx).
Proof.
  pose proof (score_before_floor_eq url text ctx) as Heq.
  pose proof (keywords_in_bound (lower url)).
  pose proof (combos_in_bound (combined_text url text ctx)).
  pose proof (first_match_bonus_range priority_link_texts (strip (lower text)) 20
                ltac:(lia)).
  pose proof (first_match_bonus_range priority_keywords (strip (lower ctx)) 5
                ltac:(lia)).
  pose proof (depth_penalty_nonneg (lower url)).
  unfold score_url_priority.
  assert (Hlen : url ≠ [] → (0 <? len (lower url)) = true).
  { intros Hne. apply Z.ltb_lt. destruct url; [done |]. unfold len. simpl. lia. }
  split; [|split].
  - destruct (_ && _); lia.
  - intros Hne. rewrite (Hlen Hne), andb_true_r.
    destruct (score_before_floor url text ctx =? 0) eqn:E; [done |].
    by apply Z.eqb_neq in E.
  - intros Hne Hdepth. rewrite (Hlen Hne), andb_true_r.
    assert (depth_penalty (lower url) = 0) as Hzero.
    { unfold depth_penalty. by apply Z.ltb_ge in Hdepth as ->. }
    destruct (score_before_floor url text ctx =? 0) eqn:E; [done |].
    apply Z.eqb_neq in E. lia.
Qed.

End MoreHelperTheorems.

(** ** Concrete runs *)

Section MoreRuns.

Import Demo.

(** The homepage of [site1]: status 200, parsed, text [Welcome]. *)
Lemma successful_page_content_witness :
  ∃ response w soup,
    session_get (Demo.library Demo.site1 10) home 0 = (Ok response, w) ∧
    ¬ (400 <= status_code response < 600) ∧
    BeautifulSoup (Demo.library Demo.site1 10) (content response) = Ok soup ∧
    (extract_text_from_html (Demo.library Demo.site1 10) soup).1 = s "Welcome".
Proof.
  pose (run := scrape_page (Demo.library Demo.site1 10) home Demo.fresh).
  assert (Hrun : run = (Ok (match run.1 with
                            | Ok p => p
                            | Raise _ => failed_page [] []
                            end), run.2))
    by (vm_compute; reflexivity).
  destruct (successful_page_content (Demo.library Demo.site1 10) home Demo.fresh
              _ _ Hrun)
    as (response & w & soup & Hget & Hst & Hsoup & Htext & _).
  - vm_compute. reflexivity.
  - exists response, w, soup. split_and!; [exact Hget | exact Hst | exact Hsoup |].
    rewrite <- Htext. vm_compute. reflexivity.
Defined.

(** The five links of the homepage of [site1]. *)
Lemma successful_page_links_witness :
  ∃ page f' soup,
    scrape_page (Demo.library Demo.site1 10) home Demo.fresh = (Ok page, f') ∧
    page_soup page = Some soup ∧
    Forall2 (link_of (Demo.library Demo.site1 10) home)
      (filter has_href (find_all_anchors (Demo.library Demo.site1 10) soup))
      (page_links page) ∧
    Forall (fun l => len (link_context l) <= 100) (page_links page).
Proof.
  pose (run := scrape_page (Demo.library Demo.site1 10) home Demo.fresh).
  assert (Hrun : run = (Ok (match run.1 with
                            | Ok p => p
                            | Raise _ => failed_page [] []
                            end), run.2))
    by (vm_compute; reflexivity).
  destruct (successful_page_links (Demo.library Demo.site1 10) home Demo.fresh
              _ _ Hrun)
    as (soup & Hsoup & Hlinks & Hctx).
  - vm_compute. reflexivity.
  - eexists _, _, soup.
    split_and!; [exact Hrun | exact Hsoup | exact Hlinks | exact Hctx].
Defined.

(** A homepage with a link to [https://[example.com/team]. *)
Lemma bad_href_fails_page_witness :
  ∃ page f',
    scrape_page (Demo.strict_library Demo.site_bad_href 10) home Demo.fresh
      = (Ok page, f') ∧
    page_success page = false ∧ page_text page = [] ∧ page_links page = [].
Proof.
  eapply (bad_href_fails_page (Demo.strict_library Demo.site_bad_href 10) home
            Demo.fresh _ _ _ (anchor "https://[example.com/team" "Our Team")).
  - vm_compute. reflexivity.
  - vm_compute. reflexivity.
  - vm_compute. apply list_elem_of_In. right. left. reflexivity.
  - vm_compute. discriminate.
  - vm_compute. reflexivity.
Defined.

(** The requests of a run over [site_ten] with [max_pages = 3]. *)
Lemma requests_stay_on_site_witness :
  ∃ res f' t0 w0 parsed home_key homepage w1 reqs,
    crawl_website (Demo.library Demo.site_ten 10) 3 30 seed Demo.fresh = (Ok res, f') ∧
    time_time (Demo.library Demo.site_ten 10) (world Demo.fresh) = (t0, w0) ∧
    urlparse (with_scheme seed) = Ok parsed ∧
    normalize_url (with_scheme seed) = Ok home_key ∧
    scrape_page (Demo.library Demo.site_ten 10) (with_scheme seed)
      (entry_frame (with_scheme seed) t0 w0 Demo.fresh)
      = (Ok homepage, after_request (with_scheme seed) w1
                        (entry_frame (with_scheme seed) t0 w0 Demo.fresh)) ∧
    fetched f' = fetched Demo.fresh ++ with_scheme seed :: reqs ∧
    Forall (fun u => u ∈ link_url <$> page_links homepage
                     ∧ is_valid_url u (netloc parsed) = Ok true
                     ∧ ∃ k, normalize_url u = Ok k ∧ k ≠ home_key) reqs ∧
    Z.of_nat (length reqs) <= 3 - 1.
Proof.
  pose (run := crawl_website (Demo.library Demo.site_ten 10) 3 30 seed Demo.fresh).
  assert (Hrun : run = (Ok (results run.2), run.2)) by (vm_compute; reflexivity).
  destruct (requests_stay_on_site (Demo.library Demo.site_ten 10) 3 30 seed Demo.fresh
              _ _ Hrun)
    as (t0 & w0 & parsed & key & homepage & w1 & reqs
        & Hclock & Hparse & Hkey & Hscrape & Hf & Hvalid & Hlen & _).
  exists (results run.2), run.2, t0, w0, parsed, key, homepage, w1, reqs.
  split_and!; [exact Hrun | exact Hclock | exact Hparse | exact Hkey | exact Hscrape
              | exact Hf | exact Hvalid | apply Hlen; lia].
Defined.

(** A run over [site1] ends without [error], with the homepage first. *)
Lemma error_means_homepage_only_witness :
  ∃ res f',
    crawl_website (Demo.library Demo.site1 10) 10 30 seed Demo.fresh = (Ok res, f') ∧
    1 <= page_count res ∧
    ∃ text_length rest, pages_scraped res = home_record home text_length :: rest.
Proof.
  pose (run := crawl_website (Demo.library Demo.site1 10) 10 30 seed Demo.fresh).
  assert (Hrun : run = (Ok (results run.2), run.2)) by (vm_compute; reflexivity).
  destruct (error_means_homepage_only (Demo.library Demo.site1 10) 10 30 seed
              Demo.fresh _ _ Hrun) as [_ Hnone].
  exists (results run.2), run.2. split; [exact Hrun |].
  apply Hnone. vm_compute. reflexivity.
Defined.

(** The homepage answers 404: the error is that of the homepage and no
    page is recorded. *)
Lemma error_causes_witness :
  ∃ res f',
    crawl_website (Demo.strict_library Demo.site_404 10) 10 30 seed Demo.fresh
      = (Ok res, f') ∧
    error res = Some (s "Failed to scrape: Client Error") ∧
    page_count res = 0.
Proof.
  pose (run := crawl_website (Demo.strict_library Demo.site_404 10) 10 30 seed
                 Demo.fresh).
  assert (Hrun : run = (Ok (results run.2), run.2)) by (vm_compute; reflexivity).
  assert (Herr : error (results run.2) = Some (s "Failed to scrape: Client Error"))
    by (vm_compute; reflexivity).
  assert (Hnames : names_by_source (Demo.strict_library Demo.site_404 10) Demo.no_name)
    by (intros soup url; reflexivity).
  exists (results run.2), run.2. split_and!; [exact Hrun | exact Herr |].
  destruct (error_causes (Demo.strict_library Demo.site_404 10) Demo.no_name
              10 30 seed Demo.fresh _ _ _ Hnames Hrun Herr)
    as (t0 & w0 & homepage & w1 & _ & _ & [(Hcount & _) | (Hcount & _)]).
  - exact Hcount.
  - vm_compute in Hcount. discriminate.
Defined.

(** The corpus of a run over [site1]. *)
Lemma total_text_layout_witness :
  ∃ res f' texts,
    crawl_website (Demo.library Demo.site1 10) 10 30 seed Demo.fresh = (Ok res, f') ∧
    Forall2 record_of_text (pages_scraped res) texts ∧
    total_text res = corpus (zip (rec_title <$> pages_scraped res) texts).
Proof.
  pose (run := crawl_website (Demo.library Demo.site1 10) 10 30 seed Demo.fresh).
  assert (Hrun : run = (Ok (results run.2), run.2)) by (vm_compute; reflexivity).
  destruct (total_text_layout (Demo.library Demo.site1 10) 10 30 seed Demo.fresh
              _ _ Hrun) as (texts & Hrec & Htext).
  exists (results run.2), run.2, texts.
  split_and!; [exact Hrun | exact Hrec | exact Htext].
Defined.

(** The records of a run over [site1]. *)
Lemma records_are_wellformed_witness :
  ∃ res f',
    crawl_website (Demo.library Demo.site1 10) 10 30 seed Demo.fresh = (Ok res, f') ∧
    Forall record_wf (pages_scraped res).
Proof.
  pose (run := crawl_website (Demo.library Demo.site1 10) 10 30 seed Demo.fresh).
  assert (Hrun : run = (Ok (results run.2), run.2)) by (vm_compute; reflexivity).
  exists (results run.2), run.2. split; [exact Hrun |].
  exact (records_are_wellformed (Demo.library Demo.site1 10) 10 30 seed Demo.fresh
           _ _ Hrun).
Defined.

(** Two pages that name a stock exchange: two matches under one name. *)
Lemma enterprise_signals_are_matches_witness :
  ∃ res f',
    crawl_website (Demo.strict_library Demo.site_listed 10) 10 30 seed Demo.fresh
      = (Ok res, f') ∧
    enterprise_signals res !! s "stock_exchange" = Some [s "nasdaq"; s "nasdaq"] ∧
    signals_wf (Demo.strict_library Demo.site_listed 10) (enterprise_signals res).
Proof.
  pose (run := crawl_website (Demo.strict_library Demo.site_listed 10) 10 30 seed
                 Demo.fresh).
  assert (Hrun : run = (Ok (results run.2), run.2)) by (vm_compute; reflexivity).
  exists (results run.2), run.2. split_and!; [exact Hrun | vm_compute; reflexivity |].
  exact (enterprise_signals_are_matches (Demo.strict_library Demo.site_listed 10)
           10 30 seed Demo.fresh _ _ Hrun).
Defined.

(** The visited set of a run over [site1] from a fresh scraper. *)
Lemma visited_is_old_plus_pages_witness :
  ∃ res f' ns,
    crawl_website (Demo.library Demo.site1 10) 10 30 seed Demo.fresh = (Ok res, f') ∧
    pages_keys res ns ∧
    visited_urls f' = visited_urls Demo.fresh ∪ list_to_set ns.
Proof.
  pose (run := crawl_website (Demo.library Demo.site1 10) 10 30 seed Demo.fresh).
  assert (Hrun : run = (Ok (results run.2), run.2)) by (vm_compute; reflexivity).
  destruct (visited_is_old_plus_pages (Demo.library Demo.site1 10) 10 30 seed
              Demo.fresh _ _ Hrun) as (ns & Hkeys & Hv).
  exists (results run.2), run.2, ns. split_and!; [exact Hrun | exact Hkeys | exact Hv].
Defined.

(** A loop over two candidates on a site that takes 31 seconds to answer:
    the second reading of the clock is late. *)
Lemma loop_stops_at_deadline_witness :
  ∃ r f' reads reqs,
    crawl_pages (Demo.library Demo.site1 31000) 30 0
      [(45, s "https://example.com/about", s "About Us");
       (10, s "https://example.com/blog", s "Blog")] Demo.fresh = (r, f') ∧
    clock_reads f' = clock_reads Demo.fresh ++ reads ∧
    fetched f' = fetched Demo.fresh ++ reqs ∧
    (length reads <= 2)%nat ∧
    (length reqs <= length (filter (in_time 30 0) reads))%nat ∧
    stops_when_late 30 0 reads.
Proof.
  pose (run := crawl_pages (Demo.library Demo.site1 31000) 30 0
                 [(45, s "https://example.com/about", s "About Us");
                  (10, s "https://example.com/blog", s "Blog")] Demo.fresh).
  assert (Hrun : run = (run.1, run.2)) by (vm_compute; reflexivity).
  destruct (loop_stops_at_deadline (Demo.library Demo.site1 31000) 30 0 _ _ _ _ Hrun)
    as (reads & reqs & Hr & Hf & Hlen & Hreq & Hstop).
  exists run.1, run.2, reads, reqs.
  split_and!; [exact Hrun | exact Hr | exact Hf | exact Hlen | exact Hreq | exact Hstop].
Defined.

(** The entry point on [site_ten] with [max_pages = 3]. *)
Lemma scrape_company_website_budget_witness :
  ∃ res f',
    scrape_company_website (Demo.library Demo.site_ten 10) seed 3 0 = (Ok res, f') ∧
    head (fetched f') = Some home ∧
    Z.of_nat (length (fetched f')) <= 3 ∧
    page_count res <= Z.of_nat (length (fetched f')) ∧
    base_url res = home.
Proof.
  pose (run := scrape_company_website (Demo.library Demo.site_ten 10) seed 3 0).
  assert (Hrun : run = (Ok (results run.2), run.2)) by (vm_compute; reflexivity).
  exists (results run.2), run.2. split; [exact Hrun |].
  apply (scrape_company_website_budget (Demo.library Demo.site_ten 10) seed 3 0);
    [lia | exact Hrun].
Defined.

(** [example.com], validated and then crawled over [site1]. *)
Lemma validated_url_is_crawled_witness :
  ∃ res f' reqs,
    scrape_company_website (Demo.library Demo.site1 10) home 10 0 = (Ok res, f') ∧
    base_url res = home ∧
    fetched f' = home :: reqs.
Proof.
  apply (validated_url_is_crawled (Demo.library Demo.site1 10) seed).
  vm_compute. reflexivity.
Defined.

End MoreRuns.

Section MoreHelperRuns.

(** A title with two separators, on a page without [og:site_name]. *)
Lemma extract_company_name_sources_witness :
  ∃ text,
    Some (s " Acme Tools - Home | Welcome ") = Some text ∧
    3 < len (s "Acme Tools - Home") < 50 ∧
    infix_of (s "Acme Tools - Home") text.
Proof.
  destruct (extract_company_name_sources None
              (Some (s " Acme Tools - Home | Welcome "))
              (s "https://www.example.com") (s "Acme Tools - Home"))
    as [(c & Hog & _) | (_ & [Htitle | (parsed & Hparse & Hname & _)])].
  - vm_compute. reflexivity.
  - discriminate.
  - exact Htitle.
  - vm_compute in Hparse. injection Hparse as <-. vm_compute in Hname. discriminate.
Defined.

(** The merge of one page's signals into one accumulated entry. *)
Lemma extend_signals_is_merge_witness :
  extend_signals {[s "fortune" := [s "fortune 500"]]}
    [(s "fortune", [s "fortune 100"]);
     (s "multinational", [s "multinational corporation"])] !! s "fortune"
  = Some [s "fortune 500"; s "fortune 100"].
Proof.
  destruct (extend_signals_is_merge {[s "fortune" := [s "fortune 500"]]}
              [(s "fortune", [s "fortune 100"]);
               (s "multinational", [s "multinational corporation"])]) as [_ H].
  - apply (bool_decide_unpack _). vm_compute. exact I.
  - rewrite H. vm_compute. reflexivity.
Defined.

(** From [example.com/about] with blanks around it. *)
Lemma validate_url_accepts_witness :
  validate_url (s "  example.com/about ") = Ok (true, s "https://example.com/about") ∧
  validate_url (s "https://example.com/about") = Ok (true, s "https://example.com/about").
Proof.
  assert (H : validate_url (s "  example.com/about ")
              = Ok (true, s "https://example.com/about"))
    by (vm_compute; reflexivity).
  split; [exact H |].
  destruct (validate_url_accepts _ _ H) as (_ & _ & _ & Hagain). exact Hagain.
Defined.

End MoreHelperRuns.
